(** * DenyHosts: the log-ingestion and decision pipeline

    A shallow embedding of [DenyHosts/deny_hosts.py] (class [DenyHosts] and
    the helper [system_execute]) together with the properties of its
    specification.

    The Python methods act on three things: the attributes of [self] that
    change after construction, the outside world (sub-processes, files, the
    clock, the collaborating classes [Sync], [Purge], [LoginAttempt],
    [Report], [FileTracker], [AllowedHosts]) and exceptions.  They are
    embedded in a small monad [M]: a computation receives the mutable part of
    the object and the history of interactions so far, and yields an outcome
    (a value or a raised exception), the new object and the interactions it
    performed, oldest first.  What the world answers is given by an oracle
    [Env] that sees the whole history, so a theorem quantified over [Env]
    holds whatever the world does.

    The long methods ([update_hosts_deny], [process_log], [sleepAndPurge],
    [daemonLoop]) are cut into named blocks, in the order of the source.
    The endless loop of [daemonLoop] is run for a given number of turns.

    [debug] and [info] log messages are not part of the trace; [error],
    [warning] and [exception] ones are. *)

From stdpp Require Import base strings list gmap pretty.
From Stdlib Require Import ZArith QArith Lia Ascii String.

Local Open Scope Z_scope.

(** ** Python values *)

Definition host := string.

(** Exceptions that the modelled code can see. *)
Inductive exn :=
| OSError (what : string)
| RuntimeError (retcode : Z)          (* RuntimeError("Return code %d" % retcode) *)
| NameError (name : string)
| IndexError (what : string)
| TypeError (what : string)
| ZeroDivisionError
| Exception (msg : string)
| CollaboratorError (who : string).   (* raised by Sync or Purge *)

Inductive outcome (A : Type) :=
| Ok (a : A)
| Raise (e : exn).
Arguments Ok {A} a.
Arguments Raise {A} e.

(** Truth value of a string preference.  A key that is unset ([None]) and a
    key set to the empty string are both false, and the source only tests
    these keys for truth, so both are represented by [""]. *)
Definition truthy (s : string) : bool := negb (String.eqb s "").

(** Truth value of an optional integer ([None] and [0] are false). *)
Definition truthyZ (o : option Z) : bool :=
  match o with
  | Some n => negb (n =? 0)
  | None => false
  end.

(** Truth value of the result of a named group: [None] (the group took no
    part in the match) and [""] are false. *)
Definition truthy_group (v : option string) : bool :=
  match v with
  | Some s => truthy s
  | None => false
  end.

Definition nl : string := String "010"%char "".

(** [sys.maxsize] of a 64-bit interpreter. *)
Definition sys_maxsize : Z := 2 ^ 63 - 1.

(** ** Regular expressions

    A compiled pattern is used through [match] and [search] only; a match
    object is used through [group(name)] only.  A match object is modelled by
    the named groups its pattern defines, each with the text it captured, or
    [None] when the group took no part in the match. *)

Definition rx_match := list (string * option string).

Record regex := {
  re_match : string -> option rx_match;    (* rx.match(s)  *)
  re_search : string -> option rx_match    (* rx.search(s) *)
}.

Fixpoint lookup_group (name : string) (m : rx_match) : option (option string) :=
  match m with
  | [] => None
  | (n, v) :: rest => if String.eqb n name then Some v else lookup_group name rest
  end.

(** [m.group(name)]: raises [IndexError] when the pattern has no such group. *)
Definition group (m : rx_match) (name : string) : outcome (option string) :=
  match lookup_group name m with
  | Some v => Ok v
  | None => Raise (IndexError "no such group")
  end.

(** ** Configuration *)

(** Names that the module takes from [constants], [regex] and [util], which
    are imported but are not part of the file. *)
Record constants := {
  BSD_STYLE : string;
  DENY_DELIMITER : string;
  ENTRY_DELIMITER : string;
  SYNC_MIN_INTERVAL : Z;
  SYNC_HOSTS : string;
  ALLOWED_HOSTS : string;
  FAILED_ENTRY_REGEX_RANGE : list Z;
  HAS_BZ2 : bool;
  is_valid_ip_address : option string -> bool;
  parse_host : string -> option host;          (* [None]: parse_host raises *)
  (* a module-level binding of the name [new_hosts], if the star imports
     provide one; the file itself defines none *)
  global_new_hosts : option (list host)
}.

(** The preferences read by the class, and the attributes that [__init__]
    sets once and no method assigns again. *)
Record prefs := {
  HOSTS_DENY : string;
  WORK_DIR : string;
  BLOCK_SERVICE : string;
  PURGE_DENY : option Z;
  DAEMON_SLEEP : Z;
  DAEMON_PURGE : Z;
  SYNC_INTERVAL : option Z;
  SYNC_SERVER : string;
  SYNC_UPLOAD : bool;                          (* is_true(prefs.get("SYNC_UPLOAD")) *)
  SYNC_DOWNLOAD : bool;
  IPTABLES : string;
  IPSET_COMMAND : string;
  IPSET_NAME : string;
  BLOCKPORT : string;
  PFCTL_PATH : string;
  PF_TABLE : string;
  PF_TABLE_FILE : string;
  PLUGIN_DENY : string;
  DETECT_DOVECOT_LOGIN_ATTEMPTS : bool;        (* is_true(prefs.get(...)) *)
  USERDEF_FAILED_ENTRY_REGEX : list regex;
  (* the result of init_regex *)
  sshd_format_regex : regex;
  successful_entry_regex : regex;
  failed_entry_regex_map : gmap Z regex;
  failed_dovecot_entry_regex : regex;
  (* [host in self.__allowed_hosts] *)
  allowed_hosts : host -> bool;
  noemail : bool;
  daemon : bool
}.

(** The attributes that methods assign. *)
Record DenyHosts := {
  denied_hosts : gset host;         (* the keys of the dict __denied_hosts *)
  fw_initialized : bool;
  fw_blocked_hosts : gset host;
  purge_counter : Z;
  sync_counter : Z
}.

Definition set_denied_hosts (d : gset host) (s : DenyHosts) : DenyHosts :=
  {| denied_hosts := d; fw_initialized := fw_initialized s;
     fw_blocked_hosts := fw_blocked_hosts s;
     purge_counter := purge_counter s; sync_counter := sync_counter s |}.

Definition set_fw_initialized (b : bool) (s : DenyHosts) : DenyHosts :=
  {| denied_hosts := denied_hosts s; fw_initialized := b;
     fw_blocked_hosts := fw_blocked_hosts s;
     purge_counter := purge_counter s; sync_counter := sync_counter s |}.

Definition add_fw_blocked_host (h : host) (s : DenyHosts) : DenyHosts :=
  {| denied_hosts := denied_hosts s; fw_initialized := fw_initialized s;
     fw_blocked_hosts := {[ h ]} ∪ fw_blocked_hosts s;
     purge_counter := purge_counter s; sync_counter := sync_counter s |}.

Definition set_purge_counter (n : Z) (s : DenyHosts) : DenyHosts :=
  {| denied_hosts := denied_hosts s; fw_initialized := fw_initialized s;
     fw_blocked_hosts := fw_blocked_hosts s;
     purge_counter := n; sync_counter := sync_counter s |}.

Definition set_sync_counter (n : Z) (s : DenyHosts) : DenyHosts :=
  {| denied_hosts := denied_hosts s; fw_initialized := fw_initialized s;
     fw_blocked_hosts := fw_blocked_hosts s;
     purge_counter := purge_counter s; sync_counter := n |}.

(** ** Interactions with the world *)

Inductive fileobj :=
| HostsDenyFile      (* open(prefs.get('HOSTS_DENY'), ...) *)
| PfTableFile        (* open(self.__pftablefile, "a") *)
| SyncHostsFile      (* open(os.path.join(WORK_DIR, SYNC_HOSTS), "a") *)
| LogFile            (* the monitored log *)
| Stdout.            (* sys.stdout used as a file object *)

Inductive loglevel := LvError | LvWarning.

Inductive event :=
(* subprocess.call(args, ...) and its return code; None: it raised *)
| ESubprocess (args : list string) (use_stdout use_stderr : bool) (ret : option Z)
(* open(path, mode); ok = false: it raised *)
| EOpen (f : fileobj) (path mode : string) (ok : bool)
| EWrite (f : fileobj) (text : string)
| EClose (f : fileobj)
| EPrint (text : string)
| EPrintExn (e : exn)
| EAsctime (t : string)
| ELog (lv : loglevel) (msg : string)
| ELogExn (e : exn)                            (* error(str(e)) *)
| ELogException (e : exn)                      (* logging.getLogger().exception(e) *)
(* entry into firewall_block, with its argument *)
| EFirewallBlock (hosts : list host)
| EPlugin (cmd : string) (hosts : list host)   (* plugin.execute(cmd, hosts) *)
| EChmod (path : string)
(* the scheduler *)
| ESignals
| ELockCreate
| ESleep (secs : Z)
| EPurge (age : option Z) (r : outcome unit)   (* Purge(prefs, purge_time) *)
| ESyncNew                                     (* Sync(prefs) *)
| ESyncSend (r : outcome Z)                    (* sync.send_new_hosts() *)
| ESyncReceive (r : outcome (list host))       (* sync.receive_new_hosts() *)
| ESyncDisconnect
(* the log follower *)
| EStat (path : string) (inode : option Z)     (* os.stat(logfile)[ST_INO]; None: OSError *)
| EFstatInode (inode : Z)
| EFstatSize (size : Z)
| ESeek (offset : Z)
| EReadLines (lines : list string)
| ETell (offset : Z)
| ESaveOffset (offset : Z)                     (* file_tracker.save_offset *)
| EUpdateFirstLine                             (* file_tracker.update_first_line *)
(* the deny file, read back *)
| EReadHostsDeny (lines : outcome (list string))
| EAddWarnedHost (h : host)
| ENewWarnedHosts (hosts : list host)
| ESaveWarnedHosts
| EClearWarnedHosts
(* the attempt store *)
| ELoginAttemptNew
| ELoginAdd (user host : option string) (success invalid : Z)
| ESaveAllStats
| EGetDenyHosts (hosts : list host)
| ENewSuspiciousLogins (hosts : list host)
(* the report *)
| EReportSection (title : string) (items : list host)
| EReportEmpty (b : bool)
| ESendEmail
| EInfoReport
| EReportClear.

(** What the world answers, given everything that happened before. *)
Record Env := {
  env_subprocess : list event -> list string -> option Z;
  env_open : list event -> fileobj -> string -> string -> bool;
  env_asctime : list event -> string;
  env_purge : list event -> outcome unit;
  env_sync_send : list event -> outcome Z;
  env_sync_receive : list event -> outcome (list host);
  env_stat : list event -> string -> option Z;
  env_fstat_inode : list event -> Z;
  env_fstat_size : list event -> Z;
  env_read_lines : list event -> list string;
  env_tell : list event -> Z;
  env_read_hosts_deny : list event -> outcome (list string);
  env_new_warned_hosts : list event -> list host;
  env_get_deny_hosts : list event -> list host;
  env_new_suspicious_logins : list event -> list host;
  env_report_empty : list event -> bool
}.

(** ** The monad *)

Definition M (A : Type) : Type :=
  DenyHosts -> list event -> outcome A * DenyHosts * list event.

Definition ret {A} (a : A) : M A := fun s _ => (Ok a, s, []).

Definition bind {A B} (m : M A) (f : A -> M B) : M B :=
  fun s h =>
    match m s h with
    | (Ok a, s1, o1) =>
        match f a s1 (h ++ o1) with
        | (r, s2, o2) => (r, s2, o1 ++ o2)
        end
    | (Raise e, s1, o1) => (Raise e, s1, o1)
    end.

Notation "x <- m ;; k" := (bind m (fun x => k))
  (at level 100, m at next level, right associativity).
Notation "m ;; k" := (bind m (fun _ => k))
  (at level 100, right associativity).

Definition raise {A} (e : exn) : M A := fun s _ => (Raise e, s, []).

(** [try: m except Exception as e: handler e] *)
Definition try_except {A} (m : M A) (handler : exn -> M A) : M A :=
  fun s h =>
    match m s h with
    | (Ok a, s1, o1) => (Ok a, s1, o1)
    | (Raise e, s1, o1) =>
        match handler e s1 (h ++ o1) with
        | (r, s2, o2) => (r, s2, o1 ++ o2)
        end
    end.

Definition get : M DenyHosts := fun s _ => (Ok s, s, []).
Definition modify (f : DenyHosts -> DenyHosts) : M unit := fun s _ => (Ok tt, f s, []).

(** An action on the world with no answer. *)
Definition emit (e : event) : M unit := fun s _ => (Ok tt, s, [e]).

(** An action on the world whose answer [x] the oracle [q] provides. *)
Definition ask {X} (q : list event -> X) (mk : X -> event) : M X :=
  fun s h => (Ok (q h), s, [mk (q h)]).

Definition lift {A} (r : outcome A) : M A :=
  match r with
  | Ok a => ret a
  | Raise e => raise e
  end.

(** [for x in l: body x] *)
Fixpoint for_each {X} (l : list X) (body : X -> M unit) : M unit :=
  match l with
  | [] => ret tt
  | x :: rest => body x ;; for_each rest body
  end.

(** [[x for x in l if cond x]], the condition evaluated in order. *)
Fixpoint filterM {X} (cond : X -> M bool) (l : list X) : M (list X) :=
  match l with
  | [] => ret []
  | x :: rest =>
      b <- cond x ;;
      keep <- filterM cond rest ;;
      ret (if b then x :: keep else keep)
  end.

Definition when (b : bool) (m : M unit) : M unit := if b then m else ret tt.

(** Projections of a run. *)
Definition res {A} (r : outcome A * DenyHosts * list event) : outcome A := fst (fst r).
Definition st {A} (r : outcome A * DenyHosts * list event) : DenyHosts := snd (fst r).
Definition out {A} (r : outcome A * DenyHosts * list event) : list event := snd r.

(** ** String helpers *)

(** [sep.join(l)] *)
Fixpoint join (sep : string) (l : list string) : string :=
  match l with
  | [] => ""
  | [x] => x
  | x :: rest => x +:+ sep +:+ join sep rest
  end.

(** [s.endswith(suffix)] *)
Definition endswith (s suffix : string) : bool :=
  let n := String.length s in
  let k := String.length suffix in
  (k <=? n)%nat && String.eqb (substring (n - k) k s) suffix.

(** [s.find('#')] *)
Definition find_hash (s : string) : Z :=
  match String.index 0 "#" s with
  | Some i => Z.of_nat i
  | None => -1
  end.

(** [s[:idx]] *)
Definition slice_to (s : string) (idx : Z) : string :=
  let n := Z.of_nat (String.length s) in
  let stop := if idx <? 0 then Z.max 0 (n + idx) else Z.min idx n in
  substring 0 (Z.to_nat stop) s.

(** [os.path.join(a, b)] *)
Definition path_join (a b : string) : string :=
  if String.prefix "/" b then b
  else if String.eqb a "" || endswith a "/" then a +:+ b
  else a +:+ "/" +:+ b.

(** [a / b] on two integers is Python 3's true division, whose result is
    a float.  It is modelled by the exact rational.  The scheduler only
    compares the quotient with an integer counter, by [==], and Python
    compares an [int] with a float exactly; for the magnitudes of a
    configuration (seconds, far below [2^26]) the nearest float to [a / b]
    is an integer exactly when [b] divides [a], and is then that integer.
    So the comparison on rationals gives what the comparison on floats
    gives. *)
Definition truediv (a b : Z) : outcome Q :=
  if b =? 0 then Raise ZeroDivisionError else Ok (inject_Z a / inject_Z b)%Q.

(** [counter == ratio], the ratio possibly [None] *)
Definition counter_eq (counter : Z) (ratio : option Q) : bool :=
  match ratio with
  | Some q => Qeq_bool (inject_Z counter) q
  | None => false
  end.

(** Truth value of a ratio ([None] and [0.0] are false). *)
Definition truthy_ratio (ratio : option Q) : bool :=
  match ratio with
  | Some q => negb (Qeq_bool q 0)
  | None => false
  end.

Definition is_nonempty {X} (l : list X) : bool :=
  match l with
  | [] => false
  | _ :: _ => true
  end.

(** ** The program *)

Section Program.

Variable K : constants.
Variable P : prefs.
Variable E : Env.

(** [print(text)] and [print(e)] *)
Definition print (text : string) : M unit := emit (EPrint text).
Definition print_exn (e : exn) : M unit := emit (EPrintExn e).

(** [open(path, mode)] bound to the file object [f] *)
Definition open_file (f : fileobj) (path mode : string) : M unit :=
  ok <- ask (fun h => env_open E h f path mode) (EOpen f path mode) ;;
  if ok then ret tt else raise (OSError path).

(** [f.write(text)] and [f.close()] *)
Definition write (f : fileobj) (text : string) : M unit := emit (EWrite f text).
Definition close (f : fileobj) : M unit := emit (EClose f).

(** [system_execute(args, valid_retcodes, use_stdout, use_stderr)] *)
Definition system_execute (args : list string) (valid_retcodes : list Z)
    (use_stdout use_stderr : bool) : M Z :=
  try_except
    (r <- ask (fun h => env_subprocess E h args)
              (ESubprocess args use_stdout use_stderr) ;;
     match r with
     | None => raise (OSError "subprocess.call")
     | Some retcode =>
         if existsb (Z.eqb retcode) valid_retcodes then ret retcode
         else raise (RuntimeError retcode)
     end)
    (fun e =>
       emit (ELog LvError ("Failure to execute " +:+ join " " args)) ;;
       emit (ELogExn e) ;;
       raise e).

(** [match_rule], in [firewall_init] *)
Definition ipset_match_rule : list string :=
  if truthy (BLOCKPORT P)
  then ["INPUT"; "-p"; "tcp"; "--dport"; BLOCKPORT P; "-m"; "set";
        "--match-set"; IPSET_NAME P; "src"; "-j"; "DROP"]
  else ["INPUT"; "-m"; "set"; "--match-set"; IPSET_NAME P; "src"; "-j"; "DROP"].

(** [firewall_init()] *)
Definition firewall_init : M unit :=
  try_except
    (when (truthy (IPTABLES P) && truthy (IPSET_NAME P) && truthy (IPSET_COMMAND P))
       (check_result <- system_execute
            [IPSET_COMMAND P; "list"; IPSET_NAME P; "-name"] [0; 1] false true ;;
        when (negb (check_result =? 0))
          (system_execute
             [IPSET_COMMAND P; "create"; IPSET_NAME P; "hash:ip"; "-exist"]
             [0] true true ;;
           ret tt) ;;
        check_result <- system_execute
            ([IPTABLES P; "-C"] ++ ipset_match_rule) [0; 1] false true ;;
        when (negb (check_result =? 0))
          (system_execute ([IPTABLES P; "-I"] ++ ipset_match_rule) [0] true true ;;
           ret tt)) ;;
     modify (set_fw_initialized true))
    (fun e =>
       print_exn e ;;
       print "Unable to setup the firewall").

(** The PF-table-file branch of [firewall_block] iterates over the name
    [new_hosts], which is neither a parameter nor a local of the function:
    the name is looked up among the module's globals. *)
Definition lookup_new_hosts : M (list host) :=
  match global_new_hosts K with
  | Some l => ret l
  | None => raise (NameError "new_hosts")
  end.

(** [firewall_block(hosts)].  The entry into the method is recorded in the
    trace, with its argument, so that what is passed to it can be told. *)
Definition firewall_block (hosts : list host) : M unit :=
  emit (EFirewallBlock hosts) ;;
  (if truthy (IPTABLES P) then
     if truthy (IPSET_NAME P) && truthy (IPSET_COMMAND P) then
       firewall_init ;;
       try_except
         (for_each hosts (fun host =>
            system_execute
              [IPSET_COMMAND P; "add"; IPSET_NAME P; host; "-exist"] [0] true true ;;
            modify (add_fw_blocked_host host)))
         (fun e =>
            print_exn e ;;
            print "Unable to add a host to ipset")
     else
       try_except
         (for_each hosts (fun host =>
            let args :=
              if truthy (BLOCKPORT P)
              then [IPTABLES P; "-I"; "INPUT"; "-p"; "tcp"; "--dport"; BLOCKPORT P;
                    "-s"; host; "-j"; "DROP"]
              else [IPTABLES P; "-I"; "INPUT"; "-s"; host; "-j"; "DROP"] in
            system_execute args [0] true true ;;
            modify (add_fw_blocked_host host)))
         (fun e =>
            print_exn e ;;
            print "Unable to write new firewall rule.")
   else if truthy (PFCTL_PATH P) && truthy (PF_TABLE P) then
     try_except
       (for_each hosts (fun host =>
          system_execute [PFCTL_PATH P; "-t"; PF_TABLE P; "-T"; "add"; host]
            [0] true true ;;
          modify (add_fw_blocked_host host)))
       (fun e =>
          print_exn e ;;
          print "Unable to write new PF rule.")
   else ret tt) ;;
  when (truthy (PF_TABLE_FILE P))
    (try_except
       (open_file PfTableFile (PF_TABLE_FILE P) "a" ;;
        new_hosts <- lookup_new_hosts ;;
        for_each new_hosts (fun host => write PfTableFile (host +:+ nl)) ;;
        close PfTableFile)
       (fun e =>
          print_exn e ;;
          print "Unable to write new host to PF table file.")).

(** [firewall_check(host)]: [True] means blocked.  [check_result] starts as
    [False], which equals [0]. *)
Definition firewall_check (host : host) : M bool :=
  checked <-
    (if truthy (IPTABLES P) then
       try_except
         (check_result <-
            (if truthy (IPSET_NAME P) && truthy (IPSET_COMMAND P) then
               system_execute
                 [IPSET_COMMAND P; "test"; IPSET_NAME P; host; "-quiet"]
                 [0; 1] true true
             else
               let args :=
                 if truthy (BLOCKPORT P)
                 then [IPTABLES P; "-C"; "INPUT"; "-p"; "tcp"; "--dport";
                       BLOCKPORT P; "-s"; host; "-j"; "DROP"]
                 else [IPTABLES P; "-C"; "INPUT"; "-s"; host; "-j"; "DROP"] in
               system_execute args [0; 1] true true) ;;
          ret (Some check_result))
         (fun e =>
            print_exn e ;;
            print ("Unable to check if firewall blocks host " +:+ host) ;;
            ret None)                                   (* return False *)
     else if truthy (PFCTL_PATH P) && truthy (PF_TABLE P) then
       (* raise RuntimeException(...): the name is not defined *)
       raise (NameError "RuntimeException")
     else ret (Some 0)) ;;
  match checked with
  | None => ret false
  | Some check_result =>
      if check_result =? 0 then
        modify (add_fw_blocked_host host) ;;
        ret true
      else ret false
  end.

(** [output], in [update_hosts_deny]: the text written for one host. *)
Definition deny_output (host : host) : string :=
  if truthy (BLOCK_SERVICE P)
  then (BLOCK_SERVICE P +:+ ": ") +:+ host +:+ BSD_STYLE K
  else host.

(** ["%s %s%s%s\n" % (DENY_DELIMITER, time.asctime(), ENTRY_DELIMITER, output)] *)
Definition stamp_line (t : string) (output : string) : string :=
  DENY_DELIMITER K +:+ " " +:+ t +:+ ENTRY_DELIMITER K +:+ output +:+ nl.

(** [self.__prefs.get('PURGE_DENY') is not None] *)
Definition write_timestamp : bool :=
  match PURGE_DENY P with
  | Some _ => true
  | None => false
  end.

(** The body of [for host in new_hosts: ...] *)
Definition write_entry (fp : fileobj) (host : host) : M unit :=
  let output := deny_output host in
  when write_timestamp
    (t <- ask (env_asctime E) EAsctime ;;
     write fp (stamp_line t output)) ;;
  write fp (output +:+ nl).

(** [host not in self.__denied_hosts and host not in self.__allowed_hosts] *)
Definition is_new_host (s : DenyHosts) (host : host) : bool :=
  negb (bool_decide (host ∈ denied_hosts s)) && negb (allowed_hosts P host).

(** The three blocks of [update_hosts_deny], in the order of the source. *)

(** [if self.__iptables: ...] *)
Definition iptables_stage (deny_hosts : list host) : M unit :=
  when (truthy (IPTABLES P))
    (s <- get ;;
     when (negb (fw_initialized s)) firewall_init ;;
     fw_hosts <- filterM (fun host =>
         s <- get ;;
         if allowed_hosts P host then ret false
         else if bool_decide (host ∈ fw_blocked_hosts s) then ret false
         else blocked <- firewall_check host ;; ret (negb blocked))
       deny_hosts ;;
     when (is_nonempty fw_hosts) (firewall_block fw_hosts)).

(** [if self.__pfctl and self.__pftable: self.firewall_block(new_hosts)] *)
Definition pf_stage (new_hosts : list host) : M unit :=
  when (truthy (PFCTL_PATH P) && truthy (PF_TABLE P)) (firewall_block new_hosts).

(** [try: fp = open(...); status = 1 except: ...; fp = sys.stdout; status = 0] *)
Definition open_hosts_deny : M (fileobj * Z) :=
  try_except
    (open_file HostsDenyFile (HOSTS_DENY P) "a" ;;
     ret (HostsDenyFile, 1))
    (fun e =>
       print_exn e ;;
       print ("These hosts should be manually added to: %s " +:+ HOSTS_DENY P) ;;
       ret (Stdout, 0)).

(** From [try: fp = open(...)] to [return new_hosts, status]. *)
Definition append_stage (new_hosts : list host)
    : M (option (list host) * option Z) :=
  opened <- open_hosts_deny ;;
  for_each new_hosts (write_entry (fst opened)) ;;
  when (match fst opened with Stdout => false | _ => true end) (close (fst opened)) ;;
  when (truthy (PLUGIN_DENY P)) (emit (EPlugin (PLUGIN_DENY P) new_hosts)) ;;
  ret (Some new_hosts, Some (snd opened)).

(** [update_hosts_deny(deny_hosts)]; the result is the pair
    [(new_hosts, status)], or [(None, None)]. *)
Definition update_hosts_deny (deny_hosts : list host)
    : M (option (list host) * option Z) :=
  if negb (is_nonempty deny_hosts) then ret (None, None) else
  iptables_stage deny_hosts ;;
  s <- get ;;
  let new_hosts := List.filter (is_new_host s) deny_hosts in
  if negb (is_nonempty new_hosts) then ret (None, None) else
  pf_stage new_hosts ;;
  append_stage new_hosts.

(** [is_valid(rx_match)] *)
Definition is_valid (rx_m : rx_match) : Z :=
  match group rx_m "invalid" with
  | Ok v => if truthy_group v then 1 else 0
  | Raise _ => 1
  end.

(** The variables [success], [invalid] and [m] of the loop over the lines. *)
Record line_vars := {
  l_success : Z;
  l_invalid : Z;
  l_m : option rx_match
}.

(** [for i in FAILED_ENTRY_REGEX_RANGE: ... break]: the match on which the
    loop breaks, or [None] when it runs to its [else] clause. *)
Fixpoint scan_failed (range : list Z) (message : string) : option rx_match :=
  match range with
  | [] => None
  | i :: rest =>
      match failed_entry_regex_map P !! i with
      | None => scan_failed rest message                 (* continue *)
      | Some rx =>
          match re_search rx message with
          | Some mm => Some mm                            (* break *)
          | None => scan_failed rest message
          end
      end
  end.

(** [if sshd_m: ...] *)
Definition envelope_stage (line : string) : outcome line_vars :=
  match re_match (sshd_format_regex P) line with
  | None => Ok {| l_success := 0; l_invalid := 0; l_m := None |}
  | Some sshd_m =>
      match group sshd_m "message" with
      | Raise e => Raise e
      | Ok None => Raise (TypeError "expected string or bytes-like object")
      | Ok (Some message) =>
          match scan_failed (FAILED_ENTRY_REGEX_RANGE K) message with
          | Some mm =>
              Ok {| l_success := 0; l_invalid := is_valid mm; l_m := Some mm |}
          | None =>
              match re_match (successful_entry_regex P) message with
              | Some mm => Ok {| l_success := 1; l_invalid := 0; l_m := Some mm |}
              | None => Ok {| l_success := 0; l_invalid := 0; l_m := None |}
              end
          end
      end
  end.

(** [if is_true(self.__prefs.get("DETECT_DOVECOT_LOGIN_ATTEMPTS")): ...] *)
Definition dovecot_stage (line : string) (v : line_vars) : line_vars :=
  if DETECT_DOVECOT_LOGIN_ATTEMPTS P then
    match re_search (failed_dovecot_entry_regex P) line with
    | Some mm =>
        {| l_success := l_success v; l_invalid := is_valid mm; l_m := Some mm |}
    | None =>
        {| l_success := l_success v; l_invalid := l_invalid v; l_m := None |}
    end
  else v.

(** [for rx in USERDEF_FAILED_ENTRY_REGEX: ... break]: the first match. *)
Fixpoint scan_userdef (rxs : list regex) (line : string) : option rx_match :=
  match rxs with
  | [] => None
  | rx :: rest =>
      match re_search rx line with
      | Some mm => Some mm
      | None => scan_userdef rest line
      end
  end.

(** [if not m: for rx in USERDEF_FAILED_ENTRY_REGEX: ...] *)
Definition userdef_stage (line : string) (v : line_vars) : line_vars :=
  match l_m v with
  | Some _ => v
  | None =>
      match scan_userdef (USERDEF_FAILED_ENTRY_REGEX P) line with
      | Some mm =>
          {| l_success := l_success v; l_invalid := is_valid mm; l_m := Some mm |}
      | None => v
      end
  end.

(** The three steps in the order of the source; it raises when
    [sshd_m.group('message')] or the search in the message does. *)
Definition classify (line : string) : outcome line_vars :=
  match envelope_stage line with
  | Ok v => Ok (userdef_stage line (dovecot_stage line v))
  | Raise e => Raise e
  end.

(** What becomes of a classified line. *)
Inductive verdict :=
| NotImportant                              (* if not m: continue *)
| MissingHost                               (* no 'host' group: continue *)
| InvalidHost (host : option string)        (* not an address: continue *)
| Attempt (user host : option string) (success invalid : Z).

(** From [if not m: continue] to the call of [login_attempt.add]. *)
Definition extract (v : line_vars) : verdict :=
  match l_m v with
  | None => NotImportant
  | Some mm =>
      let user := match group mm "user" with
                  | Ok u => u
                  | Raise _ => Some ""
                  end in
      match group mm "host" with
      | Raise _ => MissingHost
      | Ok host =>
          if is_valid_ip_address K host
          then Attempt user host (l_success v) (l_invalid v)
          else InvalidHost host
      end
  end.

(** The body of [for line in fp: ...].  The text of the pattern is left
    out of the error message. *)
Definition process_line (line : string) : M unit :=
  v <- lift (classify line) ;;
  match extract v with
  | NotImportant => ret tt
  | MissingHost => emit (ELog LvError "regex pattern is missing 'host' group")
  | InvalidHost host =>
      emit (ELog LvWarning
              ("got invalid host (" +:+ default "None" host +:+ "), ignoring"))
  | Attempt user host success invalid => emit (ELoginAdd user host success invalid)
  end.

(** [sync_add_hosts(hosts)] *)
Definition sync_add_hosts (hosts : list host) : M unit :=
  try_except
    (let filename := path_join (WORK_DIR P) (SYNC_HOSTS K) in
     open_file SyncHostsFile filename "a" ;;
     for_each hosts (fun host => write SyncHostsFile (host +:+ nl)) ;;
     close SyncHostsFile ;;
     emit (EChmod filename))
    (fun e => emit (ELogExn e)).

(** The blocks of [process_log], in the order of the source. *)

(** [try: fp = gzip.open(...) ... except: ...; return -1] *)
Definition open_log (logfile : string) : M bool :=
  try_except
    ((if endswith logfile ".gz" then open_file LogFile logfile "gzip"
      else if endswith logfile ".bz2" then
        if HAS_BZ2 K then open_file LogFile logfile "bz2"
        else raise (Exception "Can not open bzip2 file (missing bz2 module)")
      else open_file LogFile logfile "r") ;;
     ret true)
    (fun e =>
       print ("Could not open log file: " +:+ logfile) ;;
       print_exn e ;;
       ret false).

(** From [fp.seek(offset)] to [login_attempt.save_all_stats()] *)
Definition read_log (offset : Z) : M Z :=
  emit (ESeek offset) ;;
  emit ELoginAttemptNew ;;
  lines <- ask (env_read_lines E) EReadLines ;;
  for_each lines process_line ;;
  offset <- ask (env_tell E) ETell ;;
  close LogFile ;;
  emit ESaveAllStats ;;
  ret offset.

(** [if new_denied_hosts: ...] *)
Definition report_denied (r : option (list host) * option Z) : M unit :=
  let denied := default [] (fst r) in
  when (is_nonempty denied)
    (let msg :=
       if negb (truthyZ (snd r))
       then "WARNING: Could not add the following hosts to " +:+ HOSTS_DENY P
       else "Added the following hosts to " +:+ HOSTS_DENY P in
     emit (EReportSection msg denied) ;;
     when (truthy (SYNC_SERVER P)) (sync_add_hosts denied) ;;
     when (truthy (PLUGIN_DENY P)) (emit (EPlugin (PLUGIN_DENY P) denied))).

(** From [login_attempt.get_new_suspicious_logins()] to the end *)
Definition flush_report : M unit :=
  new_suspicious_logins <- ask (env_new_suspicious_logins E) ENewSuspiciousLogins ;;
  when (is_nonempty new_suspicious_logins)
    (emit (EReportSection "Observed the following suspicious login activity"
             new_suspicious_logins)) ;;
  empty <- ask (env_report_empty E) EReportEmpty ;;
  when (negb empty)
    ((if negb (noemail P) then emit ESendEmail
      else when (negb (daemon P)) (emit EInfoReport)) ;;
     emit EReportClear).

(** [process_log(logfile, offset)] *)
Definition process_log (logfile : string) (offset : Z) : M Z :=
  opened <- open_log logfile ;;
  if negb opened then ret (-1) else
  offset <- read_log offset ;;
  deny_hosts <- ask (env_get_deny_hosts E) EGetDenyHosts ;;
  r <- update_hosts_deny deny_hosts ;;
  report_denied r ;;
  flush_report ;;
  ret offset.

(** One line of the deny file, in [get_denied_hosts]. *)
Definition denied_line (line : string) : M unit :=
  match line with
  | EmptyString => raise (IndexError "string index out of range")   (* line[0] *)
  | String c _ =>
      if Ascii.eqb c "#" || Ascii.eqb c "010" then ret tt else
      let idx := find_hash line in
      let line := if negb (idx =? 1) then slice_to line idx else line in
      match parse_host K line with
      | Some host =>
          s <- get ;;
          modify (set_denied_hosts ({[ host ]} ∪ denied_hosts s)) ;;
          when (allowed_hosts P host) (emit (EAddWarnedHost host))
      | None => ret tt                                               (* pass *)
      end
  end.

(** [get_denied_hosts()] *)
Definition get_denied_hosts : M unit :=
  modify (set_denied_hosts ∅) ;;
  r <- ask (env_read_hosts_deny E) EReadHostsDeny ;;
  lines <- lift r ;;
  for_each lines denied_line ;;
  new_warned_hosts <- ask (env_new_warned_hosts E) ENewWarnedHosts ;;
  when (is_nonempty new_warned_hosts)
    (emit ESaveWarnedHosts ;;
     let text :=
       "WARNING: The following hosts appear in " +:+ HOSTS_DENY P
       +:+ " but should be" +:+ nl +:+ "allowed based on your "
       +:+ path_join (WORK_DIR P) (ALLOWED_HOSTS K) +:+ " file" in
     emit (EReportSection text new_warned_hosts) ;;
     emit EClearWarnedHosts).

(** The exchange with the sync server, in [sleepAndPurge]: the body of
    the [try] block. *)
Definition sync_transfers : M unit :=
  emit ESyncNew ;;
  when (SYNC_UPLOAD P)
    (r <- ask (env_sync_send E) ESyncSend ;;
     lift r ;;
     ret tt) ;;
  when (SYNC_DOWNLOAD P)
    (r <- ask (env_sync_receive E) ESyncReceive ;;
     new_hosts <- lift r ;;
     when (is_nonempty new_hosts)
       (get_denied_hosts ;;
        update_hosts_deny new_hosts ;;
        ret tt)) ;;
  emit ESyncDisconnect.

(** [try: ... except Exception as e: logging.getLogger().exception(e); raise] *)
Definition sync_exchange : M unit :=
  try_except sync_transfers
    (fun e =>
       emit (ELogException e) ;;
       raise e).

(** [sleepAndPurge(sleep_time, purge_time, purge_sleep_ratio, sync_sleep_ratio)] *)
Definition sleepAndPurge (sleep_time : Z) (purge_time : option Z)
    (purge_sleep_ratio sync_sleep_ratio : option Q) : M unit :=
  emit (ESleep sleep_time) ;;
  when (truthyZ purge_time)
    (s <- get ;;
     modify (set_purge_counter (purge_counter s + 1)) ;;
     s <- get ;;
     when (counter_eq (purge_counter s) purge_sleep_ratio)
       (try_except
          (r <- ask (env_purge E) (EPurge purge_time) ;;
           lift r)
          (fun e =>
             emit (ELogException e) ;;
             raise e) ;;
        modify (set_purge_counter 0))) ;;
  when (truthy_ratio sync_sleep_ratio)
    (s <- get ;;
     modify (set_sync_counter (sync_counter s + 1)) ;;
     s <- get ;;
     when (counter_eq (sync_counter s) sync_sleep_ratio)
       (sync_exchange ;;
        modify (set_sync_counter 0))).

(** The variables [inode] and [last_offset] of [daemonLoop]. *)
Record loop_vars := {
  inode : Z;
  last_offset : option Z
}.

(** [if curr_inode != inode: ...], in [daemonLoop] *)
Definition reopen_if_rotated (logfile : string) (curr_inode : Z) (v : loop_vars)
    : M loop_vars :=
  if negb (curr_inode =? inode v) then
    close LogFile ;;
    open_file LogFile logfile "r" ;;
    ret {| inode := curr_inode; last_offset := Some sys_maxsize |}
  else ret v.

(** From [if last_offset is None: ...] to the end of the loop body, the
    size of the log being [offset]. *)
Definition follow (logfile : string) (daemon_sleep : Z)
    (purge_time : option Z) (purge_sleep_ratio sync_sleep_ratio : option Q)
    (v : loop_vars) (offset : Z) : M loop_vars :=
  let last := default offset (last_offset v) in
  if offset >? last then
    get_denied_hosts ;;
    last <- process_log logfile last ;;
    emit (ESaveOffset last) ;;
    sleepAndPurge daemon_sleep purge_time purge_sleep_ratio sync_sleep_ratio ;;
    ret {| inode := inode v; last_offset := Some last |}
  else if offset =? 0 then
    sleepAndPurge daemon_sleep purge_time purge_sleep_ratio sync_sleep_ratio ;;
    ret {| inode := inode v; last_offset := Some last |}
  else if offset <? last then
    emit EUpdateFirstLine ;;
    ret {| inode := inode v; last_offset := Some 0 |}           (* continue *)
  else
    sleepAndPurge daemon_sleep purge_time purge_sleep_ratio sync_sleep_ratio ;;
    ret {| inode := inode v; last_offset := Some last |}.

(** One turn of the [while 1] loop of [daemonLoop]. *)
Definition daemon_iteration (logfile : string) (daemon_sleep : Z)
    (purge_time : option Z) (purge_sleep_ratio sync_sleep_ratio : option Q)
    (v : loop_vars) : M loop_vars :=
  curr <- ask (fun h => env_stat E h logfile) (EStat logfile) ;;
  match curr with
  | None =>
      (* the log has been deleted *)
      sleepAndPurge daemon_sleep purge_time purge_sleep_ratio None ;;
      ret v                                                     (* continue *)
  | Some curr_inode =>
      v <- reopen_if_rotated logfile curr_inode v ;;
      offset <- ask (env_fstat_size E) EFstatSize ;;
      follow logfile daemon_sleep purge_time purge_sleep_ratio sync_sleep_ratio
        v offset
  end.

(** The first [n] turns of the loop. *)
Fixpoint daemon_turns (n : nat) (logfile : string) (daemon_sleep : Z)
    (purge_time : option Z) (purge_sleep_ratio sync_sleep_ratio : option Q)
    (v : loop_vars) : M loop_vars :=
  match n with
  | O => ret v
  | S n' =>
      v <- daemon_iteration logfile daemon_sleep purge_time
             purge_sleep_ratio sync_sleep_ratio v ;;
      daemon_turns n' logfile daemon_sleep purge_time
        purge_sleep_ratio sync_sleep_ratio v
  end.

(** [daemonLoop(...)], cut after [n] turns of its loop, which has no exit. *)
Definition daemonLoop (n : nat) (logfile : string) (last_offset : option Z)
    (daemon_sleep : Z) (purge_time : option Z)
    (purge_sleep_ratio sync_sleep_ratio : option Q) : M loop_vars :=
  open_file LogFile logfile "r" ;;
  inode <- ask (env_fstat_inode E) EFstatInode ;;
  daemon_turns n logfile daemon_sleep purge_time purge_sleep_ratio sync_sleep_ratio
    {| inode := inode; last_offset := last_offset |}.

(** The ratios that [runDaemon] hands to [daemonLoop]. *)
Definition purge_ratio : M (option Q) :=
  if truthyZ (PURGE_DENY P) then
    let daemon_purge := Z.max (DAEMON_SLEEP P) (DAEMON_PURGE P) in
    purge_sleep_ratio <- lift (truediv daemon_purge (DAEMON_SLEEP P)) ;;
    modify (set_purge_counter 0) ;;
    ret (Some purge_sleep_ratio)
  else ret None.

(** The same for the sync server. *)
Definition sync_ratio : M (option Q) :=
  if truthyZ (SYNC_INTERVAL P) && truthy (SYNC_SERVER P) then
    let sync_time := default 0 (SYNC_INTERVAL P) in
    let sync_time :=
      if sync_time <? SYNC_MIN_INTERVAL K then SYNC_MIN_INTERVAL K else sync_time in
    let sync_time := Z.max (DAEMON_SLEEP P) sync_time in
    sync_sleep_ratio <- lift (truediv sync_time (DAEMON_SLEEP P)) ;;
    modify (set_sync_counter 0) ;;
    ret (Some sync_sleep_ratio)
  else ret None.

(** [runDaemon(logfile, last_offset)], its loop cut after [n] turns. *)
Definition runDaemon (n : nat) (logfile : string) (last_offset : option Z)
    : M loop_vars :=
  emit ESignals ;;
  emit ELockCreate ;;
  purge_sleep_ratio <- purge_ratio ;;
  sync_sleep_ratio <- sync_ratio ;;
  daemonLoop n logfile last_offset (DAEMON_SLEEP P) (PURGE_DENY P)
    purge_sleep_ratio sync_sleep_ratio.

End Program.

(** ** Observations on a trace *)

(** Actions on the firewall: sub-processes, entries into [firewall_block],
    the PF table file. *)
Definition is_firewall_event (e : event) : bool :=
  match e with
  | ESubprocess _ _ _ _ | EFirewallBlock _ => true
  | EOpen PfTableFile _ _ _ | EWrite PfTableFile _ | EClose PfTableFile => true
  | _ => false
  end.

(** Actions on the access-control file. *)
Definition is_deny_file_event (e : event) : bool :=
  match e with
  | EOpen HostsDenyFile _ _ _ | EWrite HostsDenyFile _ | EClose HostsDenyFile => true
  | _ => false
  end.

Definition fileobj_eqb (f g : fileobj) : bool :=
  match f, g with
  | HostsDenyFile, HostsDenyFile | PfTableFile, PfTableFile
  | SyncHostsFile, SyncHostsFile | LogFile, LogFile | Stdout, Stdout => true
  | _, _ => false
  end.

(** The texts written to [f], in order. *)
Fixpoint written (f : fileobj) (tr : list event) : list string :=
  match tr with
  | [] => []
  | EWrite g text :: rest =>
      if fileobj_eqb f g then text :: written f rest else written f rest
  | _ :: rest => written f rest
  end.

(** The calls of [plugin.execute], in order. *)
Fixpoint plugin_calls (tr : list event) : list (string * list host) :=
  match tr with
  | [] => []
  | EPlugin cmd hosts :: rest => (cmd, hosts) :: plugin_calls rest
  | _ :: rest => plugin_calls rest
  end.

(** What the firewall routines can do to the world. *)
Definition is_firewall_routine_event (e : event) : bool :=
  match e with
  | ESubprocess _ _ _ _ | EFirewallBlock _ => true
  | ELog _ _ | ELogExn _ | EPrint _ | EPrintExn _ => true
  | EOpen PfTableFile _ _ _ | EWrite PfTableFile _ | EClose PfTableFile => true
  | _ => false
  end.

(** What [open_hosts_deny] does to the world when the open succeeds
    ([ok = true]) and when it fails. *)
Definition open_hosts_deny_events (P : prefs) (ok : bool) : list event :=
  if ok then [EOpen HostsDenyFile (HOSTS_DENY P) "a" true]
  else [EOpen HostsDenyFile (HOSTS_DENY P) "a" false;
        EPrintExn (OSError (HOSTS_DENY P));
        EPrint ("These hosts should be manually added to: %s " +:+ HOSTS_DENY P)].

(** [firewall_block] is not entered with [H]. *)
Definition spares (H : host) (e : event) : Prop :=
  match e with
  | EFirewallBlock hosts => ~ In H hosts
  | _ => True
  end.

(** Neither a call of the plugin nor the reading of the deny candidates. *)
Definition undecided (e : event) : Prop :=
  match e with
  | EPlugin _ _ | EGetDenyHosts _ => False
  | _ => True
  end.


(** An action on the sync server. *)
Definition is_sync_event (e : event) : bool :=
  match e with
  | ESyncNew | ESyncSend _ | ESyncReceive _ | ESyncDisconnect => true
  | _ => false
  end.

(** What [sleepAndPurge] does on its own account: sleeping, purging and
    the exchange with the sync server. *)
Definition is_tick_event (e : event) : bool :=
  match e with
  | ESleep _ | EPurge _ _ => true
  | ESyncNew | ESyncSend _ | ESyncReceive _ | ESyncDisconnect => true
  | _ => false
  end.

(** A transfer with the sync server that raised. *)
Definition is_sync_failure (e : event) : bool :=
  match e with
  | ESyncSend (Raise _) | ESyncReceive (Raise _) => true
  | _ => false
  end.

(** In the trace, [send_new_hosts] or [receive_new_hosts] raised [e]. *)
Definition sync_failed (e : exn) (tr : list event) : Prop :=
  In (ESyncSend (Raise e)) tr \/ In (ESyncReceive (Raise e)) tr.

(** A computation in which a transfer with the sync server raises [e]
    raises [e] itself. *)
Definition propagates {A} (m : M A) : Prop :=
  forall s h e, sync_failed e (out (m s h)) -> res (m s h) = Raise e.

(** The same, and the exception has been logged, and [G] holds of the
    object that is left. *)
Definition blames (G : DenyHosts -> Prop) {A} (m : M A) : Prop :=
  forall s h e, sync_failed e (out (m s h)) ->
    res (m s h) = Raise e /\
    In (ELogException e) (out (m s h)) /\
    G (st (m s h)).

(** The counter is left equal to the ratio: it is not reset. *)
Definition counter_left_at (sync_sleep_ratio : option Q) (s : DenyHosts) : Prop :=
  counter_eq (sync_counter s) sync_sleep_ratio = true.

(** The sync interval that [runDaemon] divides by [DAEMON_SLEEP]. *)
Definition clamped_sync_interval (K : constants) (P : prefs) : Z :=
  let sync_time := default 0 (SYNC_INTERVAL P) in
  Z.max (DAEMON_SLEEP P)
    (if sync_time <? SYNC_MIN_INTERVAL K then SYNC_MIN_INTERVAL K else sync_time).

(** A trace in two phases: [Q1] holds of the events of the first, [Q2] of
    the events of the second. *)
Definition phased (Q1 Q2 : event -> Prop) (tr : list event) : Prop :=
  exists o1 o2, tr = o1 ++ o2 /\ Forall Q1 o1 /\ Forall Q2 o2.

(** No action on the access-control file in the first phase, no firewall
    action in the second. *)
Definition firewall_then_deny (tr : list event) : Prop :=
  phased (fun e => is_deny_file_event e = false)
         (fun e => is_firewall_event e = false) tr.

(** The opposite order, host by host: whenever [firewall_block] is entered
    with some hosts, the entry of each of them has already been written to
    the access-control file.  [seen] holds the texts written so far. *)
Fixpoint deny_file_first (K : constants) (P : prefs) (seen : list string)
    (tr : list event) : bool :=
  match tr with
  | [] => true
  | EWrite HostsDenyFile text :: rest => deny_file_first K P (text :: seen) rest
  | EFirewallBlock hosts :: rest =>
      forallb (fun h => existsb (String.eqb (deny_output K P h +:+ nl)) seen) hosts
      && deny_file_first K P seen rest
  | _ :: rest => deny_file_first K P seen rest
  end.

(** The texts that the entries of [hosts] consist of: for each host its
    line, preceded by a time-stamp comment when purging is configured. *)
Inductive entry_texts (K : constants) (P : prefs) : list host -> list string -> Prop :=
| entry_texts_nil : entry_texts K P [] []
| entry_texts_plain host hosts texts :
    write_timestamp P = false ->
    entry_texts K P hosts texts ->
    entry_texts K P (host :: hosts) ((deny_output K P host +:+ nl) :: texts)
| entry_texts_stamped t host hosts texts :
    write_timestamp P = true ->
    entry_texts K P hosts texts ->
    entry_texts K P (host :: hosts)
      (stamp_line K t (deny_output K P host)
         :: (deny_output K P host +:+ nl) :: texts).

(** ** Judgements on computations *)

(** Every interaction that [m] performs satisfies [Q]. *)
Definition emits {A} (Q : event -> Prop) (m : M A) : Prop :=
  forall s h, Forall Q (out (m s h)).

(** [m] leaves the attribute [f] as it found it. *)
Definition keeps {A X} (f : DenyHosts -> X) (m : M A) : Prop :=
  forall s h, f (st (m s h)) = f s.

(** [m] raises nothing. *)
Definition total {A} (m : M A) : Prop :=
  forall s h, exists a, res (m s h) = Ok a.

(** Whatever [m] returns satisfies [R]. *)
Definition returns {A} (R : A -> Prop) (m : M A) : Prop :=
  forall s h a, res (m s h) = Ok a -> R a.

(** ** Concrete configurations

    Small worlds and preferences on which the definitions are run. *)

Module Scenario.

(** A pattern that matches the strings starting with [prefix] and captures
    what follows in the group [name]. *)
Definition prefix_rx (prefix name : string) : regex :=
  let f := fun s : string =>
    if String.prefix prefix s
    then Some [(name, Some (substring (String.length prefix)
                              (String.length s - String.length prefix) s))]
    else None in
  {| re_match := f; re_search := f |}.

Definition K0 : constants :=
  {| BSD_STYLE := "";
     DENY_DELIMITER := "# DenyHosts:";
     ENTRY_DELIMITER := " | ";
     SYNC_MIN_INTERVAL := 300;
     SYNC_HOSTS := "sync-hosts";
     ALLOWED_HOSTS := "allowed-hosts";
     FAILED_ENTRY_REGEX_RANGE := [1; 2];
     HAS_BZ2 := true;
     is_valid_ip_address := fun h => match h with Some _ => true | None => false end;
     parse_host := fun line => Some line;
     global_new_hosts := None |}.

(** Preferences that differ in the keys the scenarios vary. *)
Definition make_prefs (iptables pfctl pf_table pf_table_file plugin_deny
    sync_server : string) (purge_deny sync_interval : option Z)
    (daemon_sleep daemon_purge : Z) (sync_upload dovecot : bool) : prefs :=
  {| HOSTS_DENY := "/etc/hosts.deny";
     WORK_DIR := "/var/lib/denyhosts";
     BLOCK_SERVICE := "sshd";
     PURGE_DENY := purge_deny;
     DAEMON_SLEEP := daemon_sleep;
     DAEMON_PURGE := daemon_purge;
     SYNC_INTERVAL := sync_interval;
     SYNC_SERVER := sync_server;
     SYNC_UPLOAD := sync_upload;
     SYNC_DOWNLOAD := false;
     IPTABLES := iptables;
     IPSET_COMMAND := "";
     IPSET_NAME := "";
     BLOCKPORT := "";
     PFCTL_PATH := pfctl;
     PF_TABLE := pf_table;
     PF_TABLE_FILE := pf_table_file;
     PLUGIN_DENY := plugin_deny;
     DETECT_DOVECOT_LOGIN_ATTEMPTS := dovecot;
     USERDEF_FAILED_ENTRY_REGEX := [];
     sshd_format_regex := prefix_rx "sshd: " "message";
     successful_entry_regex := prefix_rx "Accepted password from " "host";
     failed_entry_regex_map :=
       {[ 1 := prefix_rx "Failed password from " "host" ]};
     failed_dovecot_entry_regex := prefix_rx "dovecot: auth failed, rip=" "host";
     allowed_hosts := fun h => String.eqb h "192.0.2.1";
     noemail := true;
     daemon := true |}.

(** No firewall, no purge, no sync, no plugin. *)
Definition P0 : prefs :=
  make_prefs "" "" "" "" "" "" None None 30 3600 false false.

(** iptables without ipset. *)
Definition P_iptables : prefs :=
  make_prefs "/sbin/iptables" "" "" "" "" "" None None 30 3600 false false.

(** PF with a table file. *)
Definition P_pf : prefs :=
  make_prefs "" "/sbin/pfctl" "denyhosts" "/etc/pf.denyhosts" "" ""
    None None 30 3600 false false.

(** Dovecot detection switched on. *)
Definition P_dovecot : prefs :=
  make_prefs "" "" "" "" "" "" None None 30 3600 false true.

(** A plugin and time stamps. *)
Definition P_plugin : prefs :=
  make_prefs "" "" "" "" "/usr/local/bin/on-deny" "" (Some 604800) None
    30 3600 false false.

(** Purging every 90 seconds, sleeping 60. *)
Definition P_purge : prefs :=
  make_prefs "" "" "" "" "" "" (Some 604800) None 60 90 false false.

(** Purging every 120 seconds, sleeping 60. *)
Definition P_purge_even : prefs :=
  make_prefs "" "" "" "" "" "" (Some 604800) None 60 120 false false.

(** Synchronisation every 600 seconds, sleeping 600. *)
Definition P_sync : prefs :=
  make_prefs "" "" "" "" "" "sync.example.org" None (Some 600) 600 3600
    true false.

(** Worlds that differ in what the scenarios vary: which files open, what
    [send_new_hosts] answers, the size of the log, and the candidates that
    the attempt store hands over.  Every command returns [0] except the
    checks ([-C], [test]), which return [1]; there is nothing to read. *)
Definition make_env (open_ok : fileobj -> bool) (sync_send : outcome Z)
    (size : Z) (candidates : list host) : Env :=
  {| env_subprocess := fun _ args =>
       if existsb (fun a => String.eqb a "-C" || String.eqb a "test") args
       then Some 1 else Some 0;
     env_open := fun _ f _ _ => open_ok f;
     env_asctime := fun _ => "Thu Jan  1 00:00:00 1970";
     env_purge := fun _ => Ok tt;
     env_sync_send := fun _ => sync_send;
     env_sync_receive := fun _ => Ok [];
     env_stat := fun _ _ => Some 7;
     env_fstat_inode := fun _ => 7;
     env_fstat_size := fun _ => size;
     env_read_lines := fun _ => [];
     env_tell := fun _ => size;
     env_read_hosts_deny := fun _ => Ok [];
     env_new_warned_hosts := fun _ => [];
     env_get_deny_hosts := fun _ => candidates;
     env_new_suspicious_logins := fun _ => [];
     env_report_empty := fun _ => true |}.

(** A quiet world with an empty log. *)
Definition E0 : Env := make_env (fun _ => true) (Ok 0) 0 [].

(** The access-control file cannot be opened. *)
Definition E_readonly : Env :=
  make_env (fun f => match f with HostsDenyFile => false | _ => true end) (Ok 0) 0 [].

(** The sync server cannot be reached. *)
Definition E_sync_down : Env :=
  make_env (fun _ => true) (Raise (CollaboratorError "sync")) 0 [].

(** The attempt store hands over two candidates. *)
Definition E_candidates : Env :=
  make_env (fun _ => true) (Ok 0) 0 ["192.0.2.10"; "192.0.2.1"].

(** The log holds 100 bytes. *)
Definition E_small_log : Env := make_env (fun _ => true) (Ok 0) 100 [].

Definition s0 : DenyHosts :=
  {| denied_hosts := ∅; fw_initialized := false; fw_blocked_hosts := ∅;
     purge_counter := 0; sync_counter := 0 |}.

End Scenario.

(** ** More of the program, and more observations

    [toggleDebug], [get_regex] and [init_regex], which the scheduler and the
    classifier rely on, and what is observed of the runs of the methods
    above. *)

(** *** The signal handler [toggleDebug] *)

(** [logging.DEBUG] and [logging.INFO] *)
Definition logging_DEBUG : Z := 10.
Definition logging_INFO : Z := 20.

(** [toggleDebug(signum, frame)], as a function of the effective level of
    the root logger: the level that it sets. *)
Definition toggleDebug (level : Z) : Z :=
  if level =? logging_INFO then logging_DEBUG else logging_INFO.

(** *** The patterns: [get_regex] and [init_regex] *)

(** What the module [regex] defines. *)
Record regex_module := {
  SSHD_FORMAT_REGEX : regex;
  SUCCESSFUL_ENTRY_REGEX : regex;
  FAILED_ENTRY_REGEX_MAP : gmap Z regex;
  FAILED_DOVECOT_ENTRY_REGEX : regex
}.

(** The attributes that [init_regex] sets. *)
Record regexes := {
  r_sshd_format_regex : regex;
  r_successful_entry_regex : regex;
  r_failed_entry_regex_map : gmap Z regex;
  r_failed_dovecot_entry_regex : regex
}.

(** What [init_regex] can raise: [KeyError] from [FAILED_ENTRY_REGEX_MAP[i]],
    [re.error] from [re.compile(val)]. *)
Inductive regex_error :=
| KeyError (key : Z)
| ReError (pattern : string).

Section Regexes.

Variable K : constants.
Variable R : regex_module.
(** [self.__prefs.get(name)] *)
Variable prefs_get : string -> option string.
(** [re.compile(val)]; [None] when the pattern is not a regular expression *)
Variable re_compile : string -> option regex.

(** [get_regex(name, default)] *)
Definition get_regex (name : string) (default : regex) : regex_error + regex :=
  match prefs_get name with
  | None => inr default
  | Some val =>
      if negb (truthy val) then inr default
      else match re_compile val with
           | Some rx => inr rx
           | None => inl (ReError val)
           end
  end.

(** ['FAILED_ENTRY_REGEX%s' % extra] *)
Definition failed_entry_regex_name (i : Z) : string :=
  let extra := if i =? 1 then "" else pretty i in
  "FAILED_ENTRY_REGEX" +:+ extra.

(** [for i in FAILED_ENTRY_REGEX_RANGE: ...], from the map [acc]. *)
Fixpoint init_failed_entry_regex_map (range : list Z) (acc : gmap Z regex)
    : regex_error + gmap Z regex :=
  match range with
  | [] => inr acc
  | i :: rest =>
      let name := failed_entry_regex_name i in
      match FAILED_ENTRY_REGEX_MAP R !! i with
      | None => inl (KeyError i)
      | Some default =>
          match get_regex name default with
          | inl e => inl e
          | inr rx => init_failed_entry_regex_map rest (<[ i := rx ]> acc)
          end
      end
  end.

(** [init_regex()] *)
Definition init_regex : regex_error + regexes :=
  match get_regex "SSHD_FORMAT_REGEX" (SSHD_FORMAT_REGEX R) with
  | inl e => inl e
  | inr sshd_format =>
  match get_regex "SUCCESSFUL_ENTRY_REGEX" (SUCCESSFUL_ENTRY_REGEX R) with
  | inl e => inl e
  | inr successful_entry =>
  match init_failed_entry_regex_map (FAILED_ENTRY_REGEX_RANGE K) ∅ with
  | inl e => inl e
  | inr failed_entry_map =>
  match get_regex "FAILED_DOVECOT_ENTRY_REGEX" (FAILED_DOVECOT_ENTRY_REGEX R) with
  | inl e => inl e
  | inr failed_dovecot_entry =>
      inr {| r_sshd_format_regex := sshd_format;
             r_successful_entry_regex := successful_entry;
             r_failed_entry_regex_map := failed_entry_map;
             r_failed_dovecot_entry_regex := failed_dovecot_entry |}
  end end end end.

End Regexes.

(** *** What the firewall is asked *)

(** The sub-process calls of a trace, with what they returned. *)
Fixpoint subprocess_calls (tr : list event) : list (list string * option Z) :=
  match tr with
  | [] => []
  | ESubprocess args _ _ ret :: rest => (args, ret) :: subprocess_calls rest
  | _ :: rest => subprocess_calls rest
  end.

(** [args], in the branch of [firewall_block] for iptables without ipset. *)
Definition insert_rule (P : prefs) (host : host) : list string :=
  if truthy (BLOCKPORT P)
  then [IPTABLES P; "-I"; "INPUT"; "-p"; "tcp"; "--dport"; BLOCKPORT P;
        "-s"; host; "-j"; "DROP"]
  else [IPTABLES P; "-I"; "INPUT"; "-s"; host; "-j"; "DROP"].

(** [m] takes the object from [s] to an object related to [s] by [R]. *)
Definition steps {A} (R : DenyHosts -> DenyHosts -> Prop) (m : M A) : Prop :=
  forall s h, R s (st (m s h)).

(** The set of blocked hosts has grown, and only by hosts of [candidates]
    that are not on the allow-list. *)
Definition blocked_grows (P : prefs) (candidates : list host) (s s' : DenyHosts) : Prop :=
  fw_blocked_hosts s ⊆ fw_blocked_hosts s' /\
  forall x, x ∈ fw_blocked_hosts s' ->
    x ∈ fw_blocked_hosts s \/ (In x candidates /\ allowed_hosts P x = false).

(** *** What the deny file holds *)

(** The text that [get_denied_hosts] hands to [parse_host] for a line:
    the line up to its first [#], unless that [#] is at index 1. *)
Definition parsed_text (line : string) : string :=
  let idx := find_hash line in
  if negb (idx =? 1) then slice_to line idx else line.

(** The host that a line of the deny file stands for, if any: comment
    lines and empty lines stand for none, nor do the lines that
    [parse_host] rejects. *)
Definition denied_line_host (K : constants) (line : string) : option host :=
  match line with
  | EmptyString => None
  | String c _ =>
      if Ascii.eqb c "#" || Ascii.eqb c "010" then None
      else parse_host K (parsed_text line)
  end.

(** The hosts that the lines of a deny file stand for. *)
Definition deny_file_hosts (K : constants) (lines : list string) : gset host :=
  list_to_set (omap (denied_line_host K) lines).

(** The hosts of a deny file that are on the allow-list, in the order of
    the file. *)
Definition warned_hosts (K : constants) (P : prefs) (lines : list string)
    : list host :=
  List.filter (allowed_hosts P) (omap (denied_line_host K) lines).

(** Not a call of [add_warned_host]. *)
Definition is_not_warning (e : event) : Prop :=
  match e with
  | EAddWarnedHost _ => False
  | _ => True
  end.

(** *** What is recorded of the log *)

(** A recorded login attempt is from a valid address, and its two flags
    are 0 or 1. *)
Definition sound_attempt (K : constants) (e : event) : Prop :=
  match e with
  | ELoginAdd _ host success invalid =>
      is_valid_ip_address K host = true /\
      (success = 0 \/ success = 1) /\ (invalid = 0 \/ invalid = 1)
  | _ => True
  end.

(** What a failed attempt to open the log leaves in the trace. *)
Definition is_open_failure (logfile : string) (e : event) : Prop :=
  match e with
  | EOpen LogFile path _ false => path = logfile
  | EPrint _ | EPrintExn _ => True
  | _ => False
  end.

(** What [process_log] does to the log and to what is kept of it. *)
Definition reads_log (e : event) : bool :=
  match e with
  | EOpen LogFile _ _ _ | ESeek _ | EReadLines _ | ETell _ => true
  | ELoginAttemptNew | ELoginAdd _ _ _ _ | ESaveAllStats | ESaveOffset _ => true
  | _ => false
  end.

(** *** Concrete configurations for the properties below *)

Module Cases.

Import Scenario.

(** Worlds that differ from the quiet world [E0] in the answers of the
    firewall commands, in which files open, in what the deny file holds
    and in whether the log file exists. *)
Definition world (subprocess : list event -> list string -> option Z)
    (open_ok : fileobj -> bool) (hosts_deny : outcome (list string))
    (stat : option Z) (size : Z) : Env :=
  {| env_subprocess := subprocess;
     env_open := fun _ f _ _ => open_ok f;
     env_asctime := env_asctime E0;
     env_purge := env_purge E0;
     env_sync_send := env_sync_send E0;
     env_sync_receive := env_sync_receive E0;
     env_stat := fun _ _ => stat;
     env_fstat_inode := env_fstat_inode E0;
     env_fstat_size := fun _ => size;
     env_read_lines := env_read_lines E0;
     env_tell := fun _ => size;
     env_read_hosts_deny := fun _ => hosts_deny;
     env_new_warned_hosts := env_new_warned_hosts E0;
     env_get_deny_hosts := env_get_deny_hosts E0;
     env_new_suspicious_logins := env_new_suspicious_logins E0;
     env_report_empty := env_report_empty E0 |}.

(** The firewall commands fail from the second one on: the first command
    returns [0], the others [2]. *)
Definition E_second_fails : Env :=
  world (fun h _ =>
           if existsb (fun e => match e with
                                | ESubprocess _ _ _ _ => true
                                | _ => false
                                end) h
           then Some 2 else Some 0)
        (fun _ => true) (Ok []) (Some 7) 0.

(** A deny file with a comment, a blank line and two entries. *)
Definition deny_file : list string :=
  ["# DenyHosts: Thu Jan  1 00:00:00 1970 | 192.0.2.10" +:+ nl;
   "192.0.2.10" +:+ nl;
   nl;
   "192.0.2.30" +:+ nl].

Definition E_deny_file : Env :=
  world (env_subprocess E0) (fun _ => true) (Ok deny_file) (Some 7) 0.


(** The log cannot be opened; it holds 100 bytes. *)
Definition E_no_log : Env :=
  world (env_subprocess E0)
    (fun f => match f with LogFile => false | _ => true end)
    (Ok []) (Some 7) 100.

(** The log file has been deleted. *)
Definition E_deleted_log : Env :=
  world (env_subprocess E0) (fun _ => true) (Ok []) None 0.

(** Purging with a sleep time of 0. *)
Definition P_no_sleep : prefs :=
  make_prefs "" "" "" "" "" "" (Some 604800) None 0 3600 false false.

(** An object whose firewall is set up and blocks 192.0.2.10. *)
Definition s_blocking : DenyHosts :=
  {| denied_hosts := ∅; fw_initialized := true;
     fw_blocked_hosts := {[ "192.0.2.10" ]};
     purge_counter := 0; sync_counter := 0 |}.

(** The defaults of the module [regex], for the indices 1 and 2. *)
Definition R0 : regex_module :=
  {| SSHD_FORMAT_REGEX := prefix_rx "sshd: " "message";
     SUCCESSFUL_ENTRY_REGEX := prefix_rx "Accepted password from " "host";
     FAILED_ENTRY_REGEX_MAP :=
       {[ 1 := prefix_rx "Failed password from " "host";
          2 := prefix_rx "Illegal user from " "host" ]};
     FAILED_DOVECOT_ENTRY_REGEX := prefix_rx "dovecot: auth failed, rip=" "host" |}.

(** Preferences that give a pattern for the index 2 only. *)
Definition prefs_get0 (name : string) : option string :=
  if String.eqb name "FAILED_ENTRY_REGEX2" then Some "Invalid user from " else None.

(** A compiler of patterns that takes its argument for a prefix. *)
Definition re_compile0 (val : string) : option regex :=
  Some (prefix_rx val "host").

(** What [init_regex] sets from them: the default for the index 1, the
    configured pattern for the index 2. *)
Definition r0 : regexes :=
  {| r_sshd_format_regex := prefix_rx "sshd: " "message";
     r_successful_entry_regex := prefix_rx "Accepted password from " "host";
     r_failed_entry_regex_map :=
       <[ 2 := prefix_rx "Invalid user from " "host" ]>
         (<[ 1 := prefix_rx "Failed password from " "host" ]> ∅);
     r_failed_dovecot_entry_regex :=
       prefix_rx "dovecot: auth failed, rip=" "host" |}.

(** The preferences [P0] with the patterns that [init_regex] sets. *)
Definition with_regexes (r : regexes) : prefs :=
  {| HOSTS_DENY := HOSTS_DENY P0;
     WORK_DIR := WORK_DIR P0;
     BLOCK_SERVICE := BLOCK_SERVICE P0;
     PURGE_DENY := PURGE_DENY P0;
     DAEMON_SLEEP := DAEMON_SLEEP P0;
     DAEMON_PURGE := DAEMON_PURGE P0;
     SYNC_INTERVAL := SYNC_INTERVAL P0;
     SYNC_SERVER := SYNC_SERVER P0;
     SYNC_UPLOAD := SYNC_UPLOAD P0;
     SYNC_DOWNLOAD := SYNC_DOWNLOAD P0;
     IPTABLES := IPTABLES P0;
     IPSET_COMMAND := IPSET_COMMAND P0;
     IPSET_NAME := IPSET_NAME P0;
     BLOCKPORT := BLOCKPORT P0;
     PFCTL_PATH := PFCTL_PATH P0;
     PF_TABLE := PF_TABLE P0;
     PF_TABLE_FILE := PF_TABLE_FILE P0;
     PLUGIN_DENY := PLUGIN_DENY P0;
     DETECT_DOVECOT_LOGIN_ATTEMPTS := DETECT_DOVECOT_LOGIN_ATTEMPTS P0;
     USERDEF_FAILED_ENTRY_REGEX := USERDEF_FAILED_ENTRY_REGEX P0;
     sshd_format_regex := r_sshd_format_regex r;
     successful_entry_regex := r_successful_entry_regex r;
     failed_entry_regex_map := r_failed_entry_regex_map r;
     failed_dovecot_entry_regex := r_failed_dovecot_entry_regex r;
     allowed_hosts := allowed_hosts P0;
     noemail := noemail P0;
     daemon := daemon P0 |}.

End Cases.

(** ** Reasoning about computations *)

Section Rules.

Context {A : Type}.

Lemma emits_ret Q (a : A) : emits Q (ret a).
Proof. intros s h. constructor. Qed.

Lemma emits_raise Q e : emits Q (@raise A e).
Proof. intros s h. constructor. Qed.

Lemma emits_lift Q (r : outcome A) : emits Q (lift r).
Proof. destruct r; intros s h; constructor. Qed.

Lemma emits_mono (Q Q' : event -> Prop) (m : M A) :
  (forall e, Q e -> Q' e) -> emits Q m -> emits Q' m.
Proof. intros HQ Hm s h. eapply Forall_impl; [apply Hm | exact HQ]. Qed.

Lemma emits_try Q (m : M A) handler :
  emits Q m -> (forall e, emits Q (handler e)) -> emits Q (try_except m handler).
Proof.
  intros Hm Hh s h. unfold try_except, out.
  specialize (Hm s h). unfold out in Hm.
  destruct (m s h) as [[[a | e] s1] o1]; simpl in *; [exact Hm |].
  specialize (Hh e s1 (h ++ o1)). unfold out in Hh.
  destruct (handler e s1 (h ++ o1)) as [[r s2] o2]; simpl in *.
  apply Forall_app; split; assumption.
Qed.

Lemma keeps_ret {X} (f : DenyHosts -> X) (a : A) : keeps f (ret a).
Proof. intros s h. reflexivity. Qed.

Lemma keeps_raise {X} (f : DenyHosts -> X) e : keeps f (@raise A e).
Proof. intros s h. reflexivity. Qed.

Lemma keeps_lift {X} (f : DenyHosts -> X) (r : outcome A) : keeps f (lift r).
Proof. destruct r; intros s h; reflexivity. Qed.

Lemma keeps_try {X} (f : DenyHosts -> X) (m : M A) handler :
  keeps f m -> (forall e, keeps f (handler e)) -> keeps f (try_except m handler).
Proof.
  intros Hm Hh s h. unfold try_except, st.
  specialize (Hm s h). unfold st in Hm.
  destruct (m s h) as [[[a | e] s1] o1]; simpl in *; [exact Hm |].
  specialize (Hh e s1 (h ++ o1)). unfold st in Hh.
  destruct (handler e s1 (h ++ o1)) as [[r s2] o2]; simpl in *.
  congruence.
Qed.

Lemma total_ret (a : A) : total (ret a).
Proof. intros s h. exists a. reflexivity. Qed.

(** A handler that raises nothing makes the whole [try] raise nothing. *)
Lemma total_try (m : M A) handler :
  (forall e, total (handler e)) -> total (try_except m handler).
Proof.
  intros Hh s h. unfold try_except, res.
  destruct (m s h) as [[[a | e] s1] o1]; simpl; [eauto |].
  specialize (Hh e s1 (h ++ o1)). unfold res in Hh.
  destruct (handler e s1 (h ++ o1)) as [[r s2] o2]; simpl in *. exact Hh.
Qed.

End Rules.

Section BindRules.

Context {A B : Type}.

Lemma bind_ok (m : M A) (f : A -> M B) s h a s1 o1 :
  m s h = (Ok a, s1, o1) ->
  bind m f s h = (res (f a s1 (h ++ o1)), st (f a s1 (h ++ o1)),
                  o1 ++ out (f a s1 (h ++ o1))).
Proof.
  intros Hm. unfold bind, res, st, out. rewrite Hm.
  destruct (f a s1 (h ++ o1)) as [[r s2] o2]. reflexivity.
Qed.

Lemma bind_raise (m : M A) (f : A -> M B) s h e s1 o1 :
  m s h = (Raise e, s1, o1) -> bind m f s h = (Raise e, s1, o1).
Proof. intros Hm. unfold bind. rewrite Hm. reflexivity. Qed.

Lemma emits_bind Q (m : M A) (f : A -> M B) :
  emits Q m -> (forall a, emits Q (f a)) -> emits Q (bind m f).
Proof.
  intros Hm Hf s h. specialize (Hm s h). unfold out in *.
  destruct (m s h) as [[[a | e] s1] o1] eqn:Em; simpl in Hm.
  - rewrite (bind_ok _ _ _ _ _ _ _ Em). simpl.
    apply Forall_app; split; [exact Hm | apply Hf].
  - rewrite (bind_raise _ _ _ _ _ _ _ Em). exact Hm.
Qed.

(** The same, using what is known of the value that [m] returns. *)
Lemma emits_bind_returns Q (R : A -> Prop) (m : M A) (f : A -> M B) :
  emits Q m -> returns R m -> (forall a, R a -> emits Q (f a)) ->
  emits Q (bind m f).
Proof.
  intros Hm HR Hf s h. specialize (Hm s h). specialize (HR s h).
  unfold out, res in *.
  destruct (m s h) as [[[a | e] s1] o1] eqn:Em; simpl in Hm, HR.
  - rewrite (bind_ok _ _ _ _ _ _ _ Em). simpl.
    apply Forall_app; split; [exact Hm | apply Hf; apply HR; reflexivity].
  - rewrite (bind_raise _ _ _ _ _ _ _ Em). exact Hm.
Qed.

Lemma keeps_bind {X} (g : DenyHosts -> X) (m : M A) (f : A -> M B) :
  keeps g m -> (forall a, keeps g (f a)) -> keeps g (bind m f).
Proof.
  intros Hm Hf s h. specialize (Hm s h). unfold st in *.
  destruct (m s h) as [[[a | e] s1] o1] eqn:Em; simpl in Hm.
  - rewrite (bind_ok _ _ _ _ _ _ _ Em). simpl.
    rewrite <- Hm. apply Hf.
  - rewrite (bind_raise _ _ _ _ _ _ _ Em). exact Hm.
Qed.

Lemma total_bind (m : M A) (f : A -> M B) :
  total m -> (forall a, total (f a)) -> total (bind m f).
Proof.
  intros Hm Hf s h. destruct (Hm s h) as [a Ha]. unfold res in *.
  destruct (m s h) as [[r s1] o1] eqn:Em; simpl in Ha; subst r.
  rewrite (bind_ok _ _ _ _ _ _ _ Em). simpl. apply Hf.
Qed.

End BindRules.

(** The three components of a sequence. *)
Lemma out_bind {A B} (m : M A) (f : A -> M B) s h :
  out (bind m f s h) =
  match res (m s h) with
  | Ok a => out (m s h) ++ out (f a (st (m s h)) (h ++ out (m s h)))
  | Raise _ => out (m s h)
  end.
Proof.
  unfold bind, res, st, out.
  destruct (m s h) as [[[a | e] s1] o1]; simpl; [| reflexivity].
  destruct (f a s1 (h ++ o1)) as [[r s2] o2]. reflexivity.
Qed.

Lemma res_bind {A B} (m : M A) (f : A -> M B) s h :
  res (bind m f s h) =
  match res (m s h) with
  | Ok a => res (f a (st (m s h)) (h ++ out (m s h)))
  | Raise e => Raise e
  end.
Proof.
  unfold bind, res, st, out.
  destruct (m s h) as [[[a | e] s1] o1]; simpl; [| reflexivity].
  destruct (f a s1 (h ++ o1)) as [[r s2] o2]. reflexivity.
Qed.

Lemma st_bind {A B} (m : M A) (f : A -> M B) s h :
  st (bind m f s h) =
  match res (m s h) with
  | Ok a => st (f a (st (m s h)) (h ++ out (m s h)))
  | Raise _ => st (m s h)
  end.
Proof.
  unfold bind, res, st, out.
  destruct (m s h) as [[[a | e] s1] o1]; simpl; [| reflexivity].
  destruct (f a s1 (h ++ o1)) as [[r s2] o2]. reflexivity.
Qed.

Lemma phased_first Q1 Q2 o tr :
  Forall Q1 o -> phased Q1 Q2 tr -> phased Q1 Q2 (o ++ tr).
Proof.
  intros Ho (o1 & o2 & -> & H1 & H2). exists (o ++ o1), o2.
  split; [apply app_assoc |]. split; [apply Forall_app; split; assumption | exact H2].
Qed.

Lemma phased_second (Q1 Q2 : event -> Prop) tr : Forall Q2 tr -> phased Q1 Q2 tr.
Proof. intros H. exists [], tr. repeat split; [constructor | exact H]. Qed.

Lemma phased_only_first (Q1 Q2 : event -> Prop) tr : Forall Q1 tr -> phased Q1 Q2 tr.
Proof.
  intros H. exists tr, []. split; [symmetry; apply app_nil_r |].
  split; [exact H | constructor].
Qed.

Lemma phased_bind {A B} Q1 Q2 (m : M A) (f : A -> M B) s h :
  emits Q1 m ->
  (forall a s' h', phased Q1 Q2 (out (f a s' h'))) ->
  phased Q1 Q2 (out (bind m f s h)).
Proof.
  intros Hm Hf. rewrite out_bind. destruct (res (m s h)).
  - apply phased_first; [apply Hm | apply Hf].
  - apply phased_only_first. apply Hm.
Qed.

Lemma emits_get Q : emits Q get.
Proof. intros s h. constructor. Qed.

Lemma emits_modify Q f : emits Q (modify f).
Proof. intros s h. constructor. Qed.

Lemma emits_emit (Q : event -> Prop) e : Q e -> emits Q (emit e).
Proof. intros He s h. repeat constructor. exact He. Qed.

Lemma emits_ask {X} (Q : event -> Prop) (q : list event -> X) mk :
  (forall x, Q (mk x)) -> emits Q (ask q mk).
Proof. intros He s h. repeat constructor. apply He. Qed.

Lemma emits_when Q b m : emits Q m -> emits Q (when b m).
Proof. intros Hm. destruct b; [exact Hm | apply emits_ret]. Qed.

Lemma emits_for_each {X} Q (l : list X) body :
  (forall x, emits Q (body x)) -> emits Q (for_each l body).
Proof.
  intros Hb. induction l as [| x l IH]; simpl.
  - apply emits_ret.
  - apply emits_bind; [apply Hb | intros _; exact IH].
Qed.

Lemma emits_filterM {X} Q (cond : X -> M bool) l :
  (forall x, emits Q (cond x)) -> emits Q (filterM cond l).
Proof.
  intros Hc. induction l as [| x l IH]; simpl.
  - apply emits_ret.
  - apply emits_bind; [apply Hc | intros b].
    apply emits_bind; [exact IH | intros keep; apply emits_ret].
Qed.

Lemma keeps_get {X} (f : DenyHosts -> X) : keeps f get.
Proof. intros s h. reflexivity. Qed.

Lemma keeps_modify {X} (f : DenyHosts -> X) g :
  (forall s, f (g s) = f s) -> keeps f (modify g).
Proof. intros Hg s h. apply Hg. Qed.

Lemma keeps_emit {X} (f : DenyHosts -> X) e : keeps f (emit e).
Proof. intros s h. reflexivity. Qed.

Lemma keeps_ask {X Y} (f : DenyHosts -> X) (q : list event -> Y) mk :
  keeps f (ask q mk).
Proof. intros s h. reflexivity. Qed.

Lemma keeps_when {X} (f : DenyHosts -> X) b m : keeps f m -> keeps f (when b m).
Proof. intros Hm. destruct b; [exact Hm | apply keeps_ret]. Qed.

Lemma keeps_for_each {X Y} (f : DenyHosts -> X) (l : list Y) body :
  (forall x, keeps f (body x)) -> keeps f (for_each l body).
Proof.
  intros Hb. induction l as [| x l IH]; simpl.
  - apply keeps_ret.
  - apply keeps_bind; [apply Hb | intros _; exact IH].
Qed.

Lemma keeps_filterM {X Y} (f : DenyHosts -> X) (cond : Y -> M bool) l :
  (forall x, keeps f (cond x)) -> keeps f (filterM cond l).
Proof.
  intros Hc. induction l as [| x l IH]; simpl.
  - apply keeps_ret.
  - apply keeps_bind; [apply Hc | intros b].
    apply keeps_bind; [exact IH | intros keep; apply keeps_ret].
Qed.

Lemma total_get : total get.
Proof. intros s h. eexists. reflexivity. Qed.

Lemma total_modify g : total (modify g).
Proof. intros s h. eexists. reflexivity. Qed.

Lemma total_emit e : total (emit e).
Proof. intros s h. eexists. reflexivity. Qed.

Lemma total_ask {X} (q : list event -> X) mk : total (ask q mk).
Proof. intros s h. eexists. reflexivity. Qed.

Lemma total_when b m : total m -> total (when b m).
Proof. intros Hm. destruct b; [exact Hm | apply total_ret]. Qed.

Lemma total_for_each {X} (l : list X) body :
  (forall x, total (body x)) -> total (for_each l body).
Proof.
  intros Hb. induction l as [| x l IH]; simpl.
  - apply total_ret.
  - apply total_bind; [apply Hb | intros _; exact IH].
Qed.

Lemma total_filterM {X} (cond : X -> M bool) l :
  (forall x, total (cond x)) -> total (filterM cond l).
Proof.
  intros Hc. induction l as [| x l IH]; simpl.
  - apply total_ret.
  - apply total_bind; [apply Hc | intros b].
    apply total_bind; [exact IH | intros keep; apply total_ret].
Qed.

(** ** Proof automation *)

Ltac head_of t :=
  lazymatch t with
  | ?f _ => head_of f
  | _ => t
  end.

(** Use an equation on the condition when there is one, else split. *)
Ltac split_cond b :=
  first [ match goal with
          | H : b = _ |- _ => rewrite H
          end
        | destruct b eqn:? ].

(** Walks down a computation; [fin] closes the goals about single events. *)
Ltac emits_walk fin :=
  repeat (cbv beta zeta;
    lazymatch goal with
    | |- emits _ (ret _) => apply emits_ret
    | |- emits _ (raise _) => apply emits_raise
    | |- emits _ (lift _) => apply emits_lift
    | |- emits _ get => apply emits_get
    | |- emits _ (modify _) => apply emits_modify
    | |- emits _ (emit _) => apply emits_emit; fin
    | |- emits _ (ask _ _) => apply emits_ask; intros ?; fin
    | |- emits _ (bind _ _) => apply emits_bind; [| intros ?]
    | |- emits _ (try_except _ _) => apply emits_try; [| intros ?]
    | |- emits _ (when _ _) => unfold when
    | |- emits _ (for_each _ _) => apply emits_for_each; intros ?
    | |- emits _ (filterM _ _) => apply emits_filterM; intros ?
    | |- emits _ (if ?b then _ else _) => split_cond b
    | |- emits _ (match ?x with _ => _ end) => split_cond x
    | |- emits _ ?m =>
        first [ solve [ match goal with H : _ |- _ => apply H end ]
              | let f := head_of m in progress unfold f ]
    end).

Ltac keeps_walk fin :=
  repeat (cbv beta zeta;
    lazymatch goal with
    | |- keeps _ (ret _) => apply keeps_ret
    | |- keeps _ (raise _) => apply keeps_raise
    | |- keeps _ (lift _) => apply keeps_lift
    | |- keeps _ get => apply keeps_get
    | |- keeps _ (modify _) => apply keeps_modify; intros ?; fin
    | |- keeps _ (emit _) => apply keeps_emit
    | |- keeps _ (ask _ _) => apply keeps_ask
    | |- keeps _ (bind _ _) => apply keeps_bind; [| intros ?]
    | |- keeps _ (try_except _ _) => apply keeps_try; [| intros ?]
    | |- keeps _ (when _ _) => unfold when
    | |- keeps _ (for_each _ _) => apply keeps_for_each; intros ?
    | |- keeps _ (filterM _ _) => apply keeps_filterM; intros ?
    | |- keeps _ (if ?b then _ else _) => split_cond b
    | |- keeps _ (match ?x with _ => _ end) => split_cond x
    | |- keeps _ ?m => let f := head_of m in progress unfold f
    end).

Ltac total_walk :=
  repeat (cbv beta zeta;
    lazymatch goal with
    | |- total (ret _) => apply total_ret
    | |- total get => apply total_get
    | |- total (modify _) => apply total_modify
    | |- total (emit _) => apply total_emit
    | |- total (ask _ _) => apply total_ask
    | |- total (bind _ _) => apply total_bind; [| intros ?]
    | |- total (try_except _ _) => apply total_try; intros ?
    | |- total (when _ _) => unfold when
    | |- total (for_each _ _) => apply total_for_each; intros ?
    | |- total (filterM _ _) => apply total_filterM; intros ?
    | |- total (if ?b then _ else _) => split_cond b
    | |- total (match ?x with _ => _ end) => split_cond x
    | |- total (raise _) => fail
    | |- total (lift _) => fail
    | |- total ?m => let f := head_of m in progress unfold f
    end).

(** ** Facts on observations *)

Lemma written_app f tr1 tr2 : written f (tr1 ++ tr2) = written f tr1 ++ written f tr2.
Proof.
  induction tr1 as [| e tr1 IH]; simpl; [reflexivity |].
  destruct e; simpl; try exact IH.
  destruct (fileobj_eqb f f0); simpl; congruence.
Qed.

Lemma plugin_calls_app tr1 tr2 :
  plugin_calls (tr1 ++ tr2) = plugin_calls tr1 ++ plugin_calls tr2.
Proof.
  induction tr1 as [| e tr1 IH]; simpl; [reflexivity |].
  destruct e; simpl; congruence.
Qed.

(** A trace with no event of a kind contributes nothing to the observation. *)
Lemma written_none f tr :
  Forall (fun e => match e with EWrite g _ => fileobj_eqb f g = false | _ => True end) tr ->
  written f tr = [].
Proof.
  induction 1 as [| e tr He _ IH]; simpl; [reflexivity |].
  destruct e; try exact IH. rewrite He. exact IH.
Qed.

Lemma plugin_calls_none tr :
  Forall (fun e => match e with EPlugin _ _ => False | _ => True end) tr ->
  plugin_calls tr = [].
Proof.
  induction 1 as [| e tr He _ IH]; simpl; [reflexivity |].
  destruct e; try exact IH. destruct He.
Qed.

Section Facts.

Variable K : constants.
Variable P : prefs.
Variable E : Env.

(** *** The firewall routines *)

(** The firewall routines raise nothing: every exception is caught. *)
Lemma firewall_init_total : total (firewall_init P E).
Proof. total_walk. Qed.

Lemma firewall_block_total hosts : total (firewall_block K P E hosts).
Proof. total_walk. Qed.

(** With [IPTABLES] set, [firewall_check] raises nothing. *)
Lemma firewall_check_total host :
  truthy (IPTABLES P) = true -> total (firewall_check P E host).
Proof. intros Hipt. total_walk. Qed.

Lemma iptables_stage_total deny_hosts : total (iptables_stage K P E deny_hosts).
Proof. total_walk. Qed.

Lemma pf_stage_total new_hosts : total (pf_stage K P E new_hosts).
Proof. total_walk. Qed.

(** They leave the set of denied hosts alone. *)
Lemma iptables_stage_keeps_denied deny_hosts :
  keeps denied_hosts (iptables_stage K P E deny_hosts).
Proof. keeps_walk ltac:(reflexivity). Qed.

Lemma pf_stage_keeps_denied new_hosts :
  keeps denied_hosts (pf_stage K P E new_hosts).
Proof. keeps_walk ltac:(reflexivity). Qed.

End Facts.

(** ** The classifier *)

(** C5, as the code has it: [is_valid] yields 1 exactly when the pattern of
    the match defines no group [invalid] or the group captured a non-empty
    text, and 0 exactly when the group is defined and captured nothing
    (it took no part in the match, or matched the empty string). *)
Theorem is_valid_spec (m : rx_match) :
  (is_valid m = 1 <->
     lookup_group "invalid" m = None \/
     exists text, lookup_group "invalid" m = Some (Some text) /\ text <> "") /\
  (is_valid m = 0 <->
     lookup_group "invalid" m = Some None \/
     lookup_group "invalid" m = Some (Some "")).
Proof.
  unfold is_valid, group.
  destruct (lookup_group "invalid" m) as [[text |] |]; simpl.
  - unfold truthy. destruct (String.eqb_spec text "") as [-> | Hne]; simpl.
    + split; split; intros H; try discriminate; auto.
      destruct H as [H | (t & H & Ht)]; [discriminate |].
      inversion H; subst. contradiction.
    + split; split; intros H; try discriminate; eauto.
      destruct H as [H | H]; [discriminate | inversion H; subst; contradiction].
  - split; split; intros H; try discriminate; auto.
    destruct H as [H | (t & H & _)]; discriminate.
  - split; split; intros H; try discriminate; auto.
    destruct H as [H | H]; discriminate.
Qed.

(** C5, as stated, fails: the match of a pattern that defines no group
    [invalid] is given [invalid = 1], not 0. *)
Lemma is_valid_without_invalid_group :
  lookup_group "invalid" [("host", Some "192.0.2.10")] = None /\
  is_valid [("host", Some "192.0.2.10")] = 1.
Proof. split; reflexivity. Qed.

(** With Dovecot detection on, the match kept after the Dovecot step is the
    Dovecot pattern's, whatever the envelope found. *)
Lemma dovecot_stage_overrides (P : prefs) line v :
  DETECT_DOVECOT_LOGIN_ATTEMPTS P = true ->
  l_m (dovecot_stage P line v) = re_search (failed_dovecot_entry_regex P) line.
Proof.
  intros Hon. unfold dovecot_stage. rewrite Hon.
  destruct (re_search (failed_dovecot_entry_regex P) line); reflexivity.
Qed.

(** With Dovecot detection off, the envelope's classification stands. *)
Lemma classify_without_dovecot (K : constants) (P : prefs) line v mm :
  DETECT_DOVECOT_LOGIN_ATTEMPTS P = false ->
  envelope_stage K P line = Ok v -> l_m v = Some mm ->
  classify K P line = Ok v.
Proof.
  intros Hoff Henv Hm. unfold classify. rewrite Henv.
  unfold dovecot_stage. rewrite Hoff. unfold userdef_stage. rewrite Hm.
  reflexivity.
Qed.

(** C2 at its failing input.  The line is matched by the SSHD envelope and
    by the failed-entry pattern number 1.  With Dovecot detection off it is
    an attempt from 192.0.2.10; with Dovecot detection on, the Dovecot
    pattern is tried although the envelope matched, it does not match, and
    the line is dropped as not important. *)
Theorem dovecot_detection_drops_sshd_failure :
  let line := "sshd: Failed password from 192.0.2.10" in
  envelope_stage Scenario.K0 Scenario.P_dovecot line
    = Ok {| l_success := 0; l_invalid := 1;
            l_m := Some [("host", Some "192.0.2.10")] |} /\
  classify Scenario.K0 Scenario.P_dovecot line
    = Ok {| l_success := 0; l_invalid := 1; l_m := None |} /\
  out (process_line Scenario.K0 Scenario.P_dovecot line Scenario.s0 []) = [] /\
  out (process_line Scenario.K0 Scenario.P0 line Scenario.s0 [])
    = [ELoginAdd (Some "") (Some "192.0.2.10") 0 1].
Proof. vm_compute. repeat split. Qed.

(** ** The firewall and the access-control file *)

Section Deny.

Variable K : constants.
Variable P : prefs.
Variable E : Env.

(** The firewall blocks of [update_hosts_deny] do not touch the
    access-control file. *)
Lemma iptables_stage_no_deny_file deny_hosts :
  emits (fun e => is_deny_file_event e = false) (iptables_stage K P E deny_hosts).
Proof. emits_walk ltac:(reflexivity). Qed.

Lemma pf_stage_no_deny_file new_hosts :
  emits (fun e => is_deny_file_event e = false) (pf_stage K P E new_hosts).
Proof. emits_walk ltac:(reflexivity). Qed.

(** The file object that [open_hosts_deny] yields is the access-control
    file or standard output. *)
Lemma open_hosts_deny_returns :
  returns (fun a => a = (HostsDenyFile, 1) \/ a = (Stdout, 0)) (open_hosts_deny P E).
Proof.
  intros s h a. unfold open_hosts_deny, try_except, open_file, bind, ask, res.
  simpl. destruct (env_open E h HostsDenyFile (HOSTS_DENY P) "a"); simpl.
  - intros [= <-]. left. reflexivity.
  - intros [= <-]. right. reflexivity.
Qed.

(** Appending to the access-control file involves no firewall action. *)
Lemma append_stage_no_firewall new_hosts :
  emits (fun e => is_firewall_event e = false) (append_stage K P E new_hosts).
Proof.
  unfold append_stage.
  eapply emits_bind_returns;
    [emits_walk ltac:(reflexivity) | apply open_hosts_deny_returns |].
  intros a [-> | ->]; emits_walk ltac:(reflexivity).
Qed.

(** C1, as the code has it: in every run of [update_hosts_deny] the firewall
    is served first.  All sub-process calls, all entries into
    [firewall_block] and all actions on the PF table file come before the
    first action on the access-control file. *)
Theorem update_hosts_deny_firewall_first deny_hosts s h :
  firewall_then_deny (out (update_hosts_deny K P E deny_hosts s h)).
Proof.
  unfold firewall_then_deny, update_hosts_deny.
  destruct (negb (is_nonempty deny_hosts)).
  { apply phased_second. constructor. }
  apply phased_bind; [apply iptables_stage_no_deny_file |].
  intros _ s1 h1. apply phased_bind; [apply emits_get |].
  intros s2 s3 h2.
  destruct (negb (is_nonempty (List.filter (is_new_host P s2) deny_hosts))).
  { apply phased_second. constructor. }
  apply phased_bind; [apply pf_stage_no_deny_file |].
  intros _ s4 h4. apply phased_second. apply append_stage_no_firewall.
Qed.

(** C6 at its failing inputs.  The module binds no name [new_hosts], so
    whatever hosts [firewall_block] is given, nothing is written to the PF
    table file: the lookup of the name raises, and the handler prints. *)
Theorem firewall_block_writes_no_pf_table_file hosts s h :
  global_new_hosts K = None ->
  written PfTableFile (out (firewall_block K P E hosts s h)) = [].
Proof.
  intros Hnone. apply written_none. revert s h.
  change (emits (fun e => match e with
                          | EWrite g _ => fileobj_eqb PfTableFile g = false
                          | _ => True
                          end) (firewall_block K P E hosts)).
  unfold firewall_block.
  apply emits_bind; [emits_walk ltac:(exact I) | intros _].
  apply emits_bind; [emits_walk ltac:(exact I) | intros _].
  unfold when. destruct (truthy (PF_TABLE_FILE P)); [| apply emits_ret].
  apply emits_try; [| intros e; emits_walk ltac:(exact I)].
  apply emits_bind; [emits_walk ltac:(exact I) | intros _].
  (* the name lookup raises: the loop over [new_hosts] is never reached *)
  apply emits_bind_returns with (R := fun _ => False).
  - unfold lookup_new_hosts. rewrite Hnone. apply emits_raise.
  - unfold lookup_new_hosts. rewrite Hnone. intros s h a [=].
  - intros a [].
Qed.

End Deny.

(** The run of [firewall_block] on one host with PF and a table file
    configured: the host goes to [pfctl], the table file is opened, and the
    name error is printed. *)
Example firewall_block_pf_run :
  out (firewall_block Scenario.K0 Scenario.P_pf Scenario.E0 ["192.0.2.10"]
         Scenario.s0 [])
  = [EFirewallBlock ["192.0.2.10"];
     ESubprocess ["/sbin/pfctl"; "-t"; "denyhosts"; "-T"; "add"; "192.0.2.10"]
       true true (Some 0);
     EOpen PfTableFile "/etc/pf.denyhosts" "a" true;
     EPrintExn (NameError "new_hosts");
     EPrint "Unable to write new host to PF table file."].
Proof. vm_compute. reflexivity. Qed.

Lemma firewall_block_writes_no_pf_table_file_witness :
  global_new_hosts Scenario.K0 = None /\
  written PfTableFile
    (out (firewall_block Scenario.K0 Scenario.P_pf Scenario.E0 ["192.0.2.10"]
            Scenario.s0 [])) = [].
Proof.
  split; [reflexivity |].
  apply (firewall_block_writes_no_pf_table_file
           Scenario.K0 Scenario.P_pf Scenario.E0 ["192.0.2.10"] Scenario.s0 []).
  reflexivity.
Defined.

(** C1, as stated, fails.  With iptables configured, [firewall_block] is
    entered with 192.0.2.10 while nothing has been written to the
    access-control file yet. *)
Lemma deny_file_first_fails :
  deny_file_first Scenario.K0 Scenario.P_iptables []
    (out (update_hosts_deny Scenario.K0 Scenario.P_iptables Scenario.E0
            ["192.0.2.10"] Scenario.s0 [])) = false.
Proof. vm_compute. reflexivity. Qed.

Example update_hosts_deny_iptables_run :
  out (update_hosts_deny Scenario.K0 Scenario.P_iptables Scenario.E0
         ["192.0.2.10"] Scenario.s0 [])
  = [ESubprocess ["/sbin/iptables"; "-C"; "INPUT"; "-s"; "192.0.2.10"; "-j"; "DROP"]
       true true (Some 1);
     EFirewallBlock ["192.0.2.10"];
     ESubprocess ["/sbin/iptables"; "-I"; "INPUT"; "-s"; "192.0.2.10"; "-j"; "DROP"]
       true true (Some 0);
     EOpen HostsDenyFile "/etc/hosts.deny" "a" true;
     EWrite HostsDenyFile ("sshd: 192.0.2.10" +:+ nl);
     EClose HostsDenyFile].
Proof. vm_compute. reflexivity. Qed.

(** ** What [update_hosts_deny] writes and returns *)

Section Update.

Variable K : constants.
Variable P : prefs.
Variable E : Env.

Lemma fileobj_eqb_refl f : fileobj_eqb f f = true.
Proof. destruct f; reflexivity. Qed.

Lemma run_eta {A} (r : outcome A * DenyHosts * list event) :
  r = (res r, st r, out r).
Proof. destruct r as [[a s] o]. reflexivity. Qed.

(** The firewall blocks stay within the firewall routines' alphabet. *)
Lemma iptables_stage_alphabet deny_hosts :
  emits (fun e => is_firewall_routine_event e = true) (iptables_stage K P E deny_hosts).
Proof. emits_walk ltac:(reflexivity). Qed.

Lemma pf_stage_alphabet new_hosts :
  emits (fun e => is_firewall_routine_event e = true) (pf_stage K P E new_hosts).
Proof. emits_walk ltac:(reflexivity). Qed.

Lemma alphabet_written f tr :
  fileobj_eqb f PfTableFile = false ->
  Forall (fun e => is_firewall_routine_event e = true) tr -> written f tr = [].
Proof.
  intros Hf Htr. apply written_none. eapply Forall_impl; [exact Htr |].
  intros [] He; try exact I; simpl in He.
  destruct f0; try discriminate. exact Hf.
Qed.

Lemma alphabet_plugin_calls tr :
  Forall (fun e => is_firewall_routine_event e = true) tr -> plugin_calls tr = [].
Proof.
  intros Htr. apply plugin_calls_none. eapply Forall_impl; [exact Htr |].
  intros [] He; try exact I; discriminate.
Qed.

(** One entry. *)
Lemma write_entry_run fp host s h :
  res (write_entry K P E fp host s h) = Ok tt /\
  st (write_entry K P E fp host s h) = s /\
  entry_texts K P [host] (written fp (out (write_entry K P E fp host s h))) /\
  plugin_calls (out (write_entry K P E fp host s h)) = [] /\
  (forall g, fileobj_eqb g fp = false ->
             written g (out (write_entry K P E fp host s h)) = []) /\
  Forall (fun e => match e with EOpen _ _ _ _ => False | _ => True end)
         (out (write_entry K P E fp host s h)).
Proof.
  unfold write_entry, when, bind, ask, write, emit, ret, res, st, out.
  destruct (write_timestamp P) eqn:Hts; simpl; rewrite ?fileobj_eqb_refl.
  - repeat split; try (repeat constructor; assumption).
    intros g Hg. rewrite Hg. reflexivity.
  - repeat split; try (repeat constructor; assumption).
    intros g Hg. rewrite Hg. reflexivity.
Qed.

Lemma entry_texts_app hosts1 hosts2 texts1 texts2 :
  entry_texts K P hosts1 texts1 -> entry_texts K P hosts2 texts2 ->
  entry_texts K P (hosts1 ++ hosts2) (texts1 ++ texts2).
Proof.
  induction 1; intros H2; simpl; [exact H2 | |].
  - apply entry_texts_plain; auto.
  - apply entry_texts_stamped; auto.
Qed.

(** The loop over the new hosts writes their entries and nothing else. *)
Lemma write_entries_run fp hosts s h :
  res (for_each hosts (write_entry K P E fp) s h) = Ok tt /\
  st (for_each hosts (write_entry K P E fp) s h) = s /\
  entry_texts K P hosts (written fp (out (for_each hosts (write_entry K P E fp) s h))) /\
  plugin_calls (out (for_each hosts (write_entry K P E fp) s h)) = [] /\
  (forall g, fileobj_eqb g fp = false ->
             written g (out (for_each hosts (write_entry K P E fp) s h)) = []) /\
  Forall (fun e => match e with EOpen _ _ _ _ => False | _ => True end)
         (out (for_each hosts (write_entry K P E fp) s h)).
Proof.
  revert s h. induction hosts as [| host hosts IH]; intros s h; simpl.
  - repeat split; try constructor.
  - destruct (write_entry_run fp host s h) as (Hr & Hs & Ht & Hp & Hg & Ho).
    rewrite res_bind, st_bind, out_bind, Hr, Hs.
    destruct (IH s (h ++ out (write_entry K P E fp host s h)))
      as (Hr' & Hs' & Ht' & Hp' & Hg' & Ho').
    repeat split.
    + exact Hr'.
    + exact Hs'.
    + rewrite written_app. apply (entry_texts_app [host]); assumption.
    + rewrite plugin_calls_app, Hp, Hp'. reflexivity.
    + intros g Hne. rewrite written_app, (Hg g Hne), (Hg' g Hne). reflexivity.
    + apply Forall_app; split; assumption.
Qed.

(** Opening the access-control file, or falling back on standard output. *)
Lemma open_hosts_deny_run s h :
  let ok := env_open E h HostsDenyFile (HOSTS_DENY P) "a" in
  open_hosts_deny P E s h =
  (Ok (if ok then HostsDenyFile else Stdout, if ok then 1 else 0), s,
   open_hosts_deny_events P ok).
Proof.
  unfold open_hosts_deny, try_except, open_file, bind, ask, print_exn, print, emit.
  simpl. destruct (env_open E h HostsDenyFile (HOSTS_DENY P) "a"); reflexivity.
Qed.

(** The last block of [update_hosts_deny], run from object [s] after
    history [h]: [ok] is what the world answers to the [open]. *)
Lemma append_stage_eq new_hosts s h :
  let ok := env_open E h HostsDenyFile (HOSTS_DENY P) "a" in
  let fp := if ok then HostsDenyFile else Stdout in
  let o_open := open_hosts_deny_events P ok in
  append_stage K P E new_hosts s h =
  (Ok (Some new_hosts, Some (if ok then 1 else 0)), s,
   o_open
   ++ out (for_each new_hosts (write_entry K P E fp) s (h ++ o_open))
   ++ (if ok then [EClose HostsDenyFile] else [])
   ++ (if truthy (PLUGIN_DENY P) then [EPlugin (PLUGIN_DENY P) new_hosts] else [])).
Proof.
  intros ok fp o_open. unfold append_stage.
  pose proof (open_hosts_deny_run s h) as Hopen. cbv zeta in Hopen.
  fold ok in Hopen. fold fp in Hopen. fold o_open in Hopen.
  rewrite (bind_ok _ _ _ _ _ _ _ Hopen). cbv beta. simpl fst. simpl snd.
  destruct (write_entries_run fp new_hosts s (h ++ o_open)) as (Hr & Hs & _).
  pose proof (run_eta (for_each new_hosts (write_entry K P E fp) s (h ++ o_open)))
    as Hloop.
  rewrite Hr, Hs in Hloop.
  rewrite (bind_ok _ _ _ _ _ _ _ Hloop). cbv beta.
  unfold when, close, emit, bind, ret, res, st, out. simpl.
  subst fp. destruct ok, (truthy (PLUGIN_DENY P)); simpl;
    rewrite ?app_nil_r; reflexivity.
Qed.

Lemma append_stage_run new_hosts s h :
  let ok := env_open E h HostsDenyFile (HOSTS_DENY P) "a" in
  let r := append_stage K P E new_hosts s h in
  res r = Ok (Some new_hosts, Some (if ok then 1 else 0)) /\
  st r = s /\
  entry_texts K P new_hosts (written (if ok then HostsDenyFile else Stdout) (out r)) /\
  written (if ok then Stdout else HostsDenyFile) (out r) = [] /\
  plugin_calls (out r)
    = (if truthy (PLUGIN_DENY P) then [(PLUGIN_DENY P, new_hosts)] else []) /\
  (forall f path mode ok', In (EOpen f path mode ok') (out r) ->
     EOpen f path mode ok' = EOpen HostsDenyFile (HOSTS_DENY P) "a" ok).
Proof.
  intros ok r. subst r. rewrite append_stage_eq. fold ok.
  cbn [res st out fst snd].
  set (fp := if ok then HostsDenyFile else Stdout).
  set (h' := h ++ _).
  destruct (write_entries_run fp new_hosts s h')
    as (_ & _ & Ht & Hp & Hg & Ho).
  assert (Hfp : fileobj_eqb (if ok then Stdout else HostsDenyFile) fp = false).
  { subst fp. destruct ok; reflexivity. }
  set (o := out (for_each new_hosts (write_entry K P E fp) s h')) in *.
  split; [reflexivity |]. split; [reflexivity |].
  repeat split.
  - rewrite !written_app.
    replace (written fp (open_hosts_deny_events P ok)) with (@nil string)
      by (subst fp; destruct ok; reflexivity).
    replace (written fp (if ok then [EClose HostsDenyFile] else [])) with (@nil string)
      by (destruct ok; reflexivity).
    replace (written fp (if truthy (PLUGIN_DENY P) then _ else _)) with (@nil string)
      by (destruct (truthy (PLUGIN_DENY P)); reflexivity).
    simpl. rewrite app_nil_r. exact Ht.
  - rewrite !written_app, (Hg _ Hfp).
    destruct ok, (truthy (PLUGIN_DENY P)); reflexivity.
  - rewrite !plugin_calls_app, Hp.
    destruct ok, (truthy (PLUGIN_DENY P)); reflexivity.
  - intros f path mode ok' Hin.
    rewrite !in_app_iff in Hin. destruct Hin as [Hin | [Hin | [Hin | Hin]]].
    + destruct ok; simpl in Hin; intuition congruence.
    + rewrite List.Forall_forall in Ho. destruct (Ho _ Hin).
    + destruct ok; simpl in Hin; intuition congruence.
    + destruct (truthy (PLUGIN_DENY P)); simpl in Hin; intuition congruence.
Qed.

Lemma when_true m : when true m = m.
Proof. reflexivity. Qed.

Lemma bind_get {B} (f : DenyHosts -> M B) s h : bind get f s h = f s s h.
Proof.
  unfold bind, get. rewrite app_nil_r.
  destruct (f s s h) as [[r s2] o2]. reflexivity.
Qed.

Lemma is_new_host_denied s s' :
  denied_hosts s' = denied_hosts s -> is_new_host P s' = is_new_host P s.
Proof. intros Hd. unfold is_new_host. rewrite Hd. reflexivity. Qed.

(** A run of a block that raises nothing, as a triple. *)
Lemma total_run {A} (m : M A) s h :
  total m -> exists a, m s h = (Ok a, st (m s h), out (m s h)).
Proof.
  intros Hm. destruct (Hm s h) as [a Ha]. exists a.
  rewrite <- Ha. apply run_eta.
Qed.

(** [update_hosts_deny] from object [s] after history [h]: the firewall
    blocks perform [o_fw] and leave the object [s1]; then, when there are
    new hosts, the last block runs. *)
Lemma update_hosts_deny_eq deny_hosts s h :
  let new_hosts := List.filter (is_new_host P s) deny_hosts in
  exists o_fw s1,
    Forall (fun e => is_firewall_routine_event e = true) o_fw /\
    denied_hosts s1 = denied_hosts s /\
    update_hosts_deny K P E deny_hosts s h =
    if is_nonempty new_hosts
    then (res (append_stage K P E new_hosts s1 (h ++ o_fw)),
          st (append_stage K P E new_hosts s1 (h ++ o_fw)),
          o_fw ++ out (append_stage K P E new_hosts s1 (h ++ o_fw)))
    else (Ok (None, None), s1, o_fw).
Proof.
  intros new_hosts. unfold update_hosts_deny.
  assert (Hcases : deny_hosts = [] \/ is_nonempty deny_hosts = true)
    by (destruct deny_hosts; auto).
  destruct Hcases as [-> | Hne].
  { exists [], s. split; [constructor |]. split; reflexivity. }
  rewrite Hne. cbn [negb].
  destruct (total_run _ s h (iptables_stage_total K P E deny_hosts)) as [[] Hipt].
  pose proof (iptables_stage_alphabet deny_hosts s h) as Ha1.
  pose proof (iptables_stage_keeps_denied K P E deny_hosts s h) as Hk1.
  set (s1 := st (iptables_stage K P E deny_hosts s h)) in *.
  set (o1 := out (iptables_stage K P E deny_hosts s h)) in *.
  rewrite (bind_ok _ _ _ _ _ _ _ Hipt), bind_get.
  rewrite (is_new_host_denied s s1 Hk1). fold new_hosts.
  destruct (is_nonempty new_hosts); cbn [negb].
  - destruct (total_run _ s1 (h ++ o1) (pf_stage_total K P E new_hosts)) as [[] Hpf].
    pose proof (pf_stage_alphabet new_hosts s1 (h ++ o1)) as Ha2.
    pose proof (pf_stage_keeps_denied K P E new_hosts s1 (h ++ o1)) as Hk2.
    set (s2 := st (pf_stage K P E new_hosts s1 (h ++ o1))) in *.
    set (o2 := out (pf_stage K P E new_hosts s1 (h ++ o1))) in *.
    exists (o1 ++ o2), s2.
    split; [apply Forall_app; split; assumption |].
    split; [congruence |].
    rewrite (bind_ok _ _ _ _ _ _ _ Hpf). cbn [res st out fst snd].
    rewrite <- !app_assoc. reflexivity.
  - exists o1, s1. split; [assumption |]. split; [assumption |].
    cbn [res st out fst snd ret]. rewrite app_nil_r. reflexivity.
Qed.

(** C8.  Whenever [update_hosts_deny] opens the access-control file, the
    outcome [ok] of the open decides the rest: the call returns the new
    hosts with status 1 when the open succeeded and 0 when it failed; the
    entries of the new hosts, in the same format in both cases, go to the
    file when it succeeded and to standard output when it failed, and
    nothing goes to the other of the two. *)
Theorem update_hosts_deny_open_outcome deny_hosts s h ok :
  In (EOpen HostsDenyFile (HOSTS_DENY P) "a" ok)
     (out (update_hosts_deny K P E deny_hosts s h)) ->
  let new_hosts := List.filter (is_new_host P s) deny_hosts in
  let r := update_hosts_deny K P E deny_hosts s h in
  res r = Ok (Some new_hosts, Some (if ok then 1 else 0)) /\
  entry_texts K P new_hosts (written (if ok then HostsDenyFile else Stdout) (out r)) /\
  written (if ok then Stdout else HostsDenyFile) (out r) = [].
Proof.
  intros Hin new_hosts r. subst r.
  destruct (update_hosts_deny_eq deny_hosts s h) as (o_fw & s1 & Ha & Hd & Heq).
  fold new_hosts in Heq. rewrite Heq in *. clear Heq.
  assert (Hfw : ~ In (EOpen HostsDenyFile (HOSTS_DENY P) "a" ok) o_fw).
  { intros Hin'. rewrite List.Forall_forall in Ha.
    specialize (Ha _ Hin'). discriminate. }
  destruct (is_nonempty new_hosts); cbn [res st out fst snd] in *;
    [| contradiction].
  apply in_app_iff in Hin. destruct Hin as [Hin | Hin]; [contradiction |].
  destruct (append_stage_run new_hosts s1 (h ++ o_fw))
    as (Hr & _ & Ht & Hw & _ & Hopen).
  cbv zeta in *. apply Hopen in Hin. injection Hin as Hok.
  rewrite <- Hok in *.
  split; [exact Hr |].
  rewrite !written_app, !(alphabet_written _ o_fw) by (destruct ok; auto).
  split; [exact Ht | exact Hw].
Qed.

(** *** The allow-list *)

Section Allowed.

Variable H : host.
Hypothesis H_allowed : allowed_hosts P H = true.

Lemma firewall_block_spares hosts :
  ~ In H hosts -> emits (spares H) (firewall_block K P E hosts).
Proof. intros Hnot. emits_walk ltac:(first [exact I | exact Hnot]). Qed.

Lemma new_hosts_spare s deny_hosts :
  ~ In H (List.filter (is_new_host P s) deny_hosts).
Proof.
  intros Hin. apply filter_In in Hin. destruct Hin as [_ Hnew].
  unfold is_new_host in Hnew. rewrite H_allowed in Hnew.
  rewrite andb_false_r in Hnew. discriminate.
Qed.

Lemma filterM_returns {X} (G : X -> Prop) (cond : X -> M bool) l :
  (forall x, returns (fun b => b = true -> G x) (cond x)) ->
  returns (Forall G) (filterM cond l).
Proof.
  intros Hc. induction l as [| x l IH]; simpl.
  - intros s h a [= <-]. constructor.
  - intros s h a. rewrite res_bind.
    destruct (res (cond x s h)) as [b |] eqn:Hb; [| discriminate].
    rewrite res_bind.
    destruct (res (filterM cond l _ _)) as [keep |] eqn:Hk; [| discriminate].
    intros [= <-]. apply IH in Hk. apply Hc in Hb.
    destruct b; [constructor; auto | exact Hk].
Qed.

Lemma iptables_stage_spares deny_hosts :
  emits (spares H) (iptables_stage K P E deny_hosts).
Proof.
  unfold iptables_stage, when.
  destruct (truthy (IPTABLES P)); [| apply emits_ret].
  apply emits_bind; [apply emits_get | intros s0].
  apply emits_bind; [emits_walk ltac:(exact I) | intros _].
  apply emits_bind_returns
    with (R := Forall (fun x => allowed_hosts P x = false)).
  - emits_walk ltac:(exact I).
  - apply filterM_returns. intros x.
    destruct (allowed_hosts P x) eqn:Hx.
    + intros s h b. rewrite bind_get. cbn. intros [= <-]. discriminate.
    + intros s h b _ _. reflexivity.
  - intros fw_hosts Hfw. destruct (is_nonempty fw_hosts); [| apply emits_ret].
    apply firewall_block_spares. intros Hin.
    rewrite List.Forall_forall in Hfw. specialize (Hfw _ Hin). congruence.
Qed.

Lemma update_hosts_deny_spares deny_hosts :
  emits (spares H) (update_hosts_deny K P E deny_hosts).
Proof.
  unfold update_hosts_deny.
  destruct (negb (is_nonempty deny_hosts)); [apply emits_ret |].
  apply emits_bind; [apply iptables_stage_spares | intros _].
  apply emits_bind; [apply emits_get | intros s1].
  destruct (negb (is_nonempty _)); [apply emits_ret |].
  apply emits_bind.
  - unfold pf_stage, when. destruct (_ && _); [| apply emits_ret].
    apply firewall_block_spares. apply new_hosts_spare.
  - intros _. eapply emits_mono; [| apply append_stage_no_firewall].
    intros [] He; try exact I. discriminate.
Qed.

End Allowed.

(** C7.  A host of the allow-list is never handed to [firewall_block] and
    never written to the access-control file, whatever the candidates are:
    every entry into [firewall_block] is with hosts other than [H], what is
    written to the file is the entries of hosts other than [H], and [H] is
    not among the new hosts returned. *)
Theorem allow_list_supremacy deny_hosts H s h :
  allowed_hosts P H = true ->
  let r := update_hosts_deny K P E deny_hosts s h in
  (forall hosts, In (EFirewallBlock hosts) (out r) -> ~ In H hosts) /\
  (exists hosts, ~ In H hosts /\
                 entry_texts K P hosts (written HostsDenyFile (out r))) /\
  (forall hosts status, res r = Ok (Some hosts, status) -> ~ In H hosts).
Proof.
  intros Hallowed r. subst r. split; [| split].
  - intros hosts Hin.
    pose proof (update_hosts_deny_spares H Hallowed deny_hosts s h) as Hsp.
    rewrite List.Forall_forall in Hsp. exact (Hsp _ Hin).
  - destruct (update_hosts_deny_eq deny_hosts s h) as (o_fw & s1 & Ha & Hd & Heq).
    rewrite Heq. clear Heq.
    destruct (is_nonempty _); cbn [res st out fst snd].
    + destruct (append_stage_run (List.filter (is_new_host P s) deny_hosts)
                  s1 (h ++ o_fw)) as (_ & _ & Ht & Hw & _).
      cbv zeta in *. rewrite written_app, (alphabet_written _ o_fw) by auto.
      destruct (env_open E (h ++ o_fw) HostsDenyFile (HOSTS_DENY P) "a").
      * exists (List.filter (is_new_host P s) deny_hosts).
        split; [apply new_hosts_spare; exact Hallowed | exact Ht].
      * exists []. split; [intros [] |]. rewrite Hw. constructor.
    + exists []. split; [intros [] |].
      rewrite (alphabet_written _ o_fw) by auto. constructor.
  - intros hosts status.
    destruct (update_hosts_deny_eq deny_hosts s h) as (o_fw & s1 & Ha & Hd & Heq).
    rewrite Heq. clear Heq.
    destruct (is_nonempty _); cbn [res st out fst snd]; [| discriminate].
    destruct (append_stage_run (List.filter (is_new_host P s) deny_hosts)
                s1 (h ++ o_fw)) as (Hr & _).
    rewrite Hr. intros [= <- _]. apply new_hosts_spare. exact Hallowed.
Qed.

(** *** The plugin *)

Lemma undecided_plugin_calls tr : Forall undecided tr -> plugin_calls tr = [].
Proof.
  intros Htr. apply plugin_calls_none. eapply Forall_impl; [exact Htr |].
  intros [] He; try exact I; destruct He.
Qed.

Lemma undecided_not_get tr dh : Forall undecided tr -> ~ In (EGetDenyHosts dh) tr.
Proof.
  intros Htr Hin. rewrite List.Forall_forall in Htr. exact (Htr _ Hin).
Qed.

Lemma open_log_undecided logfile : emits undecided (open_log K E logfile).
Proof. emits_walk ltac:(exact I). Qed.

Lemma read_log_undecided offset : emits undecided (read_log K P E offset).
Proof. emits_walk ltac:(exact I). Qed.

Lemma flush_report_undecided : emits undecided (flush_report P E).
Proof. emits_walk ltac:(exact I). Qed.

Lemma sync_add_hosts_undecided hosts : emits undecided (sync_add_hosts K P E hosts).
Proof. emits_walk ltac:(exact I). Qed.

Lemma sync_add_hosts_total hosts : total (sync_add_hosts K P E hosts).
Proof. total_walk. Qed.

Lemma open_log_keeps logfile : keeps (fun s => s) (open_log K E logfile).
Proof. keeps_walk ltac:(reflexivity). Qed.

Lemma read_log_keeps offset : keeps (fun s => s) (read_log K P E offset).
Proof. keeps_walk ltac:(reflexivity). Qed.

Lemma update_hosts_deny_reads_no_candidates deny_hosts dh s h :
  ~ In (EGetDenyHosts dh) (out (update_hosts_deny K P E deny_hosts s h)).
Proof.
  revert s h.
  assert (Hem : emits (fun e => match e with EGetDenyHosts _ => False | _ => True end)
                      (update_hosts_deny K P E deny_hosts))
    by emits_walk ltac:(exact I).
  intros s h Hin. specialize (Hem s h).
  rewrite List.Forall_forall in Hem. exact (Hem _ Hin).
Qed.

(** The block [if new_denied_hosts: ...] calls the plugin once. *)
Lemma report_denied_run new_hosts status s h :
  is_nonempty new_hosts = true ->
  truthy (PLUGIN_DENY P) = true ->
  plugin_calls (out (report_denied K P E (Some new_hosts, status) s h))
    = [(PLUGIN_DENY P, new_hosts)] /\
  res (report_denied K P E (Some new_hosts, status) s h) = Ok tt /\
  forall dh, ~ In (EGetDenyHosts dh)
                  (out (report_denied K P E (Some new_hosts, status) s h)).
Proof.
  intros Hne Hplug. unfold report_denied. cbv zeta. cbn [fst snd from_option id].
  rewrite Hne, Hplug, !when_true.
  set (title := if negb (truthyZ status) then _ else _).
  rewrite (bind_ok _ _ s h tt s [EReportSection title new_hosts] eq_refl).
  assert (Htot : total (when (truthy (SYNC_SERVER P)) (sync_add_hosts K P E new_hosts)))
    by (apply total_when, sync_add_hosts_total).
  assert (Hund : emits undecided
                   (when (truthy (SYNC_SERVER P)) (sync_add_hosts K P E new_hosts)))
    by (apply emits_when, sync_add_hosts_undecided).
  set (h1 := h ++ _).
  destruct (total_run _ s h1 Htot) as [[] Hsync].
  specialize (Hund s h1).
  rewrite (bind_ok _ _ _ _ _ _ _ Hsync). cbn [emit res st out fst snd].
  set (o_sync := out _) in *.
  split; [| split].
  - cbn [plugin_calls app]. rewrite plugin_calls_app, (undecided_plugin_calls _ Hund).
    reflexivity.
  - reflexivity.
  - intros dh [Hin | Hin]; [discriminate |]. cbn [app] in Hin.
    apply in_app_iff in Hin. destruct Hin as [Hin | [Hin | []]]; [| discriminate].
    exact (undecided_not_get _ _ Hund Hin).
Qed.

(** From the call of [update_hosts_deny] to the end of [process_log]. *)
Lemma process_log_end_run dh (offset : Z) s h :
  let m := r <- update_hosts_deny K P E dh ;;
           report_denied K P E r ;; flush_report P E ;; ret offset in
  (forall dh', ~ In (EGetDenyHosts dh') (out (m s h))) /\
  (truthy (PLUGIN_DENY P) = true ->
   is_nonempty (List.filter (is_new_host P s) dh) = true ->
   plugin_calls (out (m s h))
   = [(PLUGIN_DENY P, List.filter (is_new_host P s) dh);
      (PLUGIN_DENY P, List.filter (is_new_host P s) dh)]).
Proof.
  intros m. split.
  - assert (Hem : emits (fun e => match e with EGetDenyHosts _ => False | _ => True end) m)
      by (subst m; emits_walk ltac:(exact I)).
    intros dh' Hin. specialize (Hem s h).
    rewrite List.Forall_forall in Hem. exact (Hem _ Hin).
  - intros Hplug Hnew. subst m.
    destruct (update_hosts_deny_eq dh s h) as (o_fw & s1 & Ha & Hd & Heq).
    rewrite Hnew in Heq.
    destruct (append_stage_run (List.filter (is_new_host P s) dh) s1 (h ++ o_fw))
      as (Hr & Hs & _ & _ & Hp & _).
    cbv zeta in *. rewrite Hr, Hs, Hplug in *.
    rewrite (bind_ok _ _ _ _ _ _ _ Heq). cbn [res st out fst snd].
    set (nh := List.filter (is_new_host P s) dh) in *.
    set (o_app := out (append_stage K P E nh s1 (h ++ o_fw))) in *.
    set (h1 := h ++ o_fw ++ o_app).
    set (status := Some (if env_open E (h ++ o_fw) HostsDenyFile (HOSTS_DENY P) "a"
                         then 1 else 0)).
    destruct (report_denied_run nh status s1 h1 Hnew Hplug) as (Hp2 & Hr2 & _).
    pose proof (run_eta (report_denied K P E (Some nh, status) s1 h1)) as Hrep.
    rewrite Hr2 in Hrep.
    rewrite (bind_ok _ _ _ _ _ _ _ Hrep). cbn [res st out fst snd].
    rewrite !plugin_calls_app, (alphabet_plugin_calls _ Ha), Hp, Hp2.
    rewrite out_bind.
    pose proof (flush_report_undecided
                  (st (report_denied K P E (Some nh, status) s1 h1))
                  (h1 ++ out (report_denied K P E (Some nh, status) s1 h1)))
      as Hfl.
    destruct (res (flush_report P E _ _)); cbn [ret out snd];
      rewrite ?plugin_calls_app, (undecided_plugin_calls _ Hfl); reflexivity.
Qed.

(** C9.  In a run of [process_log] with a plugin configured, when the
    attempt store hands over candidates of which some are new, the plugin
    is called exactly twice, both times with the list of the new hosts:
    once by [update_hosts_deny] and once by [process_log] itself. *)
Theorem process_log_runs_plugin_twice logfile offset s h deny_hosts :
  truthy (PLUGIN_DENY P) = true ->
  In (EGetDenyHosts deny_hosts) (out (process_log K P E logfile offset s h)) ->
  is_nonempty (List.filter (is_new_host P s) deny_hosts) = true ->
  plugin_calls (out (process_log K P E logfile offset s h))
  = [(PLUGIN_DENY P, List.filter (is_new_host P s) deny_hosts);
     (PLUGIN_DENY P, List.filter (is_new_host P s) deny_hosts)].
Proof.
  intros Hplug Hin Hnew. unfold process_log in *.
  pose proof (open_log_undecided logfile s h) as Hu1.
  pose proof (open_log_keeps logfile s h) as Hk1. cbv beta in Hk1.
  rewrite out_bind in *.
  destruct (res (open_log K E logfile s h)) as [opened |];
    [| destruct (undecided_not_get _ _ Hu1 Hin)].
  rewrite Hk1 in *. set (o1 := out (open_log K E logfile s h)) in *.
  destruct opened; cbn [negb] in *;
    [| cbn [ret out snd] in Hin; rewrite app_nil_r in Hin;
       destruct (undecided_not_get _ _ Hu1 Hin)].
  pose proof (read_log_undecided offset s (h ++ o1)) as Hu2.
  pose proof (read_log_keeps offset s (h ++ o1)) as Hk2. cbv beta in Hk2.
  rewrite out_bind in *.
  destruct (res (read_log K P E offset s (h ++ o1))) as [offset' |].
  2:{ apply in_app_iff in Hin. destruct Hin as [Hin | Hin];
      [destruct (undecided_not_get _ _ Hu1 Hin)
      | destruct (undecided_not_get _ _ Hu2 Hin)]. }
  rewrite Hk2 in *. set (o2 := out (read_log K P E offset s (h ++ o1))) in *.
  rewrite out_bind in *. cbn [ask res st out fst snd] in *.
  set (h3 := (h ++ o1) ++ o2) in *.
  set (dh := env_get_deny_hosts E h3) in *.
  set (h4 := h3 ++ [EGetDenyHosts dh]) in *.
  destruct (process_log_end_run dh offset' s h4) as (Hnoget & Hcalls).
  cbv zeta in *.
  assert (Hdh : dh = deny_hosts).
  { apply in_app_iff in Hin.
    destruct Hin as [Hin | Hin]; [destruct (undecided_not_get _ _ Hu1 Hin) |].
    apply in_app_iff in Hin.
    destruct Hin as [Hin | Hin]; [destruct (undecided_not_get _ _ Hu2 Hin) |].
    destruct Hin as [Hin | Hin]; [congruence |].
    destruct (Hnoget _ Hin). }
  rewrite <- Hdh in *.
  rewrite !plugin_calls_app, (undecided_plugin_calls _ Hu1),
    (undecided_plugin_calls _ Hu2), (Hcalls Hplug Hnew).
  reflexivity.
Qed.

End Update.

(** ** The scheduler *)

(** The counter equals the quotient [a / b] exactly when [a = c * b]. *)
Lemma counter_eq_exact (c a b : Z) :
  0 < b -> counter_eq c (Some (inject_Z a / inject_Z b)%Q) = true <-> a = c * b.
Proof.
  intros Hb. unfold counter_eq. rewrite Qeq_bool_iff.
  assert (Hnz : ~ (inject_Z b == 0)%Q) by (unfold Qeq; simpl; lia).
  split.
  - intros Heq.
    assert (H2 : (inject_Z c * inject_Z b == inject_Z a)%Q).
    { rewrite Heq. field. exact Hnz. }
    rewrite <- inject_Z_mult in H2. unfold Qeq in H2. simpl in H2. lia.
  - intros ->. rewrite inject_Z_mult. field. exact Hnz.
Qed.

(** No counter equals a quotient that is not an integer. *)
Lemma counter_eq_off_multiple (c a b : Z) :
  0 < b -> a mod b <> 0 -> counter_eq c (Some (inject_Z a / inject_Z b)%Q) = false.
Proof.
  intros Hb Hmod.
  destruct (counter_eq c (Some (inject_Z a / inject_Z b)%Q)) eqn:Heq; [| reflexivity].
  apply counter_eq_exact in Heq; [| exact Hb]. subst a.
  rewrite Z.mod_mul in Hmod by lia. contradiction.
Qed.

Lemma sync_failed_app e tr1 tr2 :
  sync_failed e (tr1 ++ tr2) <-> sync_failed e tr1 \/ sync_failed e tr2.
Proof. unfold sync_failed. rewrite !in_app_iff. tauto. Qed.

Lemma quiet_not_failed e tr :
  Forall (fun ev => is_sync_failure ev = false) tr -> ~ sync_failed e tr.
Proof.
  intros Hq [Hin | Hin]; rewrite List.Forall_forall in Hq;
    specialize (Hq _ Hin); discriminate.
Qed.

Lemma propagates_quiet {A} (m : M A) :
  emits (fun ev => is_sync_failure ev = false) m -> propagates m.
Proof. intros Hq s h e Hf. destruct (quiet_not_failed _ _ (Hq s h) Hf). Qed.

Lemma propagates_bind {A B} (m : M A) (f : A -> M B) :
  propagates m -> (forall a, propagates (f a)) -> propagates (bind m f).
Proof.
  intros Hm Hf s h e. rewrite out_bind, res_bind.
  specialize (Hm s h e).
  destruct (res (m s h)) as [a | e0].
  - intros Hfail. apply sync_failed_app in Hfail.
    destruct Hfail as [Hfail | Hfail]; [apply Hm in Hfail; discriminate |].
    exact (Hf a _ _ e Hfail).
  - intros Hfail. apply Hm in Hfail. injection Hfail as ->. reflexivity.
Qed.

Lemma blames_quiet G {A} (m : M A) :
  emits (fun ev => is_sync_failure ev = false) m -> blames G m.
Proof. intros Hq s h e Hf. destruct (quiet_not_failed _ _ (Hq s h) Hf). Qed.

Lemma blames_bind G {A B} (m : M A) (f : A -> M B) :
  blames G m -> (forall a, blames G (f a)) -> blames G (bind m f).
Proof.
  intros Hm Hf s h e. rewrite out_bind, res_bind, st_bind.
  specialize (Hm s h e).
  destruct (res (m s h)) as [a | e0].
  - intros Hfail. apply sync_failed_app in Hfail.
    destruct Hfail as [Hfail | Hfail].
    + apply Hm in Hfail. destruct Hfail as [Hr _]. discriminate.
    + destruct (Hf a _ _ e Hfail) as (Hr & Hlog & HG).
      split; [exact Hr |]. split; [| exact HG].
      apply in_app_iff. right. exact Hlog.
  - intros Hfail. apply Hm in Hfail. destruct Hfail as (Hr & Hlog & HG).
    injection Hr as ->. repeat split; assumption.
Qed.

(** Walks down a computation, blaming what is not quiet on the facts at hand. *)
Ltac blames_walk :=
  repeat (cbv beta zeta;
    lazymatch goal with
    | |- blames _ (bind _ _) => apply blames_bind; [| intros ?]
    | |- blames _ (when _ _) => unfold when
    | |- blames _ (if ?b then _ else _) => split_cond b
    | |- blames _ (match ?x with _ => _ end) => split_cond x
    | |- blames _ ?m =>
        first [ solve [ match goal with H : _ |- _ => apply H end ]
              | solve [ apply blames_quiet; emits_walk ltac:(reflexivity) ]
              | let f := head_of m in progress unfold f ]
    end).

Section Scheduler.

Variable K : constants.
Variable P : prefs.
Variable E : Env.




(** The exchange with the sync server is missed in the same way. *)
Lemma sleepAndPurge_no_sync sleep_time purge_time purge_sleep_ratio sync_sleep_ratio :
  (forall c, counter_eq c sync_sleep_ratio = false) ->
  emits (fun e => is_sync_event e = false)
    (sleepAndPurge K P E sleep_time purge_time purge_sleep_ratio sync_sleep_ratio).
Proof.
  intros Hnever. unfold sleepAndPurge.
  apply emits_bind; [emits_walk ltac:(reflexivity) | intros _].
  apply emits_bind; [emits_walk ltac:(reflexivity) | intros _].
  unfold when at 1. destruct (truthy_ratio sync_sleep_ratio); [| apply emits_ret].
  apply emits_bind; [apply emits_get | intros s0].
  apply emits_bind; [apply emits_modify | intros _].
  apply emits_bind; [apply emits_get | intros s1].
  rewrite Hnever. apply emits_ret.
Qed.

Lemma daemon_turns_no_sync n logfile daemon_sleep purge_time
    purge_sleep_ratio sync_sleep_ratio v :
  (forall c, counter_eq c sync_sleep_ratio = false) ->
  emits (fun e => is_sync_event e = false)
    (daemon_turns K P E n logfile daemon_sleep purge_time
       purge_sleep_ratio sync_sleep_ratio v).
Proof.
  intros Hnever. revert v. induction n as [| n IH]; intros v; simpl.
  - apply emits_ret.
  - apply emits_bind; [| intros v'; apply IH].
    pose proof (sleepAndPurge_no_sync daemon_sleep purge_time
                  purge_sleep_ratio sync_sleep_ratio Hnever) as Hsleep.
    assert (Hnone : emits (fun e => is_sync_event e = false)
                      (sleepAndPurge K P E daemon_sleep purge_time
                         purge_sleep_ratio None))
      by (apply sleepAndPurge_no_sync; reflexivity).
    clear IH Hnever.
    unfold daemon_iteration. emits_walk ltac:(reflexivity).
Qed.

Lemma sync_never_fires_off_multiple n logfile last_offset s h :
  truthyZ (SYNC_INTERVAL P) && truthy (SYNC_SERVER P) = true ->
  0 < DAEMON_SLEEP P ->
  clamped_sync_interval K P mod DAEMON_SLEEP P <> 0 ->
  Forall (fun e => is_sync_event e = false)
         (out (runDaemon K P E n logfile last_offset s h)).
Proof.
  intros Hsync Hsleep Hmod. revert s h.
  change (emits (fun e => is_sync_event e = false) (runDaemon K P E n logfile last_offset)).
  unfold runDaemon.
  apply emits_bind; [emits_walk ltac:(reflexivity) | intros _].
  apply emits_bind; [emits_walk ltac:(reflexivity) | intros _].
  apply emits_bind; [emits_walk ltac:(reflexivity) | intros purge_sleep_ratio].
  apply emits_bind_returns with (R := fun r => forall c, counter_eq c r = false).
  - emits_walk ltac:(reflexivity).
  - unfold sync_ratio, truediv. rewrite Hsync. cbv zeta.
    destruct (Z.eqb_spec (DAEMON_SLEEP P) 0) as [Hz | _]; [lia |].
    intros s h a. cbn. intros [= <-] c.
    apply counter_eq_off_multiple; assumption.
  - intros sync_sleep_ratio Hnever.
    unfold daemonLoop.
    apply emits_bind; [emits_walk ltac:(reflexivity) | intros _].
    apply emits_bind; [emits_walk ltac:(reflexivity) | intros ino].
    apply daemon_turns_no_sync. exact Hnever.
Qed.

(** *** A failing transfer with the sync server *)

Lemma sync_exchange_keeps_counter : keeps sync_counter (sync_exchange K P E).
Proof. keeps_walk ltac:(reflexivity). Qed.

Lemma upload_propagates :
  propagates (r <- ask (env_sync_send E) ESyncSend ;; lift r ;; ret tt).
Proof.
  intros s h e. unfold bind, ask, lift, res, out. cbn.
  destruct (env_sync_send E h) as [timestamp | e0]; cbn.
  - intros [[Hin | []] | [Hin | []]]; discriminate.
  - intros [[Hin | []] | [Hin | []]]; congruence.
Qed.

Lemma download_propagates :
  propagates
    (r <- ask (env_sync_receive E) ESyncReceive ;;
     new_hosts <- lift r ;;
     when (is_nonempty new_hosts)
       (get_denied_hosts K P E ;; update_hosts_deny K P E new_hosts ;; ret tt)).
Proof.
  intros s h e. rewrite out_bind, res_bind. cbn [ask res st out fst snd].
  destruct (env_sync_receive E h) as [new_hosts | e0]; cbn [lift].
  - intros Hfail. apply sync_failed_app in Hfail.
    destruct Hfail as [[[Hin | []] | [Hin | []]] | Hfail]; try discriminate.
    exfalso. revert Hfail. apply quiet_not_failed.
    assert (Hq : emits (fun ev => is_sync_failure ev = false)
                   (new_hosts0 <- ret new_hosts ;;
                    when (is_nonempty new_hosts0)
                      (get_denied_hosts K P E ;;
                       update_hosts_deny K P E new_hosts0 ;; ret tt)))
      by emits_walk ltac:(reflexivity).
    exact (Hq _ _).
  - unfold bind, raise, res, out. cbn.
    intros [[Hin | []] | [Hin | []]]; congruence.
Qed.

(** The transfers pass on what a transfer raises. *)
Lemma sync_transfers_propagates : propagates (sync_transfers K P E).
Proof.
  unfold sync_transfers.
  apply propagates_bind; [apply propagates_quiet; emits_walk ltac:(reflexivity) |].
  intros _. apply propagates_bind.
  { unfold when. destruct (SYNC_UPLOAD P);
      [apply upload_propagates | apply propagates_quiet, emits_ret]. }
  intros _. apply propagates_bind.
  { unfold when. destruct (SYNC_DOWNLOAD P);
      [apply download_propagates | apply propagates_quiet, emits_ret]. }
  intros _. apply propagates_quiet. emits_walk ltac:(reflexivity).
Qed.

(** In [sync_exchange], a transfer that raises [e] makes the block log [e]
    and raise it again; the sync counter is as it was. *)
Lemma sync_exchange_blames s h e :
  sync_failed e (out (sync_exchange K P E s h)) ->
  res (sync_exchange K P E s h) = Raise e /\
  In (ELogException e) (out (sync_exchange K P E s h)) /\
  sync_counter (st (sync_exchange K P E s h)) = sync_counter s.
Proof.
  intros Hfail. split; [| split]; [| | apply sync_exchange_keeps_counter].
  all: revert Hfail; unfold sync_exchange, try_except.
  all: pose proof (sync_transfers_propagates s h e) as Hbody;
       unfold res, out in Hbody;
       destruct (sync_transfers K P E s h) as [[[a | e0] s1] o1].
  all: cbn in *; unfold res, out; cbn.
  - intros Hfail. apply Hbody in Hfail. discriminate.
  - intros Hfail. apply sync_failed_app in Hfail.
    destruct Hfail as [Hfail | [[Hin | []] | [Hin | []]]]; try discriminate.
    apply Hbody in Hfail. congruence.
  - intros Hfail. apply Hbody in Hfail. discriminate.
  - intros Hfail. apply sync_failed_app in Hfail.
    destruct Hfail as [Hfail | [[Hin | []] | [Hin | []]]]; try discriminate.
    apply Hbody in Hfail. injection Hfail as ->.
    apply in_app_iff. right. left. reflexivity.
Qed.

(** The same for a whole tick: the counter is left where it was when the
    exchange started. *)
Lemma sleepAndPurge_blames sleep_time purge_time purge_sleep_ratio sync_sleep_ratio :
  blames (counter_left_at sync_sleep_ratio)
    (sleepAndPurge K P E sleep_time purge_time purge_sleep_ratio sync_sleep_ratio).
Proof.
  unfold sleepAndPurge.
  apply blames_bind; [apply blames_quiet; emits_walk ltac:(reflexivity) | intros _].
  apply blames_bind; [apply blames_quiet; emits_walk ltac:(reflexivity) | intros _].
  unfold when at 1. destruct (truthy_ratio sync_sleep_ratio);
    [| apply blames_quiet, emits_ret].
  apply blames_bind; [apply blames_quiet, emits_get | intros s0].
  apply blames_bind; [apply blames_quiet, emits_modify | intros _].
  intros s1 h e. rewrite bind_get. unfold when.
  destruct (counter_eq (sync_counter s1) sync_sleep_ratio) eqn:Hc.
  - rewrite out_bind, res_bind, st_bind. intros Hfail.
    assert (Hx : sync_failed e (out (sync_exchange K P E s1 h))).
    { destruct (res (sync_exchange K P E s1 h)); [| exact Hfail].
      apply sync_failed_app in Hfail. destruct Hfail as [Hfail | Hfail];
        [exact Hfail | destruct Hfail as [[] | []]]. }
    destruct (sync_exchange_blames s1 h e Hx) as (Hr & Hlog & Hcount).
    rewrite Hr. repeat split; [exact Hlog |].
    unfold counter_left_at. rewrite Hcount. exact Hc.
  - intros [[] | []].
Qed.

(** Without a sync ratio there is no exchange. *)
Lemma sleepAndPurge_unsynced_quiet sleep_time purge_time purge_sleep_ratio :
  emits (fun ev => is_sync_failure ev = false)
    (sleepAndPurge K P E sleep_time purge_time purge_sleep_ratio None).
Proof.
  unfold sleepAndPurge.
  apply emits_bind; [emits_walk ltac:(reflexivity) | intros _].
  apply emits_bind; [emits_walk ltac:(reflexivity) | intros _].
  apply emits_ret.
Qed.

Lemma daemon_turns_blames n logfile daemon_sleep purge_time
    purge_sleep_ratio sync_sleep_ratio v :
  blames (counter_left_at sync_sleep_ratio)
    (daemon_turns K P E n logfile daemon_sleep purge_time
       purge_sleep_ratio sync_sleep_ratio v).
Proof.
  revert v. induction n as [| n IH]; intros v; simpl.
  - apply blames_quiet, emits_ret.
  - apply blames_bind; [| intros v'; apply IH]. clear IH.
    pose proof (sleepAndPurge_blames daemon_sleep purge_time purge_sleep_ratio
                  sync_sleep_ratio) as Hsync.
    pose proof (blames_quiet (counter_left_at sync_sleep_ratio) _
                  (sleepAndPurge_unsynced_quiet daemon_sleep purge_time
                     purge_sleep_ratio)) as Hnone.
    unfold daemon_iteration. blames_walk.
Qed.

(** C4, as the code has it.  A transfer with the sync server that raises
    [e] ends the daemon loop: the exception is logged and raised again, it
    leaves [sleepAndPurge] and the loop, and the sync counter is left at the
    value that started the exchange instead of being reset. *)
Theorem sync_failure_ends_daemon n logfile last_offset daemon_sleep purge_time
    purge_sleep_ratio sync_sleep_ratio s h e :
  sync_failed e
    (out (daemonLoop K P E n logfile last_offset daemon_sleep purge_time
            purge_sleep_ratio sync_sleep_ratio s h)) ->
  let r := daemonLoop K P E n logfile last_offset daemon_sleep purge_time
             purge_sleep_ratio sync_sleep_ratio s h in
  res r = Raise e /\
  In (ELogException e) (out r) /\
  counter_eq (sync_counter (st r)) sync_sleep_ratio = true.
Proof.
  intros Hfail r. subst r. revert s h e Hfail.
  change (blames (counter_left_at sync_sleep_ratio)
            (daemonLoop K P E n logfile last_offset daemon_sleep purge_time
               purge_sleep_ratio sync_sleep_ratio)).
  unfold daemonLoop.
  apply blames_bind; [apply blames_quiet; emits_walk ltac:(reflexivity) | intros _].
  apply blames_bind; [apply blames_quiet; emits_walk ltac:(reflexivity) | intros ino].
  apply daemon_turns_blames.
Qed.

(** *** A truncated log *)

Lemma sleepAndPurge_stats_nothing sleep_time purge_time purge_sleep_ratio sync_sleep_ratio :
  emits (fun ev => match ev with EFstatSize _ => False | _ => True end)
    (sleepAndPurge K P E sleep_time purge_time purge_sleep_ratio sync_sleep_ratio).
Proof. emits_walk ltac:(exact I). Qed.

Lemma follow_stats_nothing logfile daemon_sleep purge_time purge_sleep_ratio
    sync_sleep_ratio v offset :
  emits (fun ev => match ev with EFstatSize _ => False | _ => True end)
    (follow K P E logfile daemon_sleep purge_time purge_sleep_ratio
       sync_sleep_ratio v offset).
Proof. emits_walk ltac:(exact I). Qed.

(** After the rotation check the stored offset has not decreased, the
    object is the same, and nothing but a close and an open has happened. *)
Lemma reopen_if_rotated_run logfile curr_inode v stored s h :
  last_offset v = Some stored ->
  stored <= sys_maxsize ->
  let r := reopen_if_rotated E logfile curr_inode v s h in
  st r = s /\
  Forall (fun ev => is_tick_event ev = false) (out r) /\
  Forall (fun ev => match ev with EFstatSize _ => False | _ => True end) (out r) /\
  forall v', res r = Ok v' ->
    exists stored', last_offset v' = Some stored' /\ stored <= stored'.
Proof.
  intros Hstored Hmax. unfold reopen_if_rotated.
  destruct (negb (curr_inode =? inode v)).
  - unfold bind, close, open_file, ask, emit, ret, raise, res, st, out. cbn.
    destruct (env_open E _ LogFile logfile "r"); cbn.
    + repeat split; repeat constructor.
      intros v' [= <-]. exists sys_maxsize. split; [reflexivity | exact Hmax].
    + repeat split; repeat constructor. intros v' [=].
  - cbn. repeat split; try constructor.
    intros v' [= <-]. exists stored. split; [exact Hstored | lia].
Qed.

(** The third branch of the loop body. *)
Lemma follow_truncated logfile daemon_sleep purge_time purge_sleep_ratio
    sync_sleep_ratio v offset stored s h :
  last_offset v = Some stored -> offset <> 0 -> offset < stored ->
  follow K P E logfile daemon_sleep purge_time purge_sleep_ratio
    sync_sleep_ratio v offset s h
  = (Ok {| inode := inode v; last_offset := Some 0 |}, s, [EUpdateFirstLine]).
Proof.
  intros Hstored Hnz Hlt. unfold follow. rewrite Hstored. cbn [from_option id].
  destruct (Z.gtb_spec offset stored) as [Hgt | _]; [lia |].
  destruct (Z.eqb_spec offset 0) as [Hz | _]; [contradiction |].
  destruct (Z.ltb_spec offset stored) as [_ | Hge]; [| lia].
  reflexivity.
Qed.

(** C10.  In a turn of the daemon loop that finds the log with a size that
    is not zero and is below the stored offset, the offset becomes 0, the
    first-line fingerprint is updated, and the turn ends there: the object
    is unchanged, and the trace of the turn ends with the size query and
    the update, with no sleep, purge or sync action before them. *)
Theorem truncated_log_rewinds logfile daemon_sleep purge_time
    purge_sleep_ratio sync_sleep_ratio v s h size stored :
  last_offset v = Some stored ->
  stored <= sys_maxsize ->
  In (EFstatSize size)
     (out (daemon_iteration K P E logfile daemon_sleep purge_time
             purge_sleep_ratio sync_sleep_ratio v s h)) ->
  size <> 0 ->
  size < stored ->
  let r := daemon_iteration K P E logfile daemon_sleep purge_time
             purge_sleep_ratio sync_sleep_ratio v s h in
  (exists ino, res r = Ok {| inode := ino; last_offset := Some 0 |}) /\
  st r = s /\
  exists pre, out r = pre ++ [EFstatSize size; EUpdateFirstLine] /\
              Forall (fun ev => is_tick_event ev = false) pre.
Proof.
  intros Hstored Hmax Hin Hnz Hlt r. subst r. revert Hin.
  unfold daemon_iteration.
  rewrite (bind_ok _ _ s h (env_stat E h logfile) s
             [EStat logfile (env_stat E h logfile)] eq_refl).
  cbn [res st out fst snd].
  destruct (env_stat E h logfile) as [curr_inode |].
  2:{ (* the log is gone: the size is not queried *)
      intros [Hin | Hin]; [discriminate |]. exfalso. revert Hin.
      assert (Hq : emits (fun ev => match ev with EFstatSize _ => False | _ => True end)
                     (sleepAndPurge K P E daemon_sleep purge_time purge_sleep_ratio None ;;
                      ret v))
        by (apply emits_bind; [apply sleepAndPurge_stats_nothing | intros _; apply emits_ret]).
      intros Hin. specialize (Hq s (h ++ [EStat logfile None])).
      rewrite List.Forall_forall in Hq. exact (Hq _ Hin). }
  set (h1 := h ++ [EStat logfile (Some curr_inode)]).
  destruct (reopen_if_rotated_run logfile curr_inode v stored s h1 Hstored Hmax)
    as (Hs1 & Htick1 & Hq1 & Hv1).
  cbv zeta in *.
  rewrite out_bind, res_bind, st_bind.
  destruct (res (reopen_if_rotated E logfile curr_inode v s h1)) as [v1 |].
  2:{ intros [Hin | Hin]; [discriminate |]. exfalso.
      rewrite List.Forall_forall in Hq1. exact (Hq1 _ Hin). }
  destruct (Hv1 v1 eq_refl) as (stored1 & Hstored1 & Hle).
  rewrite Hs1.
  set (o1 := out (reopen_if_rotated E logfile curr_inode v s h1)) in *.
  set (h2 := h1 ++ o1).
  rewrite (bind_ok _ _ s h2 (env_fstat_size E h2) s
             [EFstatSize (env_fstat_size E h2)] eq_refl).
  cbn [res st out fst snd].
  set (offset := env_fstat_size E h2).
  set (h3 := h2 ++ [EFstatSize offset]).
  intros Hin.
  assert (Hsize : offset = size).
  { rewrite !in_app_iff in Hin.
    destruct Hin as [[Hin | []] | [Hin | [[Hin | []] | Hin]]];
      [discriminate | | congruence |].
    { exfalso. rewrite List.Forall_forall in Hq1. exact (Hq1 _ Hin). }
    exfalso.
    pose proof (follow_stats_nothing logfile daemon_sleep purge_time
                  purge_sleep_ratio sync_sleep_ratio v1 offset s h3) as Hq.
    rewrite List.Forall_forall in Hq. exact (Hq _ Hin). }
  rewrite (follow_truncated logfile daemon_sleep purge_time purge_sleep_ratio
             sync_sleep_ratio v1 offset stored1 s h3 Hstored1) by lia.
  cbn [res st out fst snd]. rewrite Hsize.
  split; [eexists; reflexivity |]. split; [reflexivity |].
  exists (EStat logfile (Some curr_inode) :: o1).
  split.
  - reflexivity.
  - constructor; [reflexivity | exact Htick1].
Qed.

End Scheduler.

(** ** Runs on the concrete configurations *)

Import Scenario.

Ltac find_in_list := repeat first [left; reflexivity | right].

(** With iptables configured and 192.0.2.1 on the allow-list. *)
Lemma allow_list_supremacy_witness :
  allowed_hosts P_iptables "192.0.2.1" = true /\
  let r := update_hosts_deny K0 P_iptables E0 ["192.0.2.10"; "192.0.2.1"] s0 [] in
  (forall hosts, In (EFirewallBlock hosts) (out r) -> ~ In "192.0.2.1" hosts) /\
  (exists hosts, ~ In "192.0.2.1" hosts /\
                 entry_texts K0 P_iptables hosts (written HostsDenyFile (out r))) /\
  (forall hosts status, res r = Ok (Some hosts, status) -> ~ In "192.0.2.1" hosts).
Proof.
  split; [reflexivity |].
  apply (allow_list_supremacy K0 P_iptables E0
           ["192.0.2.10"; "192.0.2.1"] "192.0.2.1" s0 []).
  reflexivity.
Defined.

(** The access-control file cannot be opened. *)
Lemma update_hosts_deny_open_outcome_witness :
  In (EOpen HostsDenyFile (HOSTS_DENY P_plugin) "a" false)
     (out (update_hosts_deny K0 P_plugin E_readonly
             ["192.0.2.10"; "192.0.2.1"] s0 [])) /\
  let r := update_hosts_deny K0 P_plugin E_readonly
             ["192.0.2.10"; "192.0.2.1"] s0 [] in
  res r = Ok (Some (List.filter (is_new_host P_plugin s0)
                      ["192.0.2.10"; "192.0.2.1"]), Some 0) /\
  entry_texts K0 P_plugin
    (List.filter (is_new_host P_plugin s0) ["192.0.2.10"; "192.0.2.1"])
    (written Stdout (out r)) /\
  written HostsDenyFile (out r) = [].
Proof.
  split; [vm_compute; find_in_list |].
  apply (update_hosts_deny_open_outcome K0 P_plugin E_readonly
           ["192.0.2.10"; "192.0.2.1"] s0 [] false).
  vm_compute. find_in_list.
Defined.

Example update_hosts_deny_readonly_run :
  let r := update_hosts_deny K0 P_plugin E_readonly
             ["192.0.2.10"; "192.0.2.1"] s0 [] in
  res r = Ok (Some ["192.0.2.10"], Some 0) /\
  written Stdout (out r)
  = ["# DenyHosts: Thu Jan  1 00:00:00 1970 | sshd: 192.0.2.10" +:+ nl;
     "sshd: 192.0.2.10" +:+ nl].
Proof. vm_compute. split; reflexivity. Qed.

(** A plugin is configured and one of the two candidates is new. *)
Lemma process_log_runs_plugin_twice_witness :
  truthy (PLUGIN_DENY P_plugin) = true /\
  In (EGetDenyHosts ["192.0.2.10"; "192.0.2.1"])
     (out (process_log K0 P_plugin E_candidates "/var/log/auth.log" 0 s0 [])) /\
  is_nonempty (List.filter (is_new_host P_plugin s0)
                 ["192.0.2.10"; "192.0.2.1"]) = true /\
  plugin_calls (out (process_log K0 P_plugin E_candidates "/var/log/auth.log" 0 s0 []))
  = [(PLUGIN_DENY P_plugin,
      List.filter (is_new_host P_plugin s0) ["192.0.2.10"; "192.0.2.1"]);
     (PLUGIN_DENY P_plugin,
      List.filter (is_new_host P_plugin s0) ["192.0.2.10"; "192.0.2.1"])].
Proof.
  split; [reflexivity |].
  split; [vm_compute; find_in_list |].
  split; [vm_compute; reflexivity |].
  apply (process_log_runs_plugin_twice K0 P_plugin E_candidates
           "/var/log/auth.log" 0 s0 [] ["192.0.2.10"; "192.0.2.1"]).
  - reflexivity.
  - vm_compute. find_in_list.
  - vm_compute. reflexivity.
Defined.

Example process_log_plugin_run :
  plugin_calls (out (process_log K0 P_plugin E_candidates "/var/log/auth.log" 0 s0 []))
  = [("/usr/local/bin/on-deny", ["192.0.2.10"]);
     ("/usr/local/bin/on-deny", ["192.0.2.10"])].
Proof. vm_compute. reflexivity. Qed.


(** Four turns of the daemon, sleeping 60 seconds and purging every 90:
    the counter reaches 4 and the purge has not run. *)
Example runDaemon_purge_90_60 :
  let r := runDaemon K0 P_purge E0 4 "/var/log/auth.log" None s0 [] in
  List.filter is_tick_event (out r) = [ESleep 60; ESleep 60; ESleep 60; ESleep 60] /\
  purge_counter (st r) = 4.
Proof. vm_compute. split; reflexivity. Qed.

(** The same with a purge every 120 seconds: it runs every second turn. *)
Example runDaemon_purge_120_60 :
  let r := runDaemon K0 P_purge_even E0 4 "/var/log/auth.log" None s0 [] in
  List.filter is_tick_event (out r)
  = [ESleep 60; ESleep 60; EPurge (Some 604800) (Ok tt);
     ESleep 60; ESleep 60; EPurge (Some 604800) (Ok tt)] /\
  purge_counter (st r) = 0.
Proof. vm_compute. split; reflexivity. Qed.

(** The sync server cannot be reached. *)
Lemma sync_failure_ends_daemon_witness :
  sync_failed (CollaboratorError "sync")
    (out (daemonLoop K0 P_sync E_sync_down 3 "/var/log/auth.log" None 600 None None
            (Some 1%Q) s0 [])) /\
  let r := daemonLoop K0 P_sync E_sync_down 3 "/var/log/auth.log" None 600 None None
             (Some 1%Q) s0 [] in
  res r = Raise (CollaboratorError "sync") /\
  In (ELogException (CollaboratorError "sync")) (out r) /\
  counter_eq (sync_counter (st r)) (Some 1%Q) = true.
Proof.
  split; [left; vm_compute; find_in_list |].
  apply (sync_failure_ends_daemon K0 P_sync E_sync_down 3 "/var/log/auth.log" None
           600 None None (Some 1%Q) s0 [] (CollaboratorError "sync")).
  left. vm_compute. find_in_list.
Defined.

(** C4, as stated, fails.  Three turns of the daemon are asked for; the
    first exchange with the sync server raises, and the run ends there with
    that exception: one sleep, one attempt, no second turn and no retry. *)
Lemma sync_failure_stops_daemon :
  let r := runDaemon K0 P_sync E_sync_down 3 "/var/log/auth.log" None s0 [] in
  res r = Raise (CollaboratorError "sync") /\
  out r = [ESignals; ELockCreate;
           EOpen LogFile "/var/log/auth.log" "r" true; EFstatInode 7;
           EStat "/var/log/auth.log" (Some 7); EFstatSize 0;
           ESleep 600; ESyncNew;
           ESyncSend (Raise (CollaboratorError "sync"));
           ELogException (CollaboratorError "sync")].
Proof. vm_compute. split; reflexivity. Qed.

(** The log holds 100 bytes and the stored offset is 500. *)
Lemma truncated_log_rewinds_witness :
  let v := {| inode := 7; last_offset := Some 500 |} in
  last_offset v = Some 500 /\
  500 <= sys_maxsize /\
  In (EFstatSize 100)
     (out (daemon_iteration K0 P0 E_small_log "/var/log/auth.log" 30 None None None
             v s0 [])) /\
  100 <> 0 /\
  100 < 500 /\
  let r := daemon_iteration K0 P0 E_small_log "/var/log/auth.log" 30 None None None
             v s0 [] in
  (exists ino, res r = Ok {| inode := ino; last_offset := Some 0 |}) /\
  st r = s0 /\
  exists pre, out r = pre ++ [EFstatSize 100; EUpdateFirstLine] /\
              Forall (fun ev => is_tick_event ev = false) pre.
Proof.
  intros v.
  split; [reflexivity |].
  split; [vm_compute; discriminate |].
  split; [vm_compute; find_in_list |].
  split; [discriminate |].
  split; [reflexivity |].
  apply (truncated_log_rewinds K0 P0 E_small_log "/var/log/auth.log" 30 None None None
           v s0 [] 100 500).
  - reflexivity.
  - vm_compute. discriminate.
  - vm_compute. find_in_list.
  - discriminate.
  - reflexivity.
Defined.

Example daemon_iteration_truncated_run :
  let r := daemon_iteration K0 P0 E_small_log "/var/log/auth.log" 30 None None None
             {| inode := 7; last_offset := Some 500 |} s0 [] in
  res r = Ok {| inode := 7; last_offset := Some 0 |} /\
  out r = [EStat "/var/log/auth.log" (Some 7); EFstatSize 100; EUpdateFirstLine].
Proof. vm_compute. split; reflexivity. Qed.

(** * More properties of the code *)

(** ** More rules *)

(** The three components of a [try]. *)
Lemma res_try {A} (m : M A) handler s h :
  res (try_except m handler s h) =
  match res (m s h) with
  | Ok a => Ok a
  | Raise e => res (handler e (st (m s h)) (h ++ out (m s h)))
  end.
Proof.
  unfold try_except, res, st, out.
  destruct (m s h) as [[[a | e] s1] o1]; simpl; [reflexivity |].
  destruct (handler e s1 (h ++ o1)) as [[r s2] o2]. reflexivity.
Qed.

Lemma st_try {A} (m : M A) handler s h :
  st (try_except m handler s h) =
  match res (m s h) with
  | Ok a => st (m s h)
  | Raise e => st (handler e (st (m s h)) (h ++ out (m s h)))
  end.
Proof.
  unfold try_except, res, st, out.
  destruct (m s h) as [[[a | e] s1] o1]; simpl; [reflexivity |].
  destruct (handler e s1 (h ++ o1)) as [[r s2] o2]. reflexivity.
Qed.

Lemma out_try {A} (m : M A) handler s h :
  out (try_except m handler s h) =
  match res (m s h) with
  | Ok a => out (m s h)
  | Raise e => out (m s h) ++ out (handler e (st (m s h)) (h ++ out (m s h)))
  end.
Proof.
  unfold try_except, res, st, out.
  destruct (m s h) as [[[a | e] s1] o1]; simpl; [reflexivity |].
  destruct (handler e s1 (h ++ o1)) as [[r s2] o2]. reflexivity.
Qed.

Lemma subprocess_calls_app tr1 tr2 :
  subprocess_calls (tr1 ++ tr2) = subprocess_calls tr1 ++ subprocess_calls tr2.
Proof.
  induction tr1 as [| e tr1 IH]; simpl; [reflexivity |].
  destruct e; simpl; congruence.
Qed.

(** [system_execute] from object [s] after history [h]: the object is left
    alone; a code among the valid ones is returned; any other outcome is
    logged twice and raised. *)
Lemma system_execute_run E args valid use_stdout use_stderr s h :
  let ret := env_subprocess E h args in
  system_execute E args valid use_stdout use_stderr s h =
  match ret with
  | Some code =>
      if existsb (Z.eqb code) valid
      then (Ok code, s, [ESubprocess args use_stdout use_stderr ret])
      else (Raise (RuntimeError code), s,
            [ESubprocess args use_stdout use_stderr ret;
             ELog LvError ("Failure to execute " +:+ join " " args);
             ELogExn (RuntimeError code)])
  | None =>
      (Raise (OSError "subprocess.call"), s,
       [ESubprocess args use_stdout use_stderr ret;
        ELog LvError ("Failure to execute " +:+ join " " args);
        ELogExn (OSError "subprocess.call")])
  end.
Proof.
  unfold system_execute, try_except, bind, ask, emit, raise, ret. cbn.
  destruct (env_subprocess E h args) as [code |]; cbn; [| reflexivity].
  destruct (existsb (Z.eqb code) valid); reflexivity.
Qed.

(** A trace without sub-process calls. *)
Lemma no_subprocess_calls tr :
  Forall (fun e => forall a b c r, e <> ESubprocess a b c r) tr ->
  subprocess_calls tr = [].
Proof.
  induction 1 as [| e tr He _ IH]; [reflexivity |].
  destruct e; simpl; try exact IH. exfalso. eapply He. reflexivity.
Qed.

(** ** The firewall *)

(** X1.  [firewall_init] raises nothing.  Either every command went through:
    the object is marked as initialised and nothing was printed; or one did
    not: the object is as it was, and the exception and the text
    "Unable to setup the firewall" are the last things printed. *)
Theorem firewall_init_outcome P E s h :
  let r := firewall_init P E s h in
  res r = Ok tt /\
  (st r = set_fw_initialized true s /\
     Forall (fun e => forall text, e <> EPrint text) (out r)
   \/
   st r = s /\
     exists e tr,
       out r = tr ++ [EPrintExn e; EPrint "Unable to setup the firewall"]).
Proof.
  cbv zeta. unfold firewall_init.
  rewrite res_try, st_try, out_try.
  match goal with
  | |- context [bind ?w (fun _ => modify ?g)] => set (W := w)
  end.
  assert (Hk : keeps (fun s => s) W) by (subst W; keeps_walk ltac:(reflexivity)).
  assert (He : emits (fun e => forall text, e <> EPrint text) W)
    by (subst W; emits_walk ltac:(cbv beta; intros; discriminate)).
  specialize (Hk s h). specialize (He s h). unfold st, out in Hk, He.
  destruct (W s h) as [[[a | e] s1] o1] eqn:EW; simpl in Hk, He; subst s1.
  - rewrite (bind_ok _ _ _ _ _ _ _ EW). cbn.
    split; [reflexivity |]. left. split; [reflexivity |].
    rewrite app_nil_r. exact He.
  - rewrite (bind_raise _ _ _ _ _ _ _ EW). cbn.
    split; [reflexivity |]. right. split; [reflexivity |].
    exists e, o1. reflexivity.
Qed.

(** One check command, and what [firewall_check] makes of its result. *)
Lemma firewall_check_with E host args s h b :
  let m :=
    bind (try_except
            (bind (system_execute E args [0; 1] true true)
               (fun check_result => ret (Some check_result)))
            (fun e =>
               bind (print_exn e) (fun _ =>
               bind (print ("Unable to check if firewall blocks host " +:+ host))
                 (fun _ => ret None))))
      (fun checked =>
         match checked with
         | None => ret false
         | Some check_result =>
             if check_result =? 0
             then bind (modify (add_fw_blocked_host host)) (fun _ => ret true)
             else ret false
         end) in
  res (m s h) = Ok b ->
  st (m s h) = (if b then add_fw_blocked_host host s else s) /\
  subprocess_calls (out (m s h)) = [(args, env_subprocess E h args)] /\
  (b = true <-> env_subprocess E h args = Some 0).
Proof.
  cbv zeta. unfold try_except, bind.
  rewrite system_execute_run. cbv zeta.
  destruct (env_subprocess E h args) as [code |]; cbn.
  - destruct (code =? 0) eqn:E0.
    + apply Z.eqb_eq in E0. subst code. cbn.
      intros [= <-]. repeat split; auto.
    + destruct (code =? 1) eqn:E1; cbn.
      * rewrite E0. cbn. intros [= <-].
        repeat split; try discriminate.
        intros [= ->]. discriminate.
      * intros [= <-]. repeat split; try discriminate.
        intros [= ->]. discriminate.
  - intros [= <-]. repeat split; discriminate.
Qed.

(** X2.  When [firewall_check] answers, the answer tells what became of the
    object: [True] means that the host has been added to the blocked hosts,
    [False] that the object is as it was.  With iptables, exactly one
    command was run, and the answer is [True] exactly when it returned 0. *)
Theorem firewall_check_outcome P E host s h b :
  res (firewall_check P E host s h) = Ok b ->
  st (firewall_check P E host s h) =
    (if b then add_fw_blocked_host host s else s) /\
  (truthy (IPTABLES P) = true ->
   exists args,
     subprocess_calls (out (firewall_check P E host s h)) =
       [(args, env_subprocess E h args)] /\
     (b = true <-> env_subprocess E h args = Some 0)).
Proof.
  unfold firewall_check.
  destruct (truthy (IPTABLES P)) eqn:Hipt.
  - destruct (truthy (IPSET_NAME P) && truthy (IPSET_COMMAND P)); cbv zeta;
      intros Hres;
      match type of Hres with
      | context [system_execute E ?a _ _ _] =>
          destruct (firewall_check_with E host a s h b Hres) as (H1 & H2 & H3);
          (split; [exact H1 | intros _; exists a; split; assumption])
      end.
  - destruct (truthy (PFCTL_PATH P) && truthy (PF_TABLE P)); cbn.
    + discriminate.
    + intros [= <-]. split; [reflexivity | discriminate].
Qed.

(** X3.  Without iptables, [firewall_check] runs no command at all.  When a
    PF table is configured it raises; when no firewall is configured it
    answers [True] and records the host as blocked: the initial value
    [False] of [check_result] equals 0. *)
Theorem firewall_check_without_iptables P E host s h :
  truthy (IPTABLES P) = false ->
  firewall_check P E host s h =
    if truthy (PFCTL_PATH P) && truthy (PF_TABLE P)
    then (Raise (NameError "RuntimeException"), s, [])
    else (Ok true, add_fw_blocked_host host s, []).
Proof.
  intros Hipt. unfold firewall_check. rewrite Hipt.
  destruct (truthy (PFCTL_PATH P) && truthy (PF_TABLE P)); reflexivity.
Qed.

(** One turn of the loop of [firewall_block], for a command [args]. *)
Lemma block_one_run E args host s h :
  bind (system_execute E args [0] true true)
    (fun _ => modify (add_fw_blocked_host host)) s h =
  match env_subprocess E h args with
  | Some code =>
      if code =? 0
      then (Ok tt, add_fw_blocked_host host s,
            [ESubprocess args true true (Some 0)])
      else (Raise (RuntimeError code), s,
            [ESubprocess args true true (Some code);
             ELog LvError ("Failure to execute " +:+ join " " args);
             ELogExn (RuntimeError code)])
  | None =>
      (Raise (OSError "subprocess.call"), s,
       [ESubprocess args true true None;
        ELog LvError ("Failure to execute " +:+ join " " args);
        ELogExn (OSError "subprocess.call")])
  end.
Proof.
  unfold bind. rewrite system_execute_run. cbv zeta.
  destruct (env_subprocess E h args) as [code |]; cbn; [| reflexivity].
  rewrite orb_false_r.
  destruct (code =? 0) eqn:E0; [| reflexivity].
  apply Z.eqb_eq in E0. subst code. reflexivity.
Qed.

(** The loop of [firewall_block] over the hosts, for iptables without
    ipset: the hosts are taken in order; each command that returns 0 adds
    its host to the blocked ones; the first command that does not ends the
    loop. *)
Lemma insert_loop_run P E hosts : forall s h,
  let r := for_each hosts (fun host =>
             bind (system_execute E (insert_rule P host) [0] true true)
               (fun _ => modify (add_fw_blocked_host host))) s h in
  exists k, (k <= List.length hosts)%nat /\
    fw_blocked_hosts (st r) = list_to_set (take k hosts) ∪ fw_blocked_hosts s /\
    exists failed,
      out r = map (fun x => ESubprocess (insert_rule P x) true true (Some 0))
                (take k hosts) ++ failed /\
      match hosts !! k with
      | None => failed = [] /\ res r = Ok tt
      | Some x => exists bad e, bad <> Some 0 /\ res r = Raise e /\
                    subprocess_calls failed = [(insert_rule P x, bad)] /\
                    Forall (fun ev => forall text, ev <> EPrint text) failed
      end.
Proof.
  induction hosts as [| x hosts IH]; intros s h; cbv zeta.
  - exists 0%nat. cbn. split; [lia |].
    split; [symmetry; apply (left_id_L ∅ (∪)) |].
    exists []. repeat split; reflexivity.
  - cbn [for_each].
    pose proof (block_one_run E (insert_rule P x) x s h) as Hone.
    destruct (env_subprocess E h (insert_rule P x)) as [code |] eqn:Ecode;
      [destruct (code =? 0) eqn:E0 |].
    + rewrite (bind_ok _ _ _ _ _ _ _ Hone). cbn [res st out fst snd].
      destruct (IH (add_fw_blocked_host x s)
                   (h ++ [ESubprocess (insert_rule P x) true true (Some 0)]))
        as (k & Hk & Hst & failed & Hout & Hlast).
      exists (S k). split; [simpl; lia |].
      split.
      { rewrite Hst. cbn.
        rewrite (assoc_L (∪)), (comm_L (∪) (list_to_set _) {[ x ]}).
        reflexivity. }
      exists failed. split; [rewrite Hout; reflexivity | exact Hlast].
    + rewrite (bind_raise _ _ _ _ _ _ _ Hone). cbn [res st out fst snd].
      exists 0%nat. split; [simpl; lia |]. split; [cbn; symmetry; apply (left_id_L ∅ (∪)) |].
      eexists. split; [reflexivity |]. cbn.
      exists (Some code), (RuntimeError code).
      split; [intros [= ->]; discriminate |].
      split; [reflexivity |]. split; [reflexivity |].
      repeat constructor; intros; discriminate.
    + rewrite (bind_raise _ _ _ _ _ _ _ Hone). cbn [res st out fst snd].
      exists 0%nat. split; [simpl; lia |]. split; [cbn; symmetry; apply (left_id_L ∅ (∪)) |].
      eexists. split; [reflexivity |]. cbn.
      exists None, (OSError "subprocess.call").
      split; [discriminate |].
      split; [reflexivity |]. split; [reflexivity |].
      repeat constructor; intros; discriminate.
Qed.

Lemma subprocess_calls_ok P (l : list host) :
  subprocess_calls
    (map (fun x => ESubprocess (insert_rule P x) true true (Some 0)) l) =
  map (fun x => (insert_rule P x, Some 0)) l.
Proof. induction l as [| x l IH]; simpl; [reflexivity | rewrite IH; reflexivity]. Qed.

(** X4.  [firewall_block] with iptables and without ipset inserts one rule
    per host, in the order of its argument, and gives up at the first
    command that fails: the hosts before it, and only they, are recorded as
    blocked, and no command is run for the hosts after it. *)
Theorem firewall_block_stops_at_first_failure K P E hosts s h :
  truthy (IPTABLES P) = true ->
  truthy (IPSET_NAME P) && truthy (IPSET_COMMAND P) = false ->
  let r := firewall_block K P E hosts s h in
  exists k, (k <= List.length hosts)%nat /\
    res r = Ok tt /\
    fw_blocked_hosts (st r) = list_to_set (take k hosts) ∪ fw_blocked_hosts s /\
    exists rest,
      subprocess_calls (out r) =
        map (fun x => (insert_rule P x, Some 0)) (take k hosts) ++ rest /\
      match hosts !! k with
      | None => rest = []
      | Some x => exists bad, bad <> Some 0 /\ rest = [(insert_rule P x, bad)]
      end.
Proof.
  intros Hipt Hipset. cbv zeta.
  destruct (total_run _ s h (firewall_block_total K P E hosts)) as ([] & Hrun).
  unfold firewall_block in *. rewrite Hipt, Hipset in *.
  match goal with
  | |- context [when ?c ?m] => set (tail := when c m) in *
  end.
  assert (Hk : keeps (fun s => s) tail)
    by (subst tail; keeps_walk ltac:(reflexivity)).
  assert (He : emits (fun e => forall a b c r, e <> ESubprocess a b c r) tail)
    by (subst tail; emits_walk ltac:(cbv beta; intros; discriminate)).
  match goal with
  | |- context [for_each hosts ?b] => set (loop := for_each hosts b) in *
  end.
  assert (Hloop : loop = for_each hosts (fun host =>
             bind (system_execute E (insert_rule P host) [0] true true)
               (fun _ => modify (add_fw_blocked_host host)))) by reflexivity.
  clearbody loop. subst loop.
  destruct (insert_loop_run P E hosts s (h ++ [EFirewallBlock hosts]))
    as (k & Hle & Hst & failed & Hout & Hlast).
  exists k. split; [exact Hle |].
  split; [rewrite Hrun at 1; reflexivity |].
  clear Hrun.
  rewrite st_bind, out_bind.
  change (emit (EFirewallBlock hosts) s h) with (Ok tt, s, [EFirewallBlock hosts]).
  cbn [res st out fst snd].
  rewrite st_bind, out_bind, res_try, st_try, out_try.
  rewrite !subprocess_calls_app. cbn [subprocess_calls app].
  destruct (hosts !! k) as [x |] eqn:Ek.
  - destruct Hlast as (bad & e & Hbad & Hres & Hcalls & _).
    rewrite Hres. cbn.
    rewrite Hk. split; [exact Hst |].
    exists [(insert_rule P x, bad)].
    split; [| exists bad; split; [exact Hbad | reflexivity]].
    rewrite !subprocess_calls_app, Hout, subprocess_calls_app,
      subprocess_calls_ok, Hcalls.
    cbn [subprocess_calls app].
    rewrite (no_subprocess_calls _ (He _ _)), !app_nil_r. reflexivity.
  - destruct Hlast as (-> & Hres). rewrite Hres.
    rewrite Hk. split; [exact Hst |].
    exists []. split; [| reflexivity].
    rewrite subprocess_calls_app, Hout, app_nil_r, subprocess_calls_ok.
    rewrite (no_subprocess_calls _ (He _ _)), ?app_nil_r. reflexivity.
Qed.

(** ** [update_hosts_deny] *)






(** What [update_hosts_deny] returns, and what it leaves of the denied
    hosts. *)
Lemma update_hosts_deny_result K P E deny_hosts s h :
  let new_hosts := List.filter (is_new_host P s) deny_hosts in
  let r := update_hosts_deny K P E deny_hosts s h in
  denied_hosts (st r) = denied_hosts s /\
  exists status,
    res r = Ok (if is_nonempty new_hosts then Some new_hosts else None, status).
Proof.
  cbv zeta.
  destruct (update_hosts_deny_eq K P E deny_hosts s h)
    as (o1 & s1 & _ & Hd1 & Hrun1).
  cbv zeta in Hrun1. rewrite Hrun1.
  destruct (is_nonempty (List.filter (is_new_host P s) deny_hosts));
    cbn [res st fst snd]; [| split; [exact Hd1 | exists None; reflexivity]].
  pose proof (append_stage_run K P E
    (List.filter (is_new_host P s) deny_hosts) s1 (h ++ o1)) as (Hr & -> & _).
  split; [exact Hd1 |]. rewrite Hr. eexists. reflexivity.
Qed.

(** X7.  [update_hosts_deny] does not record the hosts that it adds: the
    set of denied hosts is as before the call, so that a second call with
    the same candidates returns the same new hosts, and writes them again. *)
Theorem update_hosts_deny_forgets K P E deny_hosts s h h' :
  let new_hosts := List.filter (is_new_host P s) deny_hosts in
  let r := update_hosts_deny K P E deny_hosts s h in
  let r' := update_hosts_deny K P E deny_hosts (st r) h' in
  denied_hosts (st r) = denied_hosts s /\
  exists status status',
    res r = Ok (if is_nonempty new_hosts then Some new_hosts else None, status) /\
    res r' = Ok (if is_nonempty new_hosts then Some new_hosts else None, status').
Proof.
  cbv zeta.
  destruct (update_hosts_deny_result K P E deny_hosts s h) as (Hd & status & Hr).
  destruct (update_hosts_deny_result K P E deny_hosts
              (st (update_hosts_deny K P E deny_hosts s h)) h')
    as (_ & status' & Hr').
  rewrite (is_new_host_denied P _ _ Hd) in Hr'.
  split; [exact Hd |]. exists status, status'. split; assumption.
Qed.

(** *** What becomes of the blocked hosts *)

Section StepsRules.

Variable R : DenyHosts -> DenyHosts -> Prop.
Hypothesis R_refl : forall s, R s s.
Hypothesis R_trans : forall s1 s2 s3, R s1 s2 -> R s2 s3 -> R s1 s3.

Lemma steps_ret {A} (a : A) : steps R (ret a).
Proof. intros s h. apply R_refl. Qed.

Lemma steps_raise {A} e : steps R (@raise A e).
Proof. intros s h. apply R_refl. Qed.

Lemma steps_get : steps R get.
Proof. intros s h. apply R_refl. Qed.

Lemma steps_emit e : steps R (emit e).
Proof. intros s h. apply R_refl. Qed.

Lemma steps_ask {X} (q : list event -> X) mk : steps R (ask q mk).
Proof. intros s h. apply R_refl. Qed.

Lemma steps_modify g : (forall s, R s (g s)) -> steps R (modify g).
Proof. intros Hg s h. apply Hg. Qed.

Lemma steps_bind_returns {A B} (G : A -> Prop) (m : M A) (f : A -> M B) :
  steps R m -> returns G m -> (forall a, G a -> steps R (f a)) ->
  steps R (bind m f).
Proof.
  intros Hm HG Hf s h. rewrite st_bind.
  specialize (Hm s h). specialize (HG s h).
  destruct (res (m s h)) as [a | e]; [| exact Hm].
  eapply R_trans; [exact Hm | apply Hf, HG; reflexivity].
Qed.

Lemma steps_bind {A B} (m : M A) (f : A -> M B) :
  steps R m -> (forall a, steps R (f a)) -> steps R (bind m f).
Proof.
  intros Hm Hf. apply (steps_bind_returns (fun _ => True)); auto.
  intros s h a _. exact I.
Qed.

Lemma steps_try {A} (m : M A) handler :
  steps R m -> (forall e, steps R (handler e)) -> steps R (try_except m handler).
Proof.
  intros Hm Hh s h. rewrite st_try. specialize (Hm s h).
  destruct (res (m s h)) as [a | e]; [exact Hm |].
  eapply R_trans; [exact Hm | apply Hh].
Qed.

Lemma steps_for_each {X} (l : list X) body :
  (forall x, In x l -> steps R (body x)) -> steps R (for_each l body).
Proof.
  induction l as [| x l IH]; intros Hb; cbn [for_each].
  - apply steps_ret.
  - apply steps_bind; [apply Hb; left; reflexivity |].
    intros _. apply IH. intros y Hy. apply Hb. right. exact Hy.
Qed.

Lemma steps_filterM {X} (cond : X -> M bool) l :
  (forall x, In x l -> steps R (cond x)) -> steps R (filterM cond l).
Proof.
  induction l as [| x l IH]; intros Hb; cbn [filterM].
  - apply steps_ret.
  - apply steps_bind; [apply Hb; left; reflexivity |].
    intros b. apply steps_bind; [| intros keep; apply steps_ret].
    apply IH. intros y Hy. apply Hb. right. exact Hy.
Qed.

End StepsRules.

(** Walks down a computation; [side] proves that the relation is reflexive
    and transitive, [fin] closes the goals about single updates. *)
Ltac steps_walk side fin :=
  repeat (cbv beta zeta;
    lazymatch goal with
    | |- steps _ (ret _) => apply steps_ret; side
    | |- steps _ (raise _) => apply steps_raise; side
    | |- steps _ get => apply steps_get; side
    | |- steps _ (modify _) => apply steps_modify; intros ?; fin
    | |- steps _ (emit _) => apply steps_emit; side
    | |- steps _ (ask _ _) => apply steps_ask; side
    | |- steps _ (bind _ _) => apply steps_bind; try solve [side]; [| intros ?]
    | |- steps _ (try_except _ _) => apply steps_try; try solve [side]; [| intros ?]
    | |- steps _ (when _ _) => unfold when
    | |- steps _ (for_each _ _) =>
        apply steps_for_each; try solve [side]; intros ? ?
    | |- steps _ (filterM _ _) =>
        apply steps_filterM; try solve [side]; intros ? ?
    | |- steps _ (if ?b then _ else _) => split_cond b
    | |- steps _ (match ?x with _ => _ end) => split_cond x
    | |- steps _ ?m =>
        first [ solve [ match goal with H : _ |- _ => apply H end ]
              | let f := head_of m in progress unfold f ]
    end).

Lemma blocked_grows_refl P L s : blocked_grows P L s s.
Proof. split; [reflexivity | intros x Hx; left; exact Hx]. Qed.

Lemma blocked_grows_trans P L s1 s2 s3 :
  blocked_grows P L s1 s2 -> blocked_grows P L s2 s3 -> blocked_grows P L s1 s3.
Proof.
  intros [H1 H1'] [H2 H2']. split; [etransitivity; eassumption |].
  intros x Hx. destruct (H2' x Hx) as [Hx2 | Hx2]; [auto | right; exact Hx2].
Qed.

Lemma blocked_grows_same P L s s' :
  fw_blocked_hosts s' = fw_blocked_hosts s -> blocked_grows P L s s'.
Proof.
  intros Heq. unfold blocked_grows. rewrite Heq.
  split; [reflexivity | intros x Hx; left; exact Hx].
Qed.

Lemma blocked_grows_add P L x s :
  In x L -> allowed_hosts P x = false ->
  blocked_grows P L s (add_fw_blocked_host x s).
Proof.
  intros Hin Hx. split; cbn.
  - apply union_subseteq_r.
  - intros y Hy. apply elem_of_union in Hy. destruct Hy as [Hy | Hy]; [| auto].
    apply elem_of_singleton in Hy. subst y. right. split; assumption.
Qed.

Ltac grows_side :=
  first [ exact (blocked_grows_refl _ _) | exact (blocked_grows_trans _ _) ].

Ltac grows_fin :=
  first [ apply blocked_grows_same; reflexivity
        | apply blocked_grows_add; solve [ assumption | auto ] ].

Lemma firewall_init_grows P E L : steps (blocked_grows P L) (firewall_init P E).
Proof. steps_walk grows_side grows_fin. Qed.

Lemma firewall_check_grows P E L x :
  In x L -> allowed_hosts P x = false ->
  steps (blocked_grows P L) (firewall_check P E x).
Proof. intros Hin Hx. steps_walk grows_side grows_fin. Qed.

Lemma firewall_block_grows K P E L hosts :
  (forall x, In x hosts -> In x L) ->
  (forall x, In x hosts -> allowed_hosts P x = false) ->
  steps (blocked_grows P L) (firewall_block K P E hosts).
Proof.
  intros Hin Hx.
  pose proof (firewall_init_grows P E L) as Hinit.
  steps_walk grows_side grows_fin.
Qed.

Lemma filterM_returns_in {X} (G : X -> Prop) (cond : X -> M bool) l :
  (forall x, In x l -> returns (fun b => b = true -> G x) (cond x)) ->
  returns (Forall G) (filterM cond l).
Proof.
  induction l as [| x l IH]; intros Hc; simpl.
  - intros s h a [= <-]. constructor.
  - intros s h a. rewrite res_bind.
    destruct (res (cond x s h)) as [b |] eqn:Hb; [| discriminate].
    rewrite res_bind.
    destruct (res (filterM cond l _ _)) as [keep |] eqn:Hk; [| discriminate].
    intros [= <-].
    apply IH in Hk; [| intros y Hy; apply Hc; right; exact Hy].
    apply Hc in Hb; [| left; reflexivity].
    destruct b; [constructor; auto | exact Hk].
Qed.

Lemma iptables_stage_grows K P E deny_hosts :
  steps (blocked_grows P deny_hosts) (iptables_stage K P E deny_hosts).
Proof.
  pose proof (firewall_init_grows P E deny_hosts) as Hinit.
  unfold iptables_stage, when.
  destruct (truthy (IPTABLES P)); [| apply steps_ret; grows_side].
  apply steps_bind; try solve [grows_side];
    [apply steps_get; grows_side | intros s0].
  apply steps_bind; try solve [grows_side];
    [steps_walk grows_side grows_fin | intros _].
  apply steps_bind_returns
    with (G := Forall (fun x => In x deny_hosts /\ allowed_hosts P x = false));
    try solve [grows_side].
  - apply steps_filterM; try solve [grows_side]. intros x Hin.
    pose proof (firewall_check_grows P E deny_hosts x Hin) as Hcheck.
    steps_walk grows_side grows_fin.
  - apply filterM_returns_in. intros x Hin.
    destruct (allowed_hosts P x) eqn:Hx.
    + intros s h b. rewrite bind_get. cbn. intros [= <-]. discriminate.
    + intros s h b _ _. split; [exact Hin | reflexivity].
  - intros fw_hosts Hfw. rewrite List.Forall_forall in Hfw.
    destruct (is_nonempty fw_hosts); [| apply steps_ret; grows_side].
    apply firewall_block_grows; intros x Hin; apply (Hfw x Hin).
Qed.

(** X8.  [update_hosts_deny] only adds to the blocked hosts, and what it
    adds are candidates of the call that are not on the allow-list. *)
Theorem update_hosts_deny_blocked_grows K P E deny_hosts s h x :
  let s' := st (update_hosts_deny K P E deny_hosts s h) in
  (x ∈ fw_blocked_hosts s -> x ∈ fw_blocked_hosts s') /\
  (x ∈ fw_blocked_hosts s' ->
   x ∈ fw_blocked_hosts s \/ (In x deny_hosts /\ allowed_hosts P x = false)).
Proof.
  cbv zeta.
  assert (Hsteps : steps (blocked_grows P deny_hosts)
                     (update_hosts_deny K P E deny_hosts)).
  { unfold update_hosts_deny.
    destruct (negb (is_nonempty deny_hosts)); [apply steps_ret; grows_side |].
    apply steps_bind; try solve [grows_side];
      [apply iptables_stage_grows | intros _].
    apply steps_bind; try solve [grows_side];
      [apply steps_get; grows_side | intros s1].
    destruct (negb (is_nonempty _)); [apply steps_ret; grows_side |].
    apply steps_bind; try solve [grows_side].
    - unfold pf_stage, when.
      destruct (_ && _); [| apply steps_ret; grows_side].
      apply firewall_block_grows; intros y Hy; apply filter_In in Hy;
        destruct Hy as [Hy Hnew]; [exact Hy |].
      unfold is_new_host in Hnew. apply andb_true_iff in Hnew.
      destruct Hnew as [_ Hnew]. apply negb_true_iff in Hnew. exact Hnew.
    - intros _ s2 h2.
      pose proof (append_stage_run K P E
        (List.filter (is_new_host P s1) deny_hosts) s2 h2) as (_ & -> & _).
      apply blocked_grows_refl. }
  destruct (Hsteps s h) as [Hsub Hnew].
  split; [apply Hsub | apply Hnew].
Qed.

(** ** The deny file *)

Lemma set_denied_hosts_twice d d' s :
  set_denied_hosts d (set_denied_hosts d' s) = set_denied_hosts d s.
Proof. reflexivity. Qed.

(** One line of the deny file adds the host that it stands for. *)
Lemma denied_line_run K P line s h :
  line <> EmptyString ->
  let r := denied_line K P line s h in
  res r = Ok tt /\
  st r = match denied_line_host K line with
         | Some host => set_denied_hosts ({[ host ]} ∪ denied_hosts s) s
         | None => s
         end.
Proof.
  intros Hne. cbv zeta. unfold denied_line, denied_line_host, parsed_text.
  destruct line as [| c rest]; [congruence |].
  destruct (Ascii.eqb c "#" || Ascii.eqb c "010"); [split; reflexivity |].
  cbv zeta.
  destruct (parse_host K _) as [host |]; [| split; reflexivity].
  rewrite bind_get. unfold when.
  destruct (allowed_hosts P host); split; reflexivity.
Qed.

Lemma denied_lines_run K P lines : forall s h,
  Forall (fun line => line <> EmptyString) lines ->
  let r := for_each lines (denied_line K P) s h in
  res r = Ok tt /\
  st r = set_denied_hosts (deny_file_hosts K lines ∪ denied_hosts s) s.
Proof.
  induction lines as [| line lines IH]; intros s h Hne; cbv zeta.
  - cbn. split; [reflexivity |]. unfold deny_file_hosts. cbn.
    rewrite (left_id_L ∅ (∪)). destruct s; reflexivity.
  - apply Forall_cons in Hne. destruct Hne as [Hline Hne].
    cbn [for_each]. rewrite res_bind, st_bind.
    destruct (denied_line_run K P line s h Hline) as (Hr & Hs).
    rewrite Hr. destruct (IH (st (denied_line K P line s h))
                            (h ++ out (denied_line K P line s h)) Hne)
      as (Hr' & Hs').
    split; [exact Hr' |]. rewrite Hs', Hs.
    assert (Hcons : deny_file_hosts K (line :: lines) =
                    match denied_line_host K line with
                    | Some host => {[ host ]} ∪ deny_file_hosts K lines
                    | None => deny_file_hosts K lines
                    end).
    { unfold deny_file_hosts. cbn.
      destruct (denied_line_host K line); reflexivity. }
    rewrite Hcons.
    destruct (denied_line_host K line) as [host |]; [| reflexivity].
    rewrite set_denied_hosts_twice. cbn [denied_hosts set_denied_hosts].
    f_equal. rewrite (assoc_L (∪)), (comm_L (∪) _ {[ host ]}). reflexivity.
Qed.

Lemma get_denied_hosts_tail_keeps K P E :
  keeps (fun s => s)
    (bind (ask (env_new_warned_hosts E) ENewWarnedHosts) (fun new_warned_hosts =>
       when (is_nonempty new_warned_hosts)
         (bind (emit ESaveWarnedHosts) (fun _ =>
          bind (emit (EReportSection
                  ("WARNING: The following hosts appear in " +:+ HOSTS_DENY P
                   +:+ " but should be" +:+ nl +:+ "allowed based on your "
                   +:+ path_join (WORK_DIR P) (ALLOWED_HOSTS K) +:+ " file")
                  new_warned_hosts))
            (fun _ => emit EClearWarnedHosts))))).
Proof. keeps_walk ltac:(reflexivity). Qed.

Lemma get_denied_hosts_run K P E lines s h :
  env_read_hosts_deny E h = Ok lines ->
  Forall (fun line => line <> EmptyString) lines ->
  res (get_denied_hosts K P E s h) = Ok tt /\
  st (get_denied_hosts K P E s h) = set_denied_hosts (deny_file_hosts K lines) s.
Proof.
  intros Hread Hne. unfold get_denied_hosts.
  rewrite (bind_ok _ _ s h tt (set_denied_hosts ∅ s) [] eq_refl).
  cbn [res st out fst snd app]. rewrite app_nil_r.
  rewrite (bind_ok _ _ _ h (Ok lines) (set_denied_hosts ∅ s)
             [EReadHostsDeny (Ok lines)])
    by (unfold ask; rewrite Hread; reflexivity).
  cbn [res st out fst snd app].
  rewrite (bind_ok _ _ _ _ lines (set_denied_hosts ∅ s) [] eq_refl).
  cbn [res st out fst snd app]. rewrite app_nil_r.
  destruct (denied_lines_run K P lines (set_denied_hosts ∅ s)
              (h ++ [EReadHostsDeny (Ok lines)]) Hne) as (Hr & Hs).
  rewrite res_bind, st_bind, Hr.
  match goal with
  | |- res (?m ?s1 ?h1) = _ /\ _ =>
      pose proof (get_denied_hosts_tail_keeps K P E s1 h1) as Hk;
      assert (Ht : total m) by total_walk;
      destruct (Ht s1 h1) as ([] & Hres)
  end.
  cbv beta in Hk.
  split; [exact Hres |]. rewrite Hk, Hs.
  rewrite set_denied_hosts_twice. cbn [denied_hosts set_denied_hosts].
  rewrite (right_id_L ∅ (∪)). reflexivity.
Qed.

Lemma denied_lines_out K P lines : forall s h,
  Forall (fun line => line <> EmptyString) lines ->
  out (for_each lines (denied_line K P) s h) =
    map EAddWarnedHost (warned_hosts K P lines).
Proof.
  induction lines as [| line lines IH]; intros s h Hne; [reflexivity |].
  apply Forall_cons in Hne. destruct Hne as [Hline Hne].
  cbn [for_each]. rewrite out_bind.
  destruct (denied_line_run K P line s h Hline) as (Hr & _). rewrite Hr.
  rewrite (IH _ _ Hne). unfold warned_hosts. cbn [omap list_omap].
  assert (Hout : out (denied_line K P line s h) =
                 match denied_line_host K line with
                 | Some host => if allowed_hosts P host
                                then [EAddWarnedHost host] else []
                 | None => []
                 end).
  { unfold denied_line, denied_line_host, parsed_text.
    destruct line as [| c rest]; [congruence |].
    destruct (Ascii.eqb c "#" || Ascii.eqb c "010"); [reflexivity |].
    cbv zeta. destruct (parse_host K _) as [host |]; [| reflexivity].
    rewrite bind_get. unfold when.
    destruct (allowed_hosts P host); reflexivity. }
  rewrite Hout.
  destruct (denied_line_host K line) as [host |]; [| reflexivity].
  cbn [List.filter]. destruct (allowed_hosts P host); reflexivity.
Qed.

(** X9.  [get_denied_hosts] rebuilds the set of denied hosts from the deny
    file alone: whatever the set held before, it ends as the set of the
    hosts that the lines of the file stand for; comment lines, blank lines
    and lines that [parse_host] rejects are passed over, and the rest of the
    object is as it was.  While the file is read, [add_warned_host] is
    called for the hosts of the file that are on the allow-list, in the
    order of the file, and for nothing else. *)
Theorem get_denied_hosts_rebuilds K P E lines s h :
  env_read_hosts_deny E h = Ok lines ->
  Forall (fun line => line <> EmptyString) lines ->
  let r := get_denied_hosts K P E s h in
  res r = Ok tt /\
  st r = set_denied_hosts (deny_file_hosts K lines) s /\
  exists report,
    out r = EReadHostsDeny (Ok lines)
              :: map EAddWarnedHost (warned_hosts K P lines) ++ report /\
    Forall is_not_warning report.
Proof.
  intros Hread Hne. cbv zeta.
  destruct (get_denied_hosts_run K P E lines s h Hread Hne) as (Hr & Hs).
  split; [exact Hr |]. split; [exact Hs |].
  unfold get_denied_hosts.
  rewrite (bind_ok _ _ s h tt (set_denied_hosts ∅ s) [] eq_refl).
  cbn [res st out fst snd app]. rewrite app_nil_r.
  rewrite (bind_ok _ _ _ h (Ok lines) (set_denied_hosts ∅ s)
             [EReadHostsDeny (Ok lines)])
    by (unfold ask; rewrite Hread; reflexivity).
  cbn [res st out fst snd app].
  rewrite (bind_ok _ _ _ _ lines (set_denied_hosts ∅ s) [] eq_refl).
  cbn [res st out fst snd app]. rewrite app_nil_r.
  destruct (denied_lines_run K P lines (set_denied_hosts ∅ s)
              (h ++ [EReadHostsDeny (Ok lines)]) Hne) as (Hloop & _).
  rewrite out_bind, Hloop, denied_lines_out by exact Hne.
  match goal with
  | |- context [out (?m ?s1 ?h1)] =>
      assert (He : emits is_not_warning m) by emits_walk ltac:(exact I);
      exists (out (m s1 h1)); split; [reflexivity | apply He]
  end.
Qed.


(** X11.  After [get_denied_hosts], [update_hosts_deny] adds no host that
    the deny file already holds: such a host is not among the new hosts
    that the call returns. *)
Theorem denied_host_not_added_again K P E lines deny_hosts s h h' x new_hosts status :
  env_read_hosts_deny E h = Ok lines ->
  Forall (fun line => line <> EmptyString) lines ->
  x ∈ deny_file_hosts K lines ->
  res (update_hosts_deny K P E deny_hosts (st (get_denied_hosts K P E s h)) h')
    = Ok (Some new_hosts, status) ->
  ~ In x new_hosts.
Proof.
  intros Hread Hne Hx Hres Hin.
  destruct (get_denied_hosts_run K P E lines s h Hread Hne) as (_ & Hs).
  destruct (update_hosts_deny_result K P E deny_hosts
              (st (get_denied_hosts K P E s h)) h') as (_ & status' & Hr).
  rewrite Hr in Hres.
  destruct (is_nonempty _); [| discriminate].
  injection Hres as Hnew _. subst new_hosts.
  apply filter_In in Hin. destruct Hin as [_ Hnew].
  unfold is_new_host in Hnew. rewrite Hs in Hnew. cbn [denied_hosts set_denied_hosts] in Hnew.
  rewrite bool_decide_eq_true_2 in Hnew by exact Hx. discriminate.
Qed.

Lemma substring_all_but_last l c :
  substring 0 (String.length l) (l +:+ String c EmptyString) = l.
Proof.
  induction l as [| a l IH]; [reflexivity |].
  change (String a l +:+ String c EmptyString)
    with (String a (l +:+ String c EmptyString)).
  cbn [String.length substring]. f_equal. exact IH.
Qed.

Lemma length_snoc l c :
  String.length (l +:+ String c EmptyString) = S (String.length l).
Proof.
  induction l as [| a l IH]; [reflexivity |].
  change (String a l +:+ String c EmptyString)
    with (String a (l +:+ String c EmptyString)).
  cbn [String.length]. f_equal. exact IH.
Qed.

(** X12.  A line of the deny file without [#] loses its last character
    before it is parsed, whatever the character is: the newline for a line
    that ends in one, the last character of the entry for a last line that
    does not. *)
Theorem parsed_text_drops_last_character l c :
  find_hash (l +:+ String c EmptyString) = -1 ->
  parsed_text (l +:+ String c EmptyString) = l.
Proof.
  intros Hfind. unfold parsed_text. rewrite Hfind. cbn [Z.eqb negb].
  unfold slice_to. rewrite length_snoc. cbn [Z.ltb Z.compare].
  replace (Z.to_nat (Z.max 0 (Z.of_nat (S (String.length l)) + -1)))
    with (String.length l) by lia.
  apply substring_all_but_last.
Qed.

(** ** The log *)

Lemma dovecot_stage_success P line v :
  l_success (dovecot_stage P line v) = l_success v.
Proof.
  unfold dovecot_stage.
  destruct (DETECT_DOVECOT_LOGIN_ATTEMPTS P); [| reflexivity].
  destruct (re_search _ line); reflexivity.
Qed.

Lemma userdef_stage_success P line v :
  l_success (userdef_stage P line v) = l_success v.
Proof.
  unfold userdef_stage. destruct (l_m v); [reflexivity |].
  destruct (scan_userdef _ line); reflexivity.
Qed.

Lemma is_valid_flag mm : is_valid mm = 0 \/ is_valid mm = 1.
Proof.
  unfold is_valid. destruct (group mm "invalid") as [v |]; [| right; reflexivity].
  destruct (truthy_group v); [right | left]; reflexivity.
Qed.

Lemma dovecot_stage_invalid P line v :
  l_invalid v = 0 \/ l_invalid v = 1 ->
  l_invalid (dovecot_stage P line v) = 0 \/ l_invalid (dovecot_stage P line v) = 1.
Proof.
  intros Hv. unfold dovecot_stage.
  destruct (DETECT_DOVECOT_LOGIN_ATTEMPTS P); [| exact Hv].
  destruct (re_search _ line); [apply is_valid_flag | exact Hv].
Qed.

Lemma userdef_stage_invalid P line v :
  l_invalid v = 0 \/ l_invalid v = 1 ->
  l_invalid (userdef_stage P line v) = 0 \/ l_invalid (userdef_stage P line v) = 1.
Proof.
  intros Hv. unfold userdef_stage. destruct (l_m v); [exact Hv |].
  destruct (scan_userdef _ line); [apply is_valid_flag | exact Hv].
Qed.

Lemma envelope_stage_invalid K P line v :
  envelope_stage K P line = Ok v -> l_invalid v = 0 \/ l_invalid v = 1.
Proof.
  unfold envelope_stage.
  destruct (re_match (sshd_format_regex P) line) as [sshd_m |];
    [| intros [= <-]; left; reflexivity].
  destruct (group sshd_m "message") as [[message |] |]; try discriminate.
  destruct (scan_failed P _ message) as [mm |];
    [intros [= <-]; apply is_valid_flag |].
  destruct (re_match (successful_entry_regex P) message);
    intros [= <-]; left; reflexivity.
Qed.

(** X13.  The success flag of a line is decided by the sshd envelope alone:
    it is 1 exactly when the line has the sshd format, no failed-entry
    pattern of the range matches its message, and the successful-entry
    pattern does.  The failed-entry patterns come first, and neither the
    dovecot stage nor the user-defined patterns reset the flag, whichever
    match they leave. *)
Theorem classify_success_flag K P line v :
  classify K P line = Ok v ->
  (l_success v = 0 \/ l_success v = 1) /\
  (l_success v = 1 <->
   exists sshd_m message mm,
     re_match (sshd_format_regex P) line = Some sshd_m /\
     group sshd_m "message" = Ok (Some message) /\
     scan_failed P (FAILED_ENTRY_REGEX_RANGE K) message = None /\
     re_match (successful_entry_regex P) message = Some mm).
Proof.
  unfold classify.
  destruct (envelope_stage K P line) as [v0 |] eqn:Henv; [| discriminate].
  intros [= <-]. rewrite userdef_stage_success, dovecot_stage_success.
  revert Henv. unfold envelope_stage.
  destruct (re_match (sshd_format_regex P) line) as [sshd_m |] eqn:Hm.
  - destruct (group sshd_m "message") as [[message |] |] eqn:Hg; try discriminate.
    destruct (scan_failed P _ message) as [mm |] eqn:Hscan.
    + intros [= <-]. cbn. split; [left; reflexivity |].
      split; [discriminate |].
      intros (a & b & c & H1 & H2 & H3 & H4). congruence.
    + destruct (re_match (successful_entry_regex P) message) as [mm |] eqn:Hok;
        intros [= <-]; cbn.
      * split; [right; reflexivity |]. split; [| reflexivity].
        intros _. exists sshd_m, message, mm. repeat split; assumption.
      * split; [left; reflexivity |]. split; [discriminate |].
        intros (a & b & c & H1 & H2 & H3 & H4). congruence.
  - intros [= <-]. cbn. split; [left; reflexivity |]. split; [discriminate |].
    intros (a & b & c & H1 & _). discriminate.
Qed.

Lemma classify_flags K P line v :
  classify K P line = Ok v ->
  (l_success v = 0 \/ l_success v = 1) /\ (l_invalid v = 0 \/ l_invalid v = 1).
Proof.
  intros Hc. split.
  - revert Hc. unfold classify.
    destruct (envelope_stage K P line) as [v0 |] eqn:Henv; [| discriminate].
    intros [= <-]. rewrite userdef_stage_success, dovecot_stage_success.
    revert Henv. unfold envelope_stage.
    destruct (re_match (sshd_format_regex P) line) as [sshd_m |];
      [| intros [= <-]; left; reflexivity].
    destruct (group sshd_m "message") as [[message |] |]; try discriminate.
    destruct (scan_failed P _ message);
      [intros [= <-]; left; reflexivity |].
    destruct (re_match (successful_entry_regex P) message);
      intros [= <-]; [right | left]; reflexivity.
  - revert Hc. unfold classify.
    destruct (envelope_stage K P line) as [v0 |] eqn:Henv; [| discriminate].
    intros [= <-]. apply userdef_stage_invalid, dovecot_stage_invalid.
    eapply envelope_stage_invalid. exact Henv.
Qed.

Lemma process_line_sound K P line : emits (sound_attempt K) (process_line K P line).
Proof.
  intros s h. unfold process_line, bind, lift, out.
  destruct (classify K P line) as [v |] eqn:Hc; cbn; [| constructor].
  destruct (classify_flags K P line v Hc) as (Hs & Hi).
  unfold extract. destruct (l_m v) as [mm |]; cbn; [| constructor].
  destruct (group mm "host") as [host |]; cbn;
    [| constructor; [exact I | constructor]].
  destruct (is_valid_ip_address K host) eqn:Hip; cbn;
    (constructor; [| constructor]); [| exact I].
  cbn. auto.
Qed.

(** X14.  Whatever the log holds, every login attempt that [process_log]
    records is from an address that [is_valid_ip_address] accepts, with a
    success flag and an invalid-user flag that are 0 or 1. *)
Theorem process_log_attempts_sound K P E logfile offset s h :
  Forall (sound_attempt K) (out (process_log K P E logfile offset s h)).
Proof.
  pose proof (process_line_sound K P) as Hline.
  assert (He : emits (sound_attempt K) (process_log K P E logfile offset))
    by emits_walk ltac:(exact I).
  apply He.
Qed.

Lemma open_log_failure K E logfile s h :
  (forall mode, env_open E h LogFile logfile mode = false) ->
  res (open_log K E logfile s h) = Ok false /\
  st (open_log K E logfile s h) = s /\
  Forall (is_open_failure logfile) (out (open_log K E logfile s h)).
Proof.
  intros Hopen.
  split; [| split; [apply (open_log_keeps K E logfile s h) |]].
  - unfold open_log, open_file, try_except, bind, ask, raise, ret, res.
    destruct (endswith logfile ".gz"); [rewrite Hopen; reflexivity |].
    destruct (endswith logfile ".bz2"); [| rewrite Hopen; reflexivity].
    destruct (HAS_BZ2 K); [rewrite Hopen |]; reflexivity.
  - unfold open_log, open_file, try_except, bind, ask, raise, ret, out.
    destruct (endswith logfile ".gz");
      [rewrite Hopen; cbn; repeat constructor |].
    destruct (endswith logfile ".bz2");
      [| rewrite Hopen; cbn; repeat constructor].
    destruct (HAS_BZ2 K); [rewrite Hopen |]; cbn; repeat constructor.
Qed.

(** X15.  When the log cannot be opened, [process_log] raises nothing and
    returns [-1]: only the failure is printed; nothing is read, no host is
    denied, nothing is reported, and the object is as it was. *)
Theorem process_log_unopenable K P E logfile offset s h :
  (forall mode, env_open E h LogFile logfile mode = false) ->
  res (process_log K P E logfile offset s h) = Ok (-1) /\
  st (process_log K P E logfile offset s h) = s /\
  Forall (is_open_failure logfile) (out (process_log K P E logfile offset s h)).
Proof.
  intros Hopen. destruct (open_log_failure K E logfile s h Hopen) as (Hr & Hs & Ho).
  unfold process_log. rewrite res_bind, st_bind, out_bind, Hr. cbn.
  rewrite app_nil_r. split; [reflexivity |]. split; assumption.
Qed.




(** ** The daemon *)

(** X18.  With [DAEMON_SLEEP] equal to 0 and purging or synchronisation
    configured, [runDaemon] raises [ZeroDivisionError] when it computes the
    ratio: the signal handlers are installed and the lock file is created,
    the log is never opened, and the object is as it was. *)
Theorem runDaemon_zero_sleep K P E n logfile last_offset s h :
  DAEMON_SLEEP P = 0 ->
  truthyZ (PURGE_DENY P) || (truthyZ (SYNC_INTERVAL P) && truthy (SYNC_SERVER P))
    = true ->
  runDaemon K P E n logfile last_offset s h =
    (Raise ZeroDivisionError, s, [ESignals; ELockCreate]).
Proof.
  intros Hsleep Hcfg. unfold runDaemon.
  rewrite (bind_ok _ _ s h tt s [ESignals] eq_refl).
  cbn [res st out fst snd].
  rewrite (bind_ok _ _ s _ tt s [ELockCreate] eq_refl).
  cbn [res st out fst snd].
  unfold purge_ratio, sync_ratio. rewrite Hsleep.
  destruct (truthyZ (PURGE_DENY P)).
  - rewrite (bind_raise _ _ s _ ZeroDivisionError s [] eq_refl). reflexivity.
  - cbn [orb] in Hcfg. rewrite Hcfg.
    rewrite (bind_ok _ _ s _ None s [] eq_refl).
    cbn [res st out fst snd].
    rewrite (bind_raise _ _ s _ ZeroDivisionError s [] eq_refl). reflexivity.
Qed.

Lemma counter_eq_integer c k : counter_eq c (Some (inject_Z k)) = (c =? k).
Proof.
  unfold counter_eq, Qeq_bool, inject_Z. cbn [Qnum Qden].
  rewrite !Z.mul_1_r. reflexivity.
Qed.

(** X19.  One tick of [sleepAndPurge] with purging configured, an integer
    ratio [k] and no synchronisation: the counter is incremented; the purge
    runs exactly when it reaches [k]; after a purge that succeeds the
    counter restarts from 0; a purge that fails is logged and its exception
    is raised again, the counter staying at [k]. *)
Theorem sleepAndPurge_purge_tick K P E sleep_time t k s h :
  t <> 0 ->
  sleepAndPurge K P E sleep_time (Some t) (Some (inject_Z k)) None s h =
  let c := purge_counter s + 1 in
  if c =? k then
    match env_purge E (h ++ [ESleep sleep_time]) with
    | Ok u =>
        (Ok tt, set_purge_counter 0 s,
         [ESleep sleep_time; EPurge (Some t) (Ok u)])
    | Raise e =>
        (Raise e, set_purge_counter c s,
         [ESleep sleep_time; EPurge (Some t) (Raise e); ELogException e])
    end
  else (Ok tt, set_purge_counter c s, [ESleep sleep_time]).
Proof.
  intros Ht. cbv zeta. unfold sleepAndPurge.
  assert (Htruthy : truthyZ (Some t) = true).
  { cbn. apply negb_true_iff. apply Z.eqb_neq. exact Ht. }
  rewrite Htruthy. cbn [truthy_ratio].
  unfold when, bind, get, modify, emit, try_except, ask, lift, ret, raise.
  cbn [purge_counter set_purge_counter app]. rewrite counter_eq_integer.
  rewrite !app_nil_r.
  destruct (purge_counter s + 1 =? k); [| reflexivity].
  destruct (env_purge E (h ++ [ESleep sleep_time])) as [[] | e]; reflexivity.
Qed.

Lemma sleepAndPurge_unsynced_keeps K P E sleep_time purge_time purge_sleep_ratio :
  keeps sync_counter
    (sleepAndPurge K P E sleep_time purge_time purge_sleep_ratio None).
Proof.
  unfold sleepAndPurge. cbn [truthy_ratio].
  change (when false _) with (@ret unit tt).
  keeps_walk ltac:(reflexivity).
Qed.

(** X20.  A turn of the daemon in which the log file is missing sleeps and
    may purge, and does nothing else: nothing is exchanged with the sync
    server and the sync counter does not advance, whatever the sync ratio
    is, and the inode and the offset that the loop holds are kept. *)
Theorem daemon_iteration_deleted_log K P E logfile daemon_sleep purge_time
    purge_sleep_ratio sync_sleep_ratio v s h :
  env_stat E h logfile = None ->
  let r := daemon_iteration K P E logfile daemon_sleep purge_time
             purge_sleep_ratio sync_sleep_ratio v s h in
  Forall (fun e => is_sync_event e = false) (out r) /\
  sync_counter (st r) = sync_counter s /\
  forall v', res r = Ok v' -> v' = v.
Proof.
  intros Hstat. cbv zeta. unfold daemon_iteration.
  rewrite (bind_ok _ _ s h None s [EStat logfile None])
    by (unfold ask; rewrite Hstat; reflexivity).
  cbn [res st out fst snd].
  set (tick := sleepAndPurge K P E daemon_sleep purge_time purge_sleep_ratio None).
  pose proof (sleepAndPurge_no_sync K P E daemon_sleep purge_time
                purge_sleep_ratio None (fun c => eq_refl) s
                (h ++ [EStat logfile None])) as He.
  pose proof (sleepAndPurge_unsynced_keeps K P E daemon_sleep purge_time
                purge_sleep_ratio s (h ++ [EStat logfile None])) as Hk.
  fold tick in He, Hk.
  rewrite res_bind, st_bind, out_bind.
  destruct (res (tick s (h ++ [EStat logfile None]))) as [[] | e]; cbn.
  - rewrite app_nil_r. split; [constructor; [reflexivity | exact He] |].
    split; [exact Hk |]. intros v' [= <-]. reflexivity.
  - split; [constructor; [reflexivity | exact He] |].
    split; [exact Hk | discriminate].
Qed.

Lemma sleepAndPurge_reads_no_log K P E sleep_time purge_time purge_sleep_ratio
    sync_sleep_ratio :
  emits (fun e => reads_log e = false)
    (sleepAndPurge K P E sleep_time purge_time purge_sleep_ratio sync_sleep_ratio).
Proof. emits_walk ltac:(reflexivity). Qed.

Lemma follow_idle_run K P E logfile daemon_sleep purge_time purge_sleep_ratio
    sync_sleep_ratio v offset s h :
  (offset >? default offset (last_offset v)) = false ->
  let r := follow K P E logfile daemon_sleep purge_time purge_sleep_ratio
             sync_sleep_ratio v offset s h in
  Forall (fun e => reads_log e = false) (out r) /\
  forall v', res r = Ok v' ->
    inode v' = inode v /\
    (last_offset v' = Some (default offset (last_offset v)) \/
     last_offset v' = Some 0 /\ offset <> 0 /\
       offset < default offset (last_offset v)).
Proof.
  intros Hgt. cbv zeta. unfold follow. cbv zeta. rewrite Hgt.
  pose proof (sleepAndPurge_reads_no_log K P E daemon_sleep purge_time
                purge_sleep_ratio sync_sleep_ratio s h) as He.
  set (tick := sleepAndPurge K P E daemon_sleep purge_time purge_sleep_ratio
                 sync_sleep_ratio) in *.
  assert (Htick :
    forall last,
      Forall (fun e => reads_log e = false)
        (out (bind tick (fun _ => ret {| inode := inode v; last_offset := Some last |}) s h)) /\
      forall v', res (bind tick (fun _ => ret {| inode := inode v; last_offset := Some last |}) s h)
                   = Ok v' ->
        inode v' = inode v /\ last_offset v' = Some last).
  { intros last. rewrite res_bind, out_bind.
    destruct (res (tick s h)) as [[] | e]; cbn.
    - rewrite app_nil_r. split; [exact He |]. intros v' [= <-]. split; reflexivity.
    - split; [exact He | discriminate]. }
  destruct (offset =? 0) eqn:E0.
  - destruct (Htick (default offset (last_offset v))) as (H1 & H2).
    split; [exact H1 |]. intros v' Hv. destruct (H2 v' Hv). auto.
  - destruct (offset <? default offset (last_offset v)) eqn:Elt.
    + cbn. split; [repeat constructor |].
      intros v' [= <-]. split; [reflexivity |]. right.
      split; [reflexivity |]. split; [apply Z.eqb_neq; exact E0 |].
      apply Z.ltb_lt. exact Elt.
    + destruct (Htick (default offset (last_offset v))) as (H1 & H2).
      split; [exact H1 |]. intros v' Hv. destruct (H2 v' Hv). auto.
Qed.


(** X22.  A daemon that starts without a stored offset passes over what the
    log already holds: in the turn the offset becomes the size of the log,
    and nothing is read. *)
Theorem follow_without_stored_offset K P E logfile daemon_sleep purge_time
    purge_sleep_ratio sync_sleep_ratio v offset s h :
  last_offset v = None ->
  let r := follow K P E logfile daemon_sleep purge_time purge_sleep_ratio
             sync_sleep_ratio v offset s h in
  Forall (fun e => reads_log e = false) (out r) /\
  forall v', res r = Ok v' ->
    v' = {| inode := inode v; last_offset := Some offset |}.
Proof.
  intros Hv. cbv zeta.
  assert (Hgt : (offset >? default offset (last_offset v)) = false).
  { rewrite Hv. cbn. rewrite Z.gtb_ltb. apply Z.ltb_irrefl. }
  destruct (follow_idle_run K P E logfile daemon_sleep purge_time
              purge_sleep_ratio sync_sleep_ratio v offset s h Hgt) as (He & Hr).
  split; [exact He |]. intros v' Hres.
  destruct (Hr v' Hres) as (Hi & Hl). rewrite Hv in Hl. cbn in Hl.
  destruct v' as [i l]. cbn in *. subst i.
  destruct Hl as [-> | (_ & _ & Hlt)]; [reflexivity | lia].
Qed.

(** ** The signal handler and the patterns *)

(** X23.  [toggleDebug] always selects [INFO] or [DEBUG], and two signals
    in a row bring the level back exactly when it was one of the two: from
    any other level the first signal selects [INFO], for good. *)
Theorem toggleDebug_twice level :
  (toggleDebug level = logging_INFO \/ toggleDebug level = logging_DEBUG) /\
  (toggleDebug (toggleDebug level) = level <->
   level = logging_INFO \/ level = logging_DEBUG).
Proof.
  unfold toggleDebug, logging_INFO, logging_DEBUG.
  destruct (Z.eqb_spec level 20) as [-> | Hne]; cbn.
  - split; [right; reflexivity |]. split; [left; reflexivity | reflexivity].
  - split; [left; reflexivity |]. split; [intros <-; right; reflexivity |].
    intros [-> | ->]; [contradiction | reflexivity].
Qed.

Lemma init_failed_entry_regex_map_run R prefs_get re_compile range :
  forall acc m,
  init_failed_entry_regex_map R prefs_get re_compile range acc = inr m ->
  forall i,
    (In i range ->
     exists default rx,
       FAILED_ENTRY_REGEX_MAP R !! i = Some default /\
       get_regex prefs_get re_compile (failed_entry_regex_name i) default = inr rx /\
       m !! i = Some rx) /\
    (~ In i range -> m !! i = acc !! i).
Proof.
  induction range as [| j range IH]; intros acc m Hrun i.
  - cbn in Hrun. injection Hrun as <-. split; [intros [] | reflexivity].
  - cbn [init_failed_entry_regex_map] in Hrun. cbv zeta in Hrun.
    destruct (FAILED_ENTRY_REGEX_MAP R !! j) as [d |] eqn:Hd; [| discriminate].
    destruct (get_regex prefs_get re_compile (failed_entry_regex_name j) d)
      as [e | rx] eqn:Hg; [discriminate |].
    destruct (IH _ _ Hrun i) as (Hin & Hout).
    split.
    + intros Hi. destruct (In_dec Z.eq_dec i range) as [Hr | Hr].
      * apply Hin, Hr.
      * destruct Hi as [-> | Hi]; [| contradiction].
        exists d, rx. split; [exact Hd |]. split; [exact Hg |].
        rewrite (Hout Hr). apply lookup_insert_eq.
    + intros Hi. rewrite Hout by (intros Hr; apply Hi; right; exact Hr).
      apply lookup_insert_ne. intros ->. apply Hi. left. reflexivity.
Qed.

Lemma init_regex_map_run K R prefs_get re_compile r :
  init_regex K R prefs_get re_compile = inr r ->
  init_failed_entry_regex_map R prefs_get re_compile
    (FAILED_ENTRY_REGEX_RANGE K) ∅ = inr (r_failed_entry_regex_map r).
Proof.
  unfold init_regex.
  destruct (get_regex prefs_get re_compile "SSHD_FORMAT_REGEX" _); [discriminate |].
  destruct (get_regex prefs_get re_compile "SUCCESSFUL_ENTRY_REGEX" _);
    [discriminate |].
  destruct (init_failed_entry_regex_map R prefs_get re_compile _ ∅) as [e | m];
    [discriminate |].
  destruct (get_regex prefs_get re_compile "FAILED_DOVECOT_ENTRY_REGEX" _);
    [discriminate |].
  intros [= <-]. reflexivity.
Qed.

(** X24.  When [init_regex] succeeds, the map of failed-entry patterns has
    an entry for every index of [FAILED_ENTRY_REGEX_RANGE] and for no
    other: the pattern that the preferences give under
    [FAILED_ENTRY_REGEX<i>] (without suffix for index 1), compiled, or else
    the default of the index, which has to exist. *)
Theorem init_regex_covers_range K R prefs_get re_compile r i :
  init_regex K R prefs_get re_compile = inr r ->
  (In i (FAILED_ENTRY_REGEX_RANGE K) ->
   exists default rx,
     FAILED_ENTRY_REGEX_MAP R !! i = Some default /\
     get_regex prefs_get re_compile (failed_entry_regex_name i) default = inr rx /\
     r_failed_entry_regex_map r !! i = Some rx) /\
  (~ In i (FAILED_ENTRY_REGEX_RANGE K) -> r_failed_entry_regex_map r !! i = None).
Proof.
  intros Hinit. apply init_regex_map_run in Hinit.
  destruct (init_failed_entry_regex_map_run R prefs_get re_compile _ _ _ Hinit i)
    as (Hin & Hout).
  split; [exact Hin |]. intros Hi. rewrite (Hout Hi). apply lookup_empty.
Qed.

Lemma scan_failed_none P range message :
  scan_failed P range message = None ->
  forall i rx, In i range -> failed_entry_regex_map P !! i = Some rx ->
    re_search rx message = None.
Proof.
  induction range as [| j range IH]; intros Hscan i rx Hin Hrx; [destruct Hin |].
  cbn [scan_failed] in Hscan.
  destruct Hin as [-> | Hin].
  - rewrite Hrx in Hscan. destruct (re_search rx message); [discriminate | reflexivity].
  - apply IH with (i := i); try assumption.
    destruct (failed_entry_regex_map P !! j) as [rx' |]; [| exact Hscan].
    destruct (re_search rx' message); [discriminate | exact Hscan].
Qed.

(** X25.  With the patterns that [init_regex] has set, the loop of
    [process_log] over the failed-entry patterns passes over no index: it
    runs to its [else] clause, where the successful-entry pattern is tried,
    only when every index of the range has a pattern and none of them
    matches the message. *)
Theorem scan_failed_tries_every_pattern K P R prefs_get re_compile r message i :
  init_regex K R prefs_get re_compile = inr r ->
  failed_entry_regex_map P = r_failed_entry_regex_map r ->
  scan_failed P (FAILED_ENTRY_REGEX_RANGE K) message = None ->
  In i (FAILED_ENTRY_REGEX_RANGE K) ->
  exists rx, failed_entry_regex_map P !! i = Some rx /\
             re_search rx message = None.
Proof.
  intros Hinit Hmap Hscan Hin. apply init_regex_map_run in Hinit.
  destruct (init_failed_entry_regex_map_run R prefs_get re_compile _ _ _ Hinit i)
    as (Hsome & _).
  destruct (Hsome Hin) as (d & rx & _ & _ & Hrx).
  rewrite <- Hmap in Hrx. exists rx. split; [exact Hrx |].
  eapply scan_failed_none; eassumption.
Qed.



(** ** The properties above on concrete configurations *)

Import Cases.

(** iptables answers 1 to the check: the host is not blocked. *)
Lemma firewall_check_outcome_witness :
  res (firewall_check P_iptables E0 "192.0.2.10" s0 []) = Ok false /\
  st (firewall_check P_iptables E0 "192.0.2.10" s0 []) = s0 /\
  (truthy (IPTABLES P_iptables) = true ->
   exists args,
     subprocess_calls (out (firewall_check P_iptables E0 "192.0.2.10" s0 [])) =
       [(args, env_subprocess E0 [] args)] /\
     (false = true <-> env_subprocess E0 [] args = Some 0)).
Proof.
  split; [reflexivity |].
  apply (firewall_check_outcome P_iptables E0 "192.0.2.10" s0 [] false).
  reflexivity.
Defined.

(** No firewall at all. *)
Lemma firewall_check_without_iptables_witness :
  truthy (IPTABLES P0) = false /\
  firewall_check P0 E0 "192.0.2.10" s0 [] =
    if truthy (PFCTL_PATH P0) && truthy (PF_TABLE P0)
    then (Raise (NameError "RuntimeException"), s0, [])
    else (Ok true, add_fw_blocked_host "192.0.2.10" s0, []).
Proof.
  split; [reflexivity |].
  apply (firewall_check_without_iptables P0 E0 "192.0.2.10" s0 []).
  reflexivity.
Defined.

(** Three hosts, the second command fails. *)
Lemma firewall_block_stops_at_first_failure_witness :
  truthy (IPTABLES P_iptables) = true /\
  truthy (IPSET_NAME P_iptables) && truthy (IPSET_COMMAND P_iptables) = false /\
  let hosts := ["192.0.2.10"; "192.0.2.11"; "192.0.2.12"] in
  let r := firewall_block K0 P_iptables E_second_fails hosts s0 [] in
  exists k, (k <= List.length hosts)%nat /\
    res r = Ok tt /\
    fw_blocked_hosts (st r) = list_to_set (take k hosts) ∪ fw_blocked_hosts s0 /\
    exists rest,
      subprocess_calls (out r) =
        map (fun x => (insert_rule P_iptables x, Some 0)) (take k hosts) ++ rest /\
      match hosts !! k with
      | None => rest = []
      | Some x => exists bad, bad <> Some 0 /\ rest = [(insert_rule P_iptables x, bad)]
      end.
Proof.
  split; [reflexivity |]. split; [reflexivity |].
  apply (firewall_block_stops_at_first_failure K0 P_iptables E_second_fails
           ["192.0.2.10"; "192.0.2.11"; "192.0.2.12"] s0 []);
    reflexivity.
Defined.


Lemma deny_file_nonempty : Forall (fun line => line <> EmptyString) deny_file.
Proof. repeat constructor; discriminate. Qed.

(** A deny file with a comment, a blank line and two entries. *)
Lemma get_denied_hosts_rebuilds_witness :
  env_read_hosts_deny E_deny_file [] = Ok deny_file /\
  Forall (fun line => line <> EmptyString) deny_file /\
  let r := get_denied_hosts K0 P0 E_deny_file s_blocking [] in
  res r = Ok tt /\
  st r = set_denied_hosts (deny_file_hosts K0 deny_file) s_blocking /\
  exists report,
    out r = EReadHostsDeny (Ok deny_file)
              :: map EAddWarnedHost (warned_hosts K0 P0 deny_file) ++ report /\
    Forall is_not_warning report.
Proof.
  split; [reflexivity |]. split; [exact deny_file_nonempty |].
  apply (get_denied_hosts_rebuilds K0 P0 E_deny_file deny_file s_blocking []);
    [reflexivity | exact deny_file_nonempty].
Defined.


(** 192.0.2.10 is on file, 192.0.2.20 is not. *)
Lemma denied_host_not_added_again_witness :
  env_read_hosts_deny E_deny_file [] = Ok deny_file /\
  Forall (fun line => line <> EmptyString) deny_file /\
  "192.0.2.10" ∈ deny_file_hosts K0 deny_file /\
  res (update_hosts_deny K0 P0 E_deny_file ["192.0.2.10"; "192.0.2.20"]
         (st (get_denied_hosts K0 P0 E_deny_file s0 [])) [])
    = Ok (Some ["192.0.2.20"], Some 1) /\
  ~ In "192.0.2.10" ["192.0.2.20"].
Proof.
  assert (Hx : "192.0.2.10" ∈ deny_file_hosts K0 deny_file)
    by (vm_compute; reflexivity).
  assert (Hres : res (update_hosts_deny K0 P0 E_deny_file
                        ["192.0.2.10"; "192.0.2.20"]
                        (st (get_denied_hosts K0 P0 E_deny_file s0 [])) [])
                 = Ok (Some ["192.0.2.20"], Some 1))
    by (vm_compute; reflexivity).
  split; [reflexivity |]. split; [exact deny_file_nonempty |].
  split; [exact Hx |]. split; [exact Hres |].
  apply (denied_host_not_added_again K0 P0 E_deny_file deny_file
           ["192.0.2.10"; "192.0.2.20"] s0 [] [] "192.0.2.10"
           ["192.0.2.20"] (Some 1));
    [reflexivity | exact deny_file_nonempty | exact Hx | exact Hres].
Defined.

(** A last line without a newline: the entry of 192.0.2.77 is parsed as
    that of 192.0.2.7. *)
Lemma parsed_text_drops_last_character_witness :
  find_hash ("sshd: 192.0.2.7" +:+ String "7" EmptyString) = -1 /\
  parsed_text ("sshd: 192.0.2.7" +:+ String "7" EmptyString) = "sshd: 192.0.2.7".
Proof.
  split; [reflexivity |].
  apply (parsed_text_drops_last_character "sshd: 192.0.2.7" "7").
  reflexivity.
Defined.

(** A successful login. *)
Lemma classify_success_flag_witness :
  let line := "sshd: Accepted password from 192.0.2.10" in
  let v := {| l_success := 1; l_invalid := 0;
              l_m := Some [("host", Some "192.0.2.10")] |} in
  classify K0 P0 line = Ok v /\
  (l_success v = 0 \/ l_success v = 1) /\
  (l_success v = 1 <->
   exists sshd_m message mm,
     re_match (sshd_format_regex P0) line = Some sshd_m /\
     group sshd_m "message" = Ok (Some message) /\
     scan_failed P0 (FAILED_ENTRY_REGEX_RANGE K0) message = None /\
     re_match (successful_entry_regex P0) message = Some mm).
Proof.
  intros line v. split; [reflexivity |].
  apply (classify_success_flag K0 P0 line v). reflexivity.
Defined.

(** The log cannot be opened. *)
Lemma process_log_unopenable_witness :
  (forall mode, env_open E_no_log [] LogFile "/var/log/auth.log" mode = false) /\
  res (process_log K0 P0 E_no_log "/var/log/auth.log" 0 s0 []) = Ok (-1) /\
  st (process_log K0 P0 E_no_log "/var/log/auth.log" 0 s0 []) = s0 /\
  Forall (is_open_failure "/var/log/auth.log")
    (out (process_log K0 P0 E_no_log "/var/log/auth.log" 0 s0 [])).
Proof.
  split; [intros mode; reflexivity |].
  apply (process_log_unopenable K0 P0 E_no_log "/var/log/auth.log" 0 s0 []).
  intros mode. reflexivity.
Defined.


(** Purging configured, a sleep time of 0. *)
Lemma runDaemon_zero_sleep_witness :
  DAEMON_SLEEP P_no_sleep = 0 /\
  truthyZ (PURGE_DENY P_no_sleep)
    || (truthyZ (SYNC_INTERVAL P_no_sleep) && truthy (SYNC_SERVER P_no_sleep))
    = true /\
  runDaemon K0 P_no_sleep E0 3 "/var/log/auth.log" None s0 [] =
    (Raise ZeroDivisionError, s0, [ESignals; ELockCreate]).
Proof.
  split; [reflexivity |]. split; [reflexivity |].
  apply (runDaemon_zero_sleep K0 P_no_sleep E0 3 "/var/log/auth.log" None s0 []);
    reflexivity.
Defined.

(** A ratio of 2, from a counter at 1: the purge runs. *)
Lemma sleepAndPurge_purge_tick_witness :
  604800 <> 0 /\
  sleepAndPurge K0 P_purge_even E0 60 (Some 604800) (Some (inject_Z 2)) None
    (set_purge_counter 1 s0) [] =
  (Ok tt, set_purge_counter 0 s0, [ESleep 60; EPurge (Some 604800) (Ok tt)]).
Proof.
  split; [discriminate |].
  apply (sleepAndPurge_purge_tick K0 P_purge_even E0 60 604800 2
           (set_purge_counter 1 s0) []).
  discriminate.
Defined.

(** The log file has been deleted, and synchronisation is due at every
    turn. *)
Lemma daemon_iteration_deleted_log_witness :
  let v := {| inode := 7; last_offset := Some 40 |} in
  env_stat E_deleted_log [] "/var/log/auth.log" = None /\
  let r := daemon_iteration K0 P_sync E_deleted_log "/var/log/auth.log" 600 None
             None (Some (inject_Z 1)) v s0 [] in
  Forall (fun e => is_sync_event e = false) (out r) /\
  sync_counter (st r) = sync_counter s0 /\
  forall v', res r = Ok v' -> v' = v.
Proof.
  intros v. split; [reflexivity |].
  apply (daemon_iteration_deleted_log K0 P_sync E_deleted_log "/var/log/auth.log"
           600 None None (Some (inject_Z 1)) v s0 []).
  reflexivity.
Defined.


(** No stored offset, a log of 100 bytes. *)
Lemma follow_without_stored_offset_witness :
  let v := {| inode := 7; last_offset := None |} in
  last_offset v = None /\
  let r := follow K0 P0 E_small_log "/var/log/auth.log" 30 None None None v 100
             s0 [] in
  Forall (fun e => reads_log e = false) (out r) /\
  forall v', res r = Ok v' -> v' = {| inode := inode v; last_offset := Some 100 |}.
Proof.
  intros v. split; [reflexivity |].
  apply (follow_without_stored_offset K0 P0 E_small_log "/var/log/auth.log" 30
           None None None v 100 s0 []).
  reflexivity.
Defined.

Lemma init_regex_r0 : init_regex K0 R0 prefs_get0 re_compile0 = inr r0.
Proof. vm_compute. reflexivity. Qed.

(** The index 2, for which the preferences give a pattern. *)
Lemma init_regex_covers_range_witness :
  init_regex K0 R0 prefs_get0 re_compile0 = inr r0 /\
  (In 2 (FAILED_ENTRY_REGEX_RANGE K0) ->
   exists default rx,
     FAILED_ENTRY_REGEX_MAP R0 !! 2 = Some default /\
     get_regex prefs_get0 re_compile0 (failed_entry_regex_name 2) default = inr rx /\
     r_failed_entry_regex_map r0 !! 2 = Some rx) /\
  (~ In 2 (FAILED_ENTRY_REGEX_RANGE K0) -> r_failed_entry_regex_map r0 !! 2 = None).
Proof.
  split; [exact init_regex_r0 |].
  apply (init_regex_covers_range K0 R0 prefs_get0 re_compile0 r0 2).
  exact init_regex_r0.
Defined.

(** A successful login: neither pattern of the range matches. *)
Lemma scan_failed_tries_every_pattern_witness :
  let message := "Accepted password from 192.0.2.10" in
  init_regex K0 R0 prefs_get0 re_compile0 = inr r0 /\
  failed_entry_regex_map (with_regexes r0) = r_failed_entry_regex_map r0 /\
  scan_failed (with_regexes r0) (FAILED_ENTRY_REGEX_RANGE K0) message = None /\
  In 2 (FAILED_ENTRY_REGEX_RANGE K0) /\
  exists rx, failed_entry_regex_map (with_regexes r0) !! 2 = Some rx /\
             re_search rx message = None.
Proof.
  intros message.
  assert (Hscan : scan_failed (with_regexes r0) (FAILED_ENTRY_REGEX_RANGE K0)
                    message = None) by (vm_compute; reflexivity).
  assert (Hin : In 2 (FAILED_ENTRY_REGEX_RANGE K0)) by (right; left; reflexivity).
  split; [exact init_regex_r0 |]. split; [reflexivity |].
  split; [exact Hscan |]. split; [exact Hin |].
  apply (scan_failed_tries_every_pattern K0 (with_regexes r0) R0 prefs_get0
           re_compile0 r0 message 2);
    [exact init_regex_r0 | reflexivity | exact Hscan | exact Hin].
Defined.

